(** * The detection engine of Foresight-AI (src/detection.py)

    A shallow embedding of [EnhancedDetectionEngine]: reference loading,
    the matcher, the clip recorder and the frame loop of [process_video],
    with the engine object and the outside world (video writers, report
    files, callbacks, log) threaded explicitly as one state.

    Conventions of the embedding.
    - A Python float is the rational it stands for, in [Q].  The product
      [fps * clip_duration], which [_start_video_clip] truncates, is rounded
      as IEEE 754 rounds it ([float_mul]); the quotient printed as the time
      stamp and the difference [1 - distance] are kept exact.  NaN and
      infinities are outside the model.
    - A frame returned by [cap.read()] is a fresh array object; it is
      modelled as the pair of its read ordinal and its pixel content.  The
      rectangles and labels drawn on it in place are kept beside it, in the
      locals of the loop, because the mask of a later face of the same
      frame is measured on the array as drawn on.  The poly-line, the face
      crop written with [cv2.imwrite] and wall-clock file names are not
      modelled.
    - The face service, the imaging library and the file system are
      parameters.  Calls that can raise return [option], [None] standing
      for a raised exception; whether the report file can be written is a
      predicate on the state the method is called in.
    - A callback is recorded as an event with its argument, the progress
      as the pair it is the quotient of; callbacks are taken to return.
    - [pause()], [resume()] and [stop()] are called from another thread.
      The loop reads the two events only in the [while] test and in the
      [if] that follows it, so an interleaving is determined by the calls
      that arrive before each of these two reads. *)

From Stdlib Require Import ZArith QArith Qabs Qround Lia Bool Ascii String Sorted.
From stdpp Require Import base option list.

Local Open Scope Z_scope.

(** ** Numbers *)

(** Python's [int(x)] on a float: truncation toward zero. *)
Definition py_int (x : Q) : Z := Z.quot (Qnum x) (Zpos (Qden x)).

(** The integer nearest to [n / d] for [n] not negative and [d] positive,
    the even one of two that are equally near. *)
Definition round_half_even (n d : Z) : Z :=
  let q := n / d in
  match 2 * (n mod d) ?= d with
  | Lt => q
  | Gt => q + 1
  | Eq => if Z.even q then q else q + 1
  end.

(** The IEEE 754 double nearest to [x], ties to even: what Python reads an
    integer or a decimal literal as, and what an operation on doubles
    returns for the exact result [x].  The double has 53 significant bits
    at the binary exponent of [x], and is a multiple of 2^-1074 where [x] is
    smaller than 2^-1022.  Beyond the largest double Python has an infinity,
    which is outside the model. *)
Definition round_double (x : Q) : Q :=
  let x := Qred x in
  let n := Z.abs (Qnum x) in
  let d := Zpos (Qden x) in
  if n =? 0 then 0%Q
  else
    let e0 := Z.log2 n - Z.log2 d in
    let e := if (if 0 <=? e0 then d * 2 ^ e0 <=? n else d <=? n * 2 ^ (- e0))
             then e0 else e0 - 1 in
    let q := Z.max (e - 52) (-1074) in
    if 0 <=? q
    then inject_Z (Z.sgn (Qnum x) * round_half_even n (d * 2 ^ q) * 2 ^ q)
    else Qmake (Z.sgn (Qnum x) * round_half_even (n * 2 ^ (- q)) d) (Z.to_pos (2 ^ (- q))).

(** Python's [x * y] on floats, one of which may be an integer. *)
Definition float_mul (x y : Q) : Q := round_double (round_double x * round_double y).

(** Python's [max(a, b)]: [b] when [b > a], otherwise [a]. *)
Definition py_max (a b : Q) : Q := if Qle_bool b a then a else b.

(** Python's list slice [l[:n]] for an integer [n] of either sign. *)
Definition py_slice_to {A} (n : Z) (l : list A) : list A :=
  if 0 <=? n then take (Z.to_nat n) l
  else take (Z.to_nat (Z.of_nat (length l) + n)) l.

(** ** Data *)

(** A face location as [face_recognition] gives it. *)
Record Location := { top : Z; right : Z; bottom : Z; left : Z }.

(** The dictionary [detection_info] built for a confirmed match.  The
    [timestamp] entry is kept as the number of seconds it is printed from. *)
Record DetectionInfo := {
  di_frame : Z;
  di_seconds : Q;
  di_confidence : Q;
  di_mask : bool
}.

(** What a confirmed match draws on the frame: the rectangle around the
    face, coloured by the mask flag, and the label over it, which prints
    the flag and the confidence. *)
Record Annotation := {
  an_location : Location;
  an_mask : bool;
  an_confidence : Q
}.

Inductive LogMsg :=
| WarnTruncated (max_images : Z)
| ErrNotFound (path : string)
| ErrNoFace (path : string)
| ErrLoading (path : string)
| ErrNoValidEncodings
| InfoLoaded (n : nat)
| ErrOpenVideo
| InfoClipStarted (n : Z)
| InfoReportGenerated
| ErrGeneratingReport
| InfoTotalMatches (n : Z).

(** The three control calls another thread can make. *)
Inductive Signal := SigPause | SigResume | SigStop.

(** What arrives before the [while] test and before the pause test of one
    pass through the loop head. *)
Record Arrivals := {
  before_loop_test : list Signal;
  before_pause_test : list Signal
}.

Definition quiet : Arrivals := {| before_loop_test := []; before_pause_test := [] |}.

Section Engine.

Context {Frame Encoding : Type}.

(** A frame object: read ordinal and content. *)
Definition FrameObj : Type := nat * Frame.

(** A [cv2.VideoWriter] object: how it was opened, the frames written to
    it, and how many times [release()] was called on it. *)
Record VideoWriter := {
  vw_fps : Q;
  vw_size : Z * Z;
  vw_frames : list FrameObj;
  vw_releases : nat
}.

Inductive Callback :=
| CbProgress (current_frame total_frames : Z)
| CbFrame (frame : FrameObj).

(** What [cv2.VideoCapture] offers for an opened file. *)
Record Video := {
  total_frames : Z;
  fps : Q;
  frames : list Frame
}.

(** The attributes fixed by [__init__] (read from the configuration, and
    whether each callback was supplied). *)
Record Settings := {
  frame_skip : Z;
  confidence_threshold : Q;
  mask_std_threshold : Q;
  clip_duration : Q;
  max_reference_images : option Z;
  progress_callback : bool;
  video_frame_callback : bool
}.

(** The mutable attributes of the engine object, followed by the part of
    the outside world the engine acts on. *)
Record State := {
  reference_encodings : list Encoding;
  matches : list DetectionInfo;
  report_data : list DetectionInfo;
  detection_path : list (Z * Z);
  pause_event : bool;
  stop_event : bool;
  current_clip_writer : option nat;
  clip_frames_remaining : Z;
  writers : list VideoWriter;
  reports : list (list DetectionInfo);
  callbacks : list Callback;
  log : list LogMsg
}.

(** The local variables of [process_video]; [cap_pos] is the read position
    of the capture, [annotations] what has been drawn so far on the array
    [frame] refers to. *)
Record Locals := {
  cap_pos : nat;
  current_frame : Z;
  match_count : Z;
  annotations : list Annotation
}.

(** The engine as [__init__] leaves it, in a world with no writer, report,
    callback or log entry of this engine yet. *)
Definition init : State := {|
  reference_encodings := []; matches := []; report_data := [];
  detection_path := []; pause_event := false; stop_event := false;
  current_clip_writer := None; clip_frames_remaining := 0;
  writers := []; reports := []; callbacks := []; log := []
|}.

(** *** Field updates *)

Definition set_reference_encodings (x : list Encoding) (s : State) : State :=
  {| reference_encodings := x; matches := matches s; report_data := report_data s;
     detection_path := detection_path s; pause_event := pause_event s;
     stop_event := stop_event s; current_clip_writer := current_clip_writer s;
     clip_frames_remaining := clip_frames_remaining s; writers := writers s;
     reports := reports s; callbacks := callbacks s; log := log s |}.

Definition set_matches (x : list DetectionInfo) (s : State) : State :=
  {| reference_encodings := reference_encodings s; matches := x; report_data := report_data s;
     detection_path := detection_path s; pause_event := pause_event s;
     stop_event := stop_event s; current_clip_writer := current_clip_writer s;
     clip_frames_remaining := clip_frames_remaining s; writers := writers s;
     reports := reports s; callbacks := callbacks s; log := log s |}.

Definition set_report_data (x : list DetectionInfo) (s : State) : State :=
  {| reference_encodings := reference_encodings s; matches := matches s; report_data := x;
     detection_path := detection_path s; pause_event := pause_event s;
     stop_event := stop_event s; current_clip_writer := current_clip_writer s;
     clip_frames_remaining := clip_frames_remaining s; writers := writers s;
     reports := reports s; callbacks := callbacks s; log := log s |}.

Definition set_detection_path (x : list (Z * Z)) (s : State) : State :=
  {| reference_encodings := reference_encodings s; matches := matches s;
     report_data := report_data s; detection_path := x; pause_event := pause_event s;
     stop_event := stop_event s; current_clip_writer := current_clip_writer s;
     clip_frames_remaining := clip_frames_remaining s; writers := writers s;
     reports := reports s; callbacks := callbacks s; log := log s |}.

Definition set_pause_event (x : bool) (s : State) : State :=
  {| reference_encodings := reference_encodings s; matches := matches s;
     report_data := report_data s; detection_path := detection_path s; pause_event := x;
     stop_event := stop_event s; current_clip_writer := current_clip_writer s;
     clip_frames_remaining := clip_frames_remaining s; writers := writers s;
     reports := reports s; callbacks := callbacks s; log := log s |}.

Definition set_stop_event (x : bool) (s : State) : State :=
  {| reference_encodings := reference_encodings s; matches := matches s;
     report_data := report_data s; detection_path := detection_path s;
     pause_event := pause_event s; stop_event := x;
     current_clip_writer := current_clip_writer s;
     clip_frames_remaining := clip_frames_remaining s; writers := writers s;
     reports := reports s; callbacks := callbacks s; log := log s |}.

Definition set_current_clip_writer (x : option nat) (s : State) : State :=
  {| reference_encodings := reference_encodings s; matches := matches s;
     report_data := report_data s; detection_path := detection_path s;
     pause_event := pause_event s; stop_event := stop_event s; current_clip_writer := x;
     clip_frames_remaining := clip_frames_remaining s; writers := writers s;
     reports := reports s; callbacks := callbacks s; log := log s |}.

Definition set_clip_frames_remaining (x : Z) (s : State) : State :=
  {| reference_encodings := reference_encodings s; matches := matches s;
     report_data := report_data s; detection_path := detection_path s;
     pause_event := pause_event s; stop_event := stop_event s;
     current_clip_writer := current_clip_writer s; clip_frames_remaining := x;
     writers := writers s; reports := reports s; callbacks := callbacks s; log := log s |}.

Definition set_writers (x : list VideoWriter) (s : State) : State :=
  {| reference_encodings := reference_encodings s; matches := matches s;
     report_data := report_data s; detection_path := detection_path s;
     pause_event := pause_event s; stop_event := stop_event s;
     current_clip_writer := current_clip_writer s;
     clip_frames_remaining := clip_frames_remaining s; writers := x;
     reports := reports s; callbacks := callbacks s; log := log s |}.

Definition set_reports (x : list (list DetectionInfo)) (s : State) : State :=
  {| reference_encodings := reference_encodings s; matches := matches s;
     report_data := report_data s; detection_path := detection_path s;
     pause_event := pause_event s; stop_event := stop_event s;
     current_clip_writer := current_clip_writer s;
     clip_frames_remaining := clip_frames_remaining s; writers := writers s;
     reports := x; callbacks := callbacks s; log := log s |}.

Definition set_callbacks (x : list Callback) (s : State) : State :=
  {| reference_encodings := reference_encodings s; matches := matches s;
     report_data := report_data s; detection_path := detection_path s;
     pause_event := pause_event s; stop_event := stop_event s;
     current_clip_writer := current_clip_writer s;
     clip_frames_remaining := clip_frames_remaining s; writers := writers s;
     reports := reports s; callbacks := x; log := log s |}.

Definition set_log (x : list LogMsg) (s : State) : State :=
  {| reference_encodings := reference_encodings s; matches := matches s;
     report_data := report_data s; detection_path := detection_path s;
     pause_event := pause_event s; stop_event := stop_event s;
     current_clip_writer := current_clip_writer s;
     clip_frames_remaining := clip_frames_remaining s; writers := writers s;
     reports := reports s; callbacks := callbacks s; log := x |}.

Definition logging (m : LogMsg) (s : State) : State := set_log (log s ++ [m]) s.

(** ** The services the engine calls *)

(** [os.path.exists]. *)
Variable path_exists : string -> bool.
(** [load_image_file] followed by [face_encodings] on a reference image:
    the encodings found, or [None] when either call raises. *)
Variable load_encodings : string -> option (list Encoding).
(** [cvtColor], [face_locations] and [face_encodings] on a video frame,
    zipped: the faces with their encodings, or [None] when a call raises. *)
Variable face_analysis : Frame -> option (list (Location * Encoding)).
(** [compare_faces([ref], enc)[0]] and [face_distance([ref], enc)[0]]. *)
Variable compare_faces : Encoding -> Encoding -> bool.
Variable face_distance : Encoding -> Encoding -> Q.
(** [np.std] of the grey-scale crop of a face, taken from the frame with
    what has been drawn on it so far, or [None] when the conversion raises
    (an empty crop). *)
Variable gray_std : Frame -> list Annotation -> Location -> option Q.
(** [frame.shape] as (height, width). *)
Variable frame_shape : Frame -> Z * Z.
(** Whether the [with open(report_path, "w")] block of [generate_report]
    completes when it is run in the state given: the reports folder is
    there and the file can be written.  A file that a failing write leaves
    incomplete counts as not written. *)
Variable report_writable : State -> bool.

Variable cfg : Settings.

(** ** load_reference_images *)

(** One pass of the [for path in image_paths] loop. *)
Definition load_one (s : State) (path : string) : State :=
  if negb (path_exists path) then logging (ErrNotFound path) s
  else match load_encodings path with
       | Some (e :: _) => set_reference_encodings (reference_encodings s ++ [e]) s
       | Some [] => logging (ErrNoFace path) s
       | None => logging (ErrLoading path) s
       end.

Definition load_reference_images (image_paths : list string) (s : State) : State * bool :=
  let s := set_reference_encodings [] s in
  let '(s, image_paths) :=
    match max_reference_images cfg with
    | Some max_images =>
        if Z.of_nat (length image_paths) >? max_images
        then (logging (WarnTruncated max_images) s, py_slice_to max_images image_paths)
        else (s, image_paths)
    | None => (s, image_paths)
    end in
  let s := fold_left load_one image_paths s in
  match reference_encodings s with
  | [] => (logging ErrNoValidEncodings s, false)
  | _ :: _ => (logging (InfoLoaded (length (reference_encodings s))) s, true)
  end.

(** ** _detect_mask *)

Definition _detect_mask (frame : Frame) (drawn : list Annotation) (loc : Location)
  : option bool :=
  match gray_std frame drawn loc with
  | Some std => Some (negb (Qle_bool (mask_std_threshold cfg) std))
  | None => None
  end.

(** ** _start_video_clip *)

Definition new_writer (shape : Z * Z) (fps : Q) : VideoWriter :=
  {| vw_fps := fps; vw_size := (snd shape, fst shape); vw_frames := []; vw_releases := 0 |}.

Definition _start_video_clip (shape : Z * Z) (fps : Q) (s : State) : State :=
  let w := length (writers s) in
  let s := set_writers (writers s ++ [new_writer shape fps]) s in
  let s := set_current_clip_writer (Some w) s in
  let s := set_clip_frames_remaining (py_int (float_mul fps (clip_duration cfg))) s in
  logging (InfoClipStarted (clip_frames_remaining s)) s.

(** ** The control calls *)

Definition pause (s : State) : State := set_pause_event true s.
Definition resume (s : State) : State := set_pause_event false s.
Definition stop (s : State) : State := set_stop_event true s.

Definition signal (s : State) (sg : Signal) : State :=
  match sg with
  | SigPause => pause s
  | SigResume => resume s
  | SigStop => stop s
  end.

Definition deliver (sgs : list Signal) (s : State) : State := fold_left signal sgs s.

(** ** generate_report *)

(** The report file enumerates [report_data]; a failure to open or write
    it is caught and logged inside the method, and no report is written
    then.  [reports] holds what was written, report by report; that two
    reports of the same second share a file name is not modelled. *)
Definition generate_report (s : State) : State :=
  if report_writable s
  then logging InfoReportGenerated (set_reports (reports s ++ [report_data s]) s)
  else logging ErrGeneratingReport s.

(** ** The matcher: the loop over [reference_encodings] for one face *)

(** One pass of [for ref_encoding in self.reference_encodings], on the pair
    ([match_found], [best_confidence]). *)
Definition match_ref (face_encoding : Encoding) (acc : bool * Q) (ref_encoding : Encoding)
  : bool * Q :=
  let confidence := face_distance ref_encoding face_encoding in
  if compare_faces ref_encoding face_encoding
     && Qle_bool confidence (confidence_threshold cfg)
  then (true, py_max (snd acc) (1 - confidence)%Q)
  else acc.

Definition match_face (refs : list Encoding) (face_encoding : Encoding) : bool * Q :=
  fold_left (match_ref face_encoding) refs (false, 0%Q).

(** ** The clip recorder *)

(** [write(frame)] does nothing on a released writer. *)
Definition vw_write (fo : FrameObj) (w : VideoWriter) : VideoWriter :=
  match vw_releases w with
  | O => {| vw_fps := vw_fps w; vw_size := vw_size w;
            vw_frames := vw_frames w ++ [fo]; vw_releases := 0 |}
  | S _ => w
  end.

Definition vw_release (w : VideoWriter) : VideoWriter :=
  {| vw_fps := vw_fps w; vw_size := vw_size w;
     vw_frames := vw_frames w; vw_releases := S (vw_releases w) |}.

(** "Write frame to clip if recording is active." *)
Definition clip_write (fo : FrameObj) (s : State) : State :=
  match current_clip_writer s with
  | Some w =>
      let s := set_writers (alter (vw_write fo) w (writers s)) s in
      let s := set_clip_frames_remaining (clip_frames_remaining s - 1) s in
      if clip_frames_remaining s <=? 0
      then set_current_clip_writer None (set_writers (alter vw_release w (writers s)) s)
      else s
  | None => s
  end.

(** ** One face of an analysed frame *)

Inductive Step :=
| Ok (s : State) (l : Locals)
| Exn (s : State).

Definition center (loc : Location) : Z * Z :=
  (Z.quot (left loc + right loc) 2, Z.quot (top loc + bottom loc) 2).

(** The body of [if match_found:]. *)
Definition record_match (v : Video) (fo : FrameObj) (loc : Location) (best_confidence : Q)
    (s : State) (l : Locals) : Step :=
  match _detect_mask (snd fo) (annotations l) loc with
  | None => Exn s
  | Some has_mask =>
      let drawn := annotations l ++ [{| an_location := loc; an_mask := has_mask;
                                        an_confidence := best_confidence |}] in
      let s := set_detection_path (detection_path s ++ [center loc]) s in
      if Qeq_bool (fps v) 0 then Exn s  (* current_frame / fps *)
      else
        let detection_info :=
          {| di_frame := current_frame l;
             di_seconds := (inject_Z (current_frame l) / fps v)%Q;
             di_confidence := best_confidence;
             di_mask := has_mask |} in
        let s := set_matches (matches s ++ [detection_info]) s in
        let s := set_report_data (report_data s ++ [detection_info]) s in
        let l := {| cap_pos := cap_pos l; current_frame := current_frame l;
                    match_count := match_count l + 1; annotations := drawn |} in
        let s := match current_clip_writer s with
                 | None => _start_video_clip (frame_shape (snd fo)) (fps v) s
                 | Some _ => s
                 end in
        Ok s l
  end.

Definition process_face (v : Video) (fo : FrameObj) (face : Location * Encoding)
    (s : State) (l : Locals) : Step :=
  let '(match_found, best_confidence) := match_face (reference_encodings s) (snd face) in
  if match_found then record_match v fo (fst face) best_confidence s l else Ok s l.

(** [for face_location, face_encoding in zip(...)]: an exception ends it. *)
Fixpoint process_faces (v : Video) (fo : FrameObj) (faces : list (Location * Encoding))
    (s : State) (l : Locals) : Step :=
  match faces with
  | [] => Ok s l
  | face :: faces' =>
      match process_face v fo face s l with
      | Ok s' l' => process_faces v fo faces' s' l'
      | Exn s' => Exn s'
      end
  end.

(** The two callbacks at the end of an analysed iteration. *)
Definition notify (v : Video) (fo : FrameObj) (l : Locals) (s : State) : State :=
  let s := if progress_callback cfg
           then set_callbacks (callbacks s ++ [CbProgress (current_frame l) (total_frames v)]) s
           else s in
  if video_frame_callback cfg then set_callbacks (callbacks s ++ [CbFrame fo]) s else s.

(** ** The frame loop *)

Inductive Flow :=
| Next (s : State) (l : Locals)
| Done (s : State) (l : Locals)
| Raised (s : State).

Definition advance (l : Locals) : Locals :=
  {| cap_pos := cap_pos l; current_frame := current_frame l + 1;
     match_count := match_count l; annotations := annotations l |}.

Definition after_read (l : Locals) : Locals :=
  {| cap_pos := S (cap_pos l); current_frame := current_frame l;
     match_count := match_count l; annotations := [] |}.

(** Everything after a successful [cap.read()]. *)
Definition on_frame (v : Video) (fo : FrameObj) (s : State) (l : Locals) : Flow :=
  let s := clip_write fo s in
  if frame_skip cfg =? 0 then Raised s  (* current_frame % 0 *)
  else if negb (current_frame l mod frame_skip cfg =? 0) then Next s (advance l)
  else match face_analysis (snd fo) with
       | None => Raised s
       | Some faces =>
           match process_faces v fo faces s l with
           | Exn s' => Raised s'
           | Ok s' l' => Next (notify v fo l' s') (advance l')
           end
       end.

(** One evaluation of the [while] test followed, when it holds, by one pass
    through the body. *)
Definition iteration (v : Video) (a : Arrivals) (s : State) (l : Locals) : Flow :=
  let s := deliver (before_loop_test a) s in
  if negb (stop_event s) && (current_frame l <? total_frames v) then
    let s := deliver (before_pause_test a) s in
    if pause_event s then Next s l  (* time.sleep(0.1); continue *)
    else match frames v !! cap_pos l with
         | None => Done s l  (* not ret: break *)
         | Some frame => on_frame v (cap_pos l, frame) s (after_read l)
         end
  else Done s l.

(** The [while] loop, the [k]-th pass taking the arrivals [sched k];
    [None] when [fuel] passes do not leave the loop. *)
Fixpoint loop (fuel : nat) (v : Video) (sched : nat -> Arrivals) (k : nat)
    (s : State) (l : Locals) : option Flow :=
  match fuel with
  | O => None
  | S fuel' =>
      match iteration v (sched k) s l with
      | Next s' l' => loop fuel' v sched (S k) s' l'
      | r => Some r
      end
  end.

(** ** process_video *)

Inductive Outcome :=
| Returned (n : Z) (s : State)
| Aborted (s : State).

Definition entry : Locals :=
  {| cap_pos := 0; current_frame := 0; match_count := 0; annotations := [] |}.

(** [video] is [None] when [cap.isOpened()] is false. *)
Definition process_video (fuel : nat) (video : option Video) (sched : nat -> Arrivals)
    (s : State) : option Outcome :=
  match video with
  | None => Some (Returned 0 (logging ErrOpenVideo s))
  | Some v =>
      match loop fuel v sched 0 s entry with
      | Some (Done s' l') =>
          Some (Returned (match_count l')
                  (logging (InfoTotalMatches (match_count l')) (generate_report s')))
      | Some (Raised s') => Some (Aborted s')
      | _ => None
      end
  end.

(** ** States met at the loop head *)

(** The state after [n] further passes that all come back to the loop
    head, starting with pass number [k]. *)
Fixpoint passes (v : Video) (sched : nat -> Arrivals) (k n : nat) (s : State) (l : Locals)
  : option (State * Locals) :=
  match n with
  | O => Some (s, l)
  | S n' =>
      match iteration v (sched k) s l with
      | Next s' l' => passes v sched (S k) n' s' l'
      | _ => None
      end
  end.

(** ** Clip sessions *)

(** A session is live from the creation of its writer to its release. *)
Definition active (w : VideoWriter) : Prop := vw_releases w = 0%nat.

Definition at_most_one_session (s : State) : Prop :=
  forall i j wi wj,
    writers s !! i = Some wi -> writers s !! j = Some wj ->
    active wi -> active wj -> i = j.

(** The writer the engine holds is one it created and has not released;
    every other writer it created has been released once. *)
Definition recorder_ok (s : State) : Prop :=
  (forall i, current_clip_writer s = Some i -> (i < length (writers s))%nat) /\
  (forall i w, writers s !! i = Some w ->
     vw_releases w = if decide (current_clip_writer s = Some i) then 0%nat else 1%nat).

Definition counter_ok (s : State) : Prop :=
  0 <= clip_frames_remaining s /\
  (is_Some (current_clip_writer s) -> 1 <= clip_frames_remaining s).

(** [z] is [x] rounded to a nearest integer, whatever the rule for ties. *)
Definition nearest_integer (x : Q) (z : Z) : Prop := (Qabs (x - inject_Z z) <= 1 # 2)%Q.

Definition session_ok (s : State) : Prop := recorder_ok s /\ counter_ok s.

(** Every writer of [ws] is still there in [ws'], with the frames it had
    followed by frames whose read ordinal is at least [p]. *)
Definition grows (p : nat) (ws ws' : list VideoWriter) : Prop :=
  forall i wr, ws !! i = Some wr ->
    exists wr' extra, ws' !! i = Some wr'
      /\ vw_frames wr' = vw_frames wr ++ extra
      /\ Forall (fun fo : FrameObj => (p <= fst fo)%nat) extra.

(** The state a pass, or the faces of a frame, end in. *)
Definition flow_state (r : Flow) : State :=
  match r with Next s _ | Done s _ | Raised s => s end.

Definition step_state (r : Step) : State :=
  match r with Ok s _ | Exn s => s end.

(** Records appended so far in the run, against the local counter. *)
Definition counted (base : Z) (s : State) (l : Locals) : Prop :=
  Z.of_nat (length (report_data s)) = base + match_count l.

(** ** Engine states the public methods can produce *)

Definition outcome_state (o : Outcome) : State :=
  match o with Returned _ s | Aborted s => s end.

(** From [__init__], any sequence of [load_reference_images], control
    calls and finished [process_video] calls. *)
Inductive usable : State -> Prop :=
| usable_init : usable init
| usable_load paths s : usable s -> usable (fst (load_reference_images paths s))
| usable_signal sg s : usable s -> usable (signal s sg)
| usable_run fuel video sched s o :
    usable s -> process_video fuel video sched s = Some o -> usable (outcome_state o).

(** ** Reference images that load *)

(** The encoding a path contributes: the first face of an image that
    exists and loads. *)
Definition first_encoding (path : string) : option Encoding :=
  if path_exists path then
    match load_encodings path with
    | Some (e :: _) => Some e
    | _ => None
    end
  else None.

(** The error logged for a path that contributes nothing. *)
Definition load_error (path : string) : LogMsg :=
  if path_exists path then
    match load_encodings path with
    | Some _ => ErrNoFace path
    | None => ErrLoading path
    end
  else ErrNotFound path.

(** ** Runs in which nothing raises and nobody pauses *)

(** Every call the loop makes on a frame of the video answers. *)
Definition analysable (v : Video) : Prop :=
  frame_skip cfg <> 0 /\ Qeq_bool (fps v) 0 = false /\
  forall frame, frame ∈ frames v ->
    exists faces, face_analysis frame = Some faces /\
      forall drawn face, face ∈ faces -> is_Some (gray_std frame drawn (fst face)).

Definition unpaused (sched : nat -> Arrivals) : Prop :=
  forall k, (SigPause ∉ before_loop_test (sched k)) /\ (SigPause ∉ before_pause_test (sched k)).

(** A path is invalid when it contributes no encoding. *)
Definition invalid (path : string) : bool :=
  match first_encoding path with
  | Some _ => false
  | None => true
  end.

(** ** The matcher's verdict, reference by reference *)

Definition qualifies (face_encoding ref_encoding : Encoding) : Prop :=
  compare_faces ref_encoding face_encoding = true /\
  (face_distance ref_encoding face_encoding <= confidence_threshold cfg)%Q.

(** ** What a run adds to the history *)

(** A record made at frame index [c] for a face that the references in
    [refs] confirm. *)
Definition recorded_at (v : Video) (refs : list Encoding) (c : Z) (d : DetectionInfo) : Prop :=
  di_frame d = c /\ di_seconds d = (inject_Z c / fps v)%Q /\
  exists face_encoding,
    fst (match_face refs face_encoding) = true /\
    di_confidence d = snd (match_face refs face_encoding).

(** ** The frames of a video, as the objects [cap.read()] returns *)

(** The [n] frame objects from read ordinal [a] on. *)
Definition segment (v : Video) (a n : nat) : list FrameObj :=
  zip (seq a n) (take n (drop a (frames v))).

(** Every writer is either the live one, holding the frames read since
    the frame [o] that opened it, with the rest of its [N] frames still to
    come, or a released one holding the [N] frames that followed [o];
    [o] is the frame index of a record of the history.  [p] is the read
    position of the capture. *)
Definition clips_filled (v : Video) (N : Z) (p : nat) (s : State) : Prop :=
  (p <= length (frames v))%nat /\
  (forall i, current_clip_writer s = Some i -> (i < length (writers s))%nat) /\
  forall i wr, writers s !! i = Some wr ->
    exists o, (exists d, d ∈ report_data s /\ di_frame d = Z.of_nat o) /\
      if decide (current_clip_writer s = Some i)
      then vw_releases wr = 0%nat /\ (S o <= p)%nat
           /\ vw_frames wr = segment v (S o) (p - S o)
           /\ Z.of_nat (p - S o) + clip_frames_remaining s = N
           /\ 1 <= clip_frames_remaining s
      else vw_releases wr = 1%nat /\ (S o + Z.to_nat N <= p)%nat
           /\ vw_frames wr = segment v (S o) (Z.to_nat N).

(** ** The paths a call to load_reference_images attempts *)

Definition attempted (image_paths : list string) : list string :=
  match max_reference_images cfg with
  | Some max_images =>
      if Z.of_nat (length image_paths) >? max_images
      then py_slice_to max_images image_paths
      else image_paths
  | None => image_paths
  end.

End Engine.

(** * The configuration object (src/config.py)

    A configuration is a dictionary in Python's sense: keys are unique,
    keep their insertion order, and an assignment to an existing key keeps
    its place.  Values are what [yaml.safe_load] yields from a document
    whose mappings have strings for keys, as the defaults have; finite
    numbers only.  Log messages are not modelled. *)
Module Config.

#[local] Unset Elimination Schemes.
Inductive Value :=
| VNone
| VBool (b : bool)
| VInt (n : Z)
| VFloat (x : Q)
| VStr (s : string)
| VList (items : list Value)
| VDict (entries : list (string * Value)).
#[local] Set Elimination Schemes.

(** [d.get(k)], [None] when [k not in d]. *)
Fixpoint dict_get (k : string) (d : list (string * Value)) : option Value :=
  match d with
  | [] => None
  | (k', v) :: d' => if String.eqb k k' then Some v else dict_get k d'
  end.

(** [d[k] = v]. *)
Fixpoint dict_set (k : string) (v : Value) (d : list (string * Value))
  : list (string * Value) :=
  match d with
  | [] => [(k, v)]
  | (k', v') :: d' =>
      if String.eqb k k' then (k', v) :: d' else (k', v') :: dict_set k v d'
  end.

(** Python's truth value of an object. *)
Definition truthy (v : Value) : bool :=
  match v with
  | VNone => false
  | VBool b => b
  | VInt n => negb (n =? 0)
  | VFloat x => negb (Qeq_bool x 0)
  | VStr s => negb (String.eqb s "")
  | VList items => match items with [] => false | _ => true end
  | VDict entries => match entries with [] => false | _ => true end
  end.

(** [s.split(sep)] for a separator of one character. *)
Fixpoint split (sep : ascii) (s : string) : list string :=
  match s with
  | EmptyString => [EmptyString]
  | String c s' =>
      if Ascii.eqb c sep then EmptyString :: split sep s'
      else match split sep s' with
           | part :: parts => String c part :: parts
           | [] => [String c EmptyString]
           end
  end.

(** [needle in hay] on strings. *)
Fixpoint contains (needle hay : string) : bool :=
  String.prefix needle hay ||
  match hay with
  | EmptyString => false
  | String _ hay' => contains needle hay'
  end.

Definition _get_default_config : list (string * Value) :=
  [("frame_skip", VInt 5);
   ("detection_threshold", VFloat (1 # 2));
   ("mask_std_threshold", VInt 20);
   ("clip_duration_seconds", VInt 5);
   ("max_reference_images", VInt 4);
   ("paths", VDict [("output_folder", VStr "detected_faces");
                    ("reports", VStr "reports");
                    ("temp", VStr "temp");
                    ("reference_image", VStr "reference_image");
                    ("cctv_footage", VStr "cctv_footage")]);
   ("ui_settings", VDict [("theme", VStr "dark");
                          ("accent_color", VStr "#00ff88");
                          ("font", VStr "Arial")])]%string.

(** The body of the loop of [_deep_merge] for one item of [update], given
    the merge of dictionaries below it. *)
Definition merge_entry (merge : list (string * Value) -> list (string * Value))
    (base : list (string * Value)) (key : string) (value : Value)
  : list (string * Value) :=
  match value, dict_get key base with
  | VDict _, Some (VDict b) => dict_set key (VDict (merge b)) base
  | _, _ => dict_set key value base
  end.

(** [_deep_merge(base, update)], by recursion on the value [update] is. *)
Fixpoint deep_merge_value (update : Value) (base : list (string * Value))
  {struct update} : list (string * Value) :=
  match update with
  | VDict entries =>
      (fix items (entries : list (string * Value)) (base : list (string * Value))
         {struct entries} : list (string * Value) :=
         match entries with
         | [] => base
         | (key, value) :: rest =>
             items rest (merge_entry (deep_merge_value value) base key value)
         end) entries base
  | _ => base
  end.

Definition _deep_merge (base update : list (string * Value)) : list (string * Value) :=
  deep_merge_value (VDict update) base.

(** What [load_config] finds: no file, a file that cannot be opened or
    parsed, or the parsed document. *)
Inductive ConfigFile :=
| Absent
| Unreadable
| Parsed (document : Value).

(** [load_config]: [yaml.safe_load(f) or {}] is merged; a document that is
    not a mapping makes [update.items()] raise, which is caught. *)
Definition load_config (data : list (string * Value)) (file : ConfigFile)
  : list (string * Value) :=
  match file with
  | Absent => data
  | Unreadable => data
  | Parsed document =>
      if truthy document then
        match document with
        | VDict external_config => _deep_merge data external_config
        | _ => data
        end
      else _deep_merge data []
  end.

(** The loop of [get] over the parts of the key. *)
Fixpoint walk (keys : list string) (value : Value) : option Value :=
  match keys with
  | [] => Some value
  | k :: keys' =>
      match value with
      | VDict d =>
          match dict_get k d with
          | Some v => walk keys' v
          | None => None
          end
      | _ => None
      end
  end.

Definition get (data : list (string * Value)) (key : string) (default : Value) : Value :=
  match walk (split "." key) (VDict data) with
  | Some value => value
  | None => default
  end.

Section Provisioning.

(** [os.path.abspath], and whether [os.makedirs(path, exist_ok=True)]
    succeeds (it raises otherwise). *)
Variable abspath : string -> string.
Variable makedirs : string -> bool.

(** What a call leaves behind: the directories made, in order, and whether
    it raised. *)
Record Provisioned := { made : list string; raised : bool }.

Definition restricted (key : string) : bool :=
  (String.eqb key "cctv_footage" || String.eqb key "reference_image"
   || String.eqb key "reports")%string.

(** [os.makedirs] inside its [try]: a value that is not a string raises
    there too, and is caught. *)
Definition try_makedirs (path : Value) (acc : list string) : list string :=
  match path with
  | VStr p => if makedirs p then acc ++ [p] else acc
  | _ => acc
  end.

(** The loop of [_validate_paths]; [os.path.abspath] of a value that is not
    a string raises outside any [try]. *)
Fixpoint provision (entries : list (string * Value)) (acc : list string) : Provisioned :=
  match entries with
  | [] => {| made := acc; raised := false |}
  | (key, path) :: rest =>
      if restricted key then
        match path with
        | VStr p =>
            if contains "tasks" (abspath p)
            then provision rest (try_makedirs path acc)
            else provision rest acc
        | _ => {| made := acc; raised := true |}
        end
      else provision rest (try_makedirs path acc)
  end.

Definition _validate_paths (data : list (string * Value)) : Provisioned :=
  match dict_get "paths" data with
  | None => provision [] []
  | Some (VDict paths) => provision paths []
  | Some _ => {| made := []; raised := true |}
  end.

(** One [if arg: self.data["paths"][name] = arg] of [update_paths];
    [None] when the assignment raises. *)
Definition assign_path (name : string) (arg : option string) (data : list (string * Value))
  : option (list (string * Value)) :=
  match arg with
  | Some folder =>
      if String.eqb folder "" then Some data
      else match dict_get "paths" data with
           | Some (VDict paths) =>
               Some (dict_set "paths" (VDict (dict_set name (VStr folder) paths)) data)
           | _ => None
           end
  | None => Some data
  end.

(** [update_paths]: the data it leaves, and what the provisioning did;
    [raised] also when an assignment raised. *)
Definition update_paths (output_folder reports temp reference_image cctv_footage : option string)
    (data : list (string * Value)) : list (string * Value) * Provisioned :=
  match assign_path "output_folder" output_folder data with
  | None => (data, {| made := []; raised := true |})
  | Some d1 =>
  match assign_path "reports" reports d1 with
  | None => (d1, {| made := []; raised := true |})
  | Some d2 =>
  match assign_path "temp" temp d2 with
  | None => (d2, {| made := []; raised := true |})
  | Some d3 =>
  match assign_path "reference_image" reference_image d3 with
  | None => (d3, {| made := []; raised := true |})
  | Some d4 =>
  match assign_path "cctv_footage" cctv_footage d4 with
  | None => (d4, {| made := []; raised := true |})
  | Some d5 => (d5, _validate_paths d5)
  end end end end end.

(** [Config(config_file)]. *)
Definition __init__ (file : ConfigFile) : list (string * Value) * Provisioned :=
  let data := load_config _get_default_config file in
  (data, _validate_paths data).

End Provisioning.

(** ** Words for stating what the dictionaries satisfy *)

(** [sep.join(parts)]. *)
Fixpoint join (sep : ascii) (parts : list string) : string :=
  match parts with
  | [] => EmptyString
  | [part] => part
  | part :: parts' => (part ++ String sep (join sep parts'))%string
  end.

Fixpoint has_char (c : ascii) (s : string) : bool :=
  match s with
  | EmptyString => false
  | String c' s' => Ascii.eqb c' c || has_char c s'
  end.

Definition keys (d : list (string * Value)) : list string := map fst d.

(** Keys are unique in a dictionary and in the dictionaries below it. *)
Fixpoint well_formed (v : Value) : Prop :=
  match v with
  | VDict entries =>
      NoDup (map fst entries) /\
      (fix all (entries : list (string * Value)) : Prop :=
         match entries with
         | [] => True
         | (_, v') :: rest => well_formed v' /\ all rest
         end) entries
  | _ => True
  end.

Definition is_dict (v : Value) : bool :=
  match v with VDict _ => true | _ => false end.

(** The folder an argument of [update_paths] gives: a string that is not
    empty. *)
Definition given (arg : option string) : option string :=
  match arg with
  | Some folder => if String.eqb folder "" then None else Some folder
  | None => None
  end.

(** The paths after one argument of [update_paths] is taken in. *)
Definition assigned (name : string) (arg : option string) (paths : list (string * Value))
  : list (string * Value) :=
  match given arg with
  | Some folder => dict_set name (VStr folder) paths
  | None => paths
  end.

(** The mapping [update] says something about the place [path] leads to:
    it holds a value there, or a value that is no dictionary on the way. *)
Fixpoint touches (path : list string) (update : list (string * Value)) : Prop :=
  match path with
  | [] => True
  | k :: path' =>
      match dict_get k update with
      | None => False
      | Some (VDict update') => touches path' update'
      | Some _ => True
      end
  end.

End Config.

(** * The application window (src/main.py)

    What the window keeps for its navigation and for a detection, and the
    calls it makes to the engine.  Widgets are not modelled; the calls on
    them are taken to succeed. *)
Module App.

(** A screen as [current_screen_info] names it: the method that draws it
    and its arguments. *)
Inductive Screen :=
| setup_main_ui
| _open_results
| _open_tasks_screen
| _display_folder_contents (folder_key : string).

(** [back_button] is whether the state of the button is "normal". *)
Record Window := {
  reference_image_paths : list string;
  task_folder : option string;
  screen_stack : list Screen;
  current_screen_info : Screen;
  back_button : bool
}.

Definition set_reference_image_paths (x : list string) (w : Window) : Window :=
  {| reference_image_paths := x; task_folder := task_folder w;
     screen_stack := screen_stack w; current_screen_info := current_screen_info w;
     back_button := back_button w |}.
Definition set_task_folder (x : option string) (w : Window) : Window :=
  {| reference_image_paths := reference_image_paths w; task_folder := x;
     screen_stack := screen_stack w; current_screen_info := current_screen_info w;
     back_button := back_button w |}.
Definition set_screen_stack (x : list Screen) (w : Window) : Window :=
  {| reference_image_paths := reference_image_paths w; task_folder := task_folder w;
     screen_stack := x; current_screen_info := current_screen_info w;
     back_button := back_button w |}.
Definition set_current_screen_info (x : Screen) (w : Window) : Window :=
  {| reference_image_paths := reference_image_paths w; task_folder := task_folder w;
     screen_stack := screen_stack w; current_screen_info := x;
     back_button := back_button w |}.
Definition set_back_button (x : bool) (w : Window) : Window :=
  {| reference_image_paths := reference_image_paths w; task_folder := task_folder w;
     screen_stack := screen_stack w; current_screen_info := current_screen_info w;
     back_button := x |}.

Definition update_back_button_visibility (w : Window) : Window :=
  set_back_button (match screen_stack w with [] => false | _ :: _ => true end) w.

(** Calling the method of a screen: the main screen records itself as the
    current one; the others draw only. *)
Definition draw (screen : Screen) (w : Window) : Window :=
  match screen with
  | setup_main_ui => update_back_button_visibility (set_current_screen_info setup_main_ui w)
  | _ => w
  end.

(** [FaceRecognitionApp()]. *)
Definition __init__ : Window :=
  draw setup_main_ui
    (update_back_button_visibility
       {| reference_image_paths := []; task_folder := None; screen_stack := [];
          current_screen_info := setup_main_ui; back_button := false |}).

Definition navigate_to (screen : Screen) (w : Window) : Window :=
  let w := set_screen_stack (screen_stack w ++ [current_screen_info w]) w in
  let w := set_current_screen_info screen w in
  update_back_button_visibility (draw screen w).

(** [stack.pop()] of a stack that is not empty. *)
Fixpoint pop (stack : list Screen) : option (list Screen * Screen) :=
  match stack with
  | [] => None
  | screen :: stack' =>
      match pop stack' with
      | None => Some ([], screen)
      | Some (rest, top) => Some (screen :: rest, top)
      end
  end.

Definition go_back (w : Window) : Window :=
  match pop (screen_stack w) with
  | Some (rest, screen) =>
      let w := set_current_screen_info screen (set_screen_stack rest w) in
      update_back_button_visibility (draw screen w)
  | None => w
  end.

Definition refresh_ui (w : Window) : Window :=
  draw setup_main_ui
    (set_current_screen_info setup_main_ui
       (set_screen_stack [] (set_task_folder None (set_reference_image_paths [] w)))).

Definition open_results : Window -> Window := navigate_to _open_results.
Definition open_tasks_screen : Window -> Window := navigate_to _open_tasks_screen.
Definition open_task_contents (task_path : string) (w : Window) : Window :=
  navigate_to _open_results (set_task_folder (Some task_path) w).
Definition delete_task (w : Window) : Window := draw _open_tasks_screen w.
Definition display_folder_contents (folder_key : string) : Window -> Window :=
  navigate_to (_display_folder_contents folder_key).
Definition delete_file (folder_key : string) : Window -> Window :=
  display_folder_contents folder_key.

(** [add_reference_image], with the path the file dialog gives: empty when
    the dialog is cancelled. *)
Definition add_reference_image (path : string) (w : Window) : Window :=
  if (4 <=? length (reference_image_paths w))%nat then w
  else if String.eqb path "" then w
  else set_reference_image_paths (reference_image_paths w ++ [path]) w.

(** What the buttons of the window call. *)
Inductive Action :=
| Refresh
| AddReferenceImage (path : string)
| OpenResults
| OpenTasks
| OpenTaskContents (task_path : string)
| DeleteTask
| DisplayFolder (folder_key : string)
| DeleteFile (folder_key : string)
| Back.

Definition press (w : Window) (a : Action) : Window :=
  match a with
  | Refresh => refresh_ui w
  | AddReferenceImage path => add_reference_image path w
  | OpenResults => open_results w
  | OpenTasks => open_tasks_screen w
  | OpenTaskContents task_path => open_task_contents task_path w
  | DeleteTask => delete_task w
  | DisplayFolder folder_key => display_folder_contents folder_key w
  | DeleteFile folder_key => delete_file folder_key w
  | Back => go_back w
  end.

(** The Back button is enabled exactly when there is a screen to go back
    to. *)
Definition button_follows_stack (w : Window) : Prop :=
  back_button w = match screen_stack w with [] => false | _ :: _ => true end.

(** The main screen is at the bottom of the stack and nowhere else, and it
    is the current screen exactly when the stack is empty. *)
Definition main_at_bottom (w : Window) : Prop :=
  match screen_stack w with
  | [] => current_screen_info w = setup_main_ui
  | bottom :: rest =>
      bottom = setup_main_ui /\ Forall (fun screen => screen <> setup_main_ui) rest
      /\ current_screen_info w <> setup_main_ui
  end.

Section Detection.

Context {Frame Encoding : Type}.

Variable path_exists : string -> bool.
Variable load_encodings : string -> option (list Encoding).
Variable face_analysis : Frame -> option (list (Location * Encoding)).
Variable compare_faces : Encoding -> Encoding -> bool.
Variable face_distance : Encoding -> Encoding -> Q.
Variable gray_std : Frame -> list Annotation -> Location -> option Q.
Variable frame_shape : Frame -> Z * Z.
Variable report_writable : @State Frame Encoding -> bool.
Variable cfg : Settings.

(** How a press of Start ends: an input is missing and no engine is made;
    the new engine loads no reference; the run returns its count; or the
    run raises, which [run_detection] catches. *)
Inductive Session :=
| NotStarted
| NotLoaded (s : @State Frame Encoding)
| Complete (count : Z) (s : @State Frame Encoding)
| Error (s : @State Frame Encoding).

(** [start_detection] and the [run_detection] it starts, as far as the
    engine goes: [video_exists] is [os.path.exists(video_path)] and [video]
    what the capture opens.  [None] when the run does not end. *)
Definition start_detection (video_exists : bool) (video : option (@Video Frame))
    (fuel : nat) (sched : nat -> Arrivals) (w : Window) : option Session :=
  if negb video_exists then Some NotStarted
  else match reference_image_paths w with
  | [] => Some NotStarted
  | _ :: _ =>
  match task_folder w with
  | None => Some NotStarted
  | Some folder =>
  if String.eqb folder "" then Some NotStarted
  else
    let detector := init in
    let '(detector, loaded) :=
      load_reference_images path_exists load_encodings cfg (reference_image_paths w)
        detector in
    if negb loaded then Some (NotLoaded detector)
    else match process_video face_analysis compare_faces face_distance gray_std frame_shape
                 report_writable cfg fuel video sched detector with
         | Some (Returned count detector) => Some (Complete count detector)
         | Some (Aborted detector) => Some (Error detector)
         | None => None
         end
  end end.

End Detection.

End App.

(** * A concrete world *)

(** Frames, encodings and services simple enough to run the engine on: a
    frame is what the face service answers on it, and an encoding is the
    native verdict and the distance it gets against any reference. *)
Module Scenario.

Definition Frame : Type := option (list (Location * (bool * Q))).
Definition Encoding : Type := bool * Q.

Definition path_exists (path : string) : bool := negb (String.eqb path "missing.jpg").

Definition load_encodings (path : string) : option (list Encoding) :=
  if String.eqb path "broken.jpg" then None
  else if String.eqb path "noface.jpg" then Some []
  else Some [(true, 0%Q)].

Definition face_analysis (frame : Frame) : option (list (Location * Encoding)) := frame.
Definition compare_faces (ref_encoding face_encoding : Encoding) : bool := fst face_encoding.
Definition face_distance (ref_encoding face_encoding : Encoding) : Q := snd face_encoding.
Definition gray_std (frame : Frame) (drawn : list Annotation) (loc : Location) : option Q :=
  Some 30%Q.
Definition frame_shape (frame : Frame) : Z * Z := (480, 640).

(** The reports folder is there. *)
Definition report_writable (s : @State Frame Encoding) : bool := true.

(** The default configuration, but for the stride and the clip duration. *)
Definition settings (skip : Z) (duration : Q) : Settings :=
  {| frame_skip := skip; confidence_threshold := 1 # 2; mask_std_threshold := 20;
     clip_duration := duration; max_reference_images := Some 4;
     progress_callback := true; video_frame_callback := true |}.

Definition box : Location := {| top := 10; right := 50; bottom := 50; left := 10 |}.

(** Two faces the service calls a native match, at distance 0.4 and 0.6. *)
Definition face_04 : Encoding := (true, 2 # 5).
Definition face_06 : Encoding := (true, 3 # 5).

(** A frame with the first face, one with the second, one with no face,
    and one on which the face service raises. *)
Definition hit : Frame := Some [(box, face_04)].
Definition far : Frame := Some [(box, face_06)].
Definition blank : Frame := Some [].
Definition broken : Frame := None.

(** A new engine after loading one reference image. *)
Definition loaded : @State Frame Encoding :=
  Eval vm_compute in
    fst (load_reference_images path_exists load_encodings (settings 5 5) ["ref.jpg"%string] init).

Definition nobody : nat -> Arrivals := fun _ => quiet.

Definition run (cfg : Settings) :=
  process_video face_analysis compare_faces face_distance gray_std frame_shape
    report_writable cfg.
Definition pass (cfg : Settings) :=
  iteration face_analysis compare_faces face_distance gray_std frame_shape cfg.
Definition run_passes (cfg : Settings) :=
  passes face_analysis compare_faces face_distance gray_std frame_shape cfg.
Definition run_loop (cfg : Settings) :=
  loop face_analysis compare_faces face_distance gray_std frame_shape cfg.
Definition load (cfg : Settings) :=
  @load_reference_images Frame Encoding path_exists load_encodings cfg.

Definition state_of (o : option (@Outcome Frame Encoding)) : State :=
  match o with
  | Some (Returned _ s) | Some (Aborted s) => s
  | None => loaded
  end.

(** One frame with a match, at 30 fps. *)
Definition video_one : Video := {| total_frames := 1; fps := 30; frames := [hit] |}.

Definition after_first_run : State :=
  Eval vm_compute in state_of (run (settings 5 5) 3 (Some video_one) nobody loaded).
Definition after_second_run : State :=
  Eval vm_compute in state_of (run (settings 5 5) 3 (Some video_one) nobody after_first_run).

(** The face service raises on the first frame. *)
Definition video_bad : Video := {| total_frames := 3; fps := 30; frames := [broken; hit; hit] |}.

(** Fifteen frames without a face. *)
Definition video_15 : Video := {| total_frames := 15; fps := 30; frames := replicate 15 blank |}.

Definition after_15 : State :=
  Eval vm_compute in state_of (run (settings 5 5) 20 (Some video_15) nobody loaded).

(** A frame rate whose product with the 5 s duration is 118.75. *)
Definition video_2375 : Video := {| total_frames := 1; fps := 95 # 4; frames := [hit] |}.

(** A match on the first frame of three: at half a frame per second, and
    at 30 fps. *)
Definition video_slow : Video :=
  {| total_frames := 3; fps := 1 # 2; frames := [hit; blank; blank] |}.
Definition video_clip : Video :=
  {| total_frames := 3; fps := 30; frames := [hit; blank; blank] |}.

Definition after (o : option (@State Frame Encoding * Locals)) : State * Locals :=
  match o with
  | Some sl => sl
  | None => (loaded, entry)
  end.

Definition next_of (r : @Flow Frame Encoding) : State * Locals :=
  match r with
  | Next s l => (s, l)
  | _ => (loaded, entry)
  end.

Definition step_of (r : @Step Frame Encoding) : State * Locals :=
  match r with
  | Ok s l => (s, l)
  | Exn s => (s, entry)
  end.

Definition start_2375 : State * Locals :=
  Eval vm_compute in
    step_of (record_match gray_std frame_shape (settings 5 5) video_2375 (0%nat, hit) box
               (3 # 5) loaded entry).
Definition start_30 : State * Locals :=
  Eval vm_compute in
    step_of (record_match gray_std frame_shape (settings 5 2) video_one (0%nat, hit) box
               (3 # 5) loaded entry).

Definition slow_2 : State * Locals :=
  Eval vm_compute in after (run_passes (settings 1 1) video_slow nobody 0 2 loaded entry).
Definition clip_1 : State * Locals :=
  Eval vm_compute in next_of (pass (settings 1 5) video_clip quiet loaded entry).
Definition clip_3 : State * Locals :=
  Eval vm_compute in
    after (run_passes (settings 1 5) video_clip nobody 1 2 (fst clip_1) (snd clip_1)).
Definition first_pass_15 : State * Locals :=
  Eval vm_compute in next_of (pass (settings 5 5) video_15 quiet loaded entry).

(** One frame with a match at half a frame per second, and the engine
    after a run on it with a clip duration of 1 s; one frame without a face
    at 30 fps, and the first pass of the next run of that engine on it. *)
Definition video_slow_one : Video := {| total_frames := 1; fps := 1 # 2; frames := [hit] |}.
Definition after_slow_run : State :=
  Eval vm_compute in state_of (run (settings 1 1) 3 (Some video_slow_one) nobody loaded).
Definition video_blank_30 : Video := {| total_frames := 1; fps := 30; frames := [blank] |}.
Definition carried : State * Locals :=
  Eval vm_compute in
    after (run_passes (settings 1 1) video_blank_30 nobody 0 1 after_slow_run entry).

(** At 30 fps: a match and 22 frames without a face; the engine with a
    clip duration of 0.7 s after 22 passes. *)
Definition video_07 : Video :=
  {| total_frames := 23; fps := 30; frames := hit :: replicate 22 blank |}.
Definition after_22 : State * Locals :=
  Eval vm_compute in
    after (run_passes (settings 1 (7 # 10)) video_07 nobody 0 22 loaded entry).

Definition six_paths : list string :=
  ["a.jpg"; "missing.jpg"; "noface.jpg"; "b.jpg"; "c.jpg"; "d.jpg"]%string.

(** [pause()] before the first pass, [stop()] during the fourth. *)
Definition pause_then_stop (k : nat) : Arrivals :=
  match k with
  | 0%nat => {| before_loop_test := [SigPause]; before_pause_test := [] |}
  | 3%nat => {| before_loop_test := []; before_pause_test := [SigStop] |}
  | _ => quiet
  end.

(** A configuration file that sets the stride, gives [null] for the
    threshold and moves the folder of the clips. *)
Definition document : list (string * Config.Value) :=
  [("frame_skip", Config.VInt 2);
   ("detection_threshold", Config.VNone);
   ("paths", Config.VDict [("temp", Config.VStr "clips")])]%string.

(** A configuration without the key [paths]. *)
Definition no_paths : list (string * Config.Value) := [("frame_skip"%string, Config.VInt 5)].

(** The program runs in [/srv/app]; every folder can be made. *)
Definition abspath (path : string) : string := ("/srv/app/" ++ path)%string.
Definition makedirs (path : string) : bool := true.

(** What the file dialog gives on six presses of the button: the second is
    cancelled. *)
Definition dialogs : list string :=
  ["a.jpg"; ""; "b.jpg"; "c.jpg"; "d.jpg"; "e.jpg"]%string.

(** The window on the screen of the reports, reached through the results. *)
Definition on_folder : App.Window :=
  App.display_folder_contents "reports" (App.open_results App.__init__).

(** The window with a task and one reference image. *)
Definition ready : App.Window :=
  App.set_task_folder (Some "tasks/one"%string)
    (App.add_reference_image "ref.jpg" App.__init__).

End Scenario.

(** * Properties *)

Section Properties.

Context {Frame Encoding : Type}.
Variable path_exists : string -> bool.
Variable load_encodings : string -> option (list Encoding).
Variable face_analysis : Frame -> option (list (Location * Encoding)).
Variable compare_faces : Encoding -> Encoding -> bool.
Variable face_distance : Encoding -> Encoding -> Q.
Variable gray_std : Frame -> list Annotation -> Location -> option Q.
Variable frame_shape : Frame -> Z * Z.
Variable report_writable : @State Frame Encoding -> bool.
Variable cfg : Settings.

Local Abbreviation State := (@State Frame Encoding).
Local Abbreviation Video := (@Video Frame).
Local Abbreviation FrameObj := (@FrameObj Frame).
Local Abbreviation VideoWriter := (@VideoWriter Frame).
Local Abbreviation record_match := (record_match gray_std frame_shape cfg).
Local Abbreviation process_face := (process_face compare_faces face_distance gray_std frame_shape cfg).
Local Abbreviation process_faces := (process_faces compare_faces face_distance gray_std frame_shape cfg).
Local Abbreviation on_frame := (on_frame face_analysis compare_faces face_distance gray_std frame_shape cfg).
Local Abbreviation iteration := (iteration face_analysis compare_faces face_distance gray_std frame_shape cfg).
Local Abbreviation loop := (loop face_analysis compare_faces face_distance gray_std frame_shape cfg).
Local Abbreviation process_video :=
  (process_video face_analysis compare_faces face_distance gray_std frame_shape
     report_writable cfg).
Local Abbreviation generate_report := (generate_report report_writable).
Local Abbreviation match_face := (match_face compare_faces face_distance cfg).
Local Abbreviation passes :=
  (passes face_analysis compare_faces face_distance gray_std frame_shape cfg).
Local Abbreviation first_encoding := (first_encoding path_exists load_encodings).
Local Abbreviation invalid := (invalid path_exists load_encodings).
Local Abbreviation load_error := (load_error path_exists load_encodings).
Local Abbreviation load_one := (load_one path_exists load_encodings).
Local Abbreviation load_reference_images :=
  (load_reference_images path_exists load_encodings cfg).
Local Abbreviation usable :=
  (usable path_exists load_encodings face_analysis compare_faces face_distance gray_std
     frame_shape report_writable cfg).
Local Abbreviation analysable := (analysable face_analysis gray_std cfg).
Local Abbreviation recorded_at := (recorded_at compare_faces face_distance cfg).
Local Abbreviation attempted := (attempted cfg).
Local Abbreviation qualifies := (qualifies compare_faces face_distance cfg).
Local Abbreviation _start_video_clip := (_start_video_clip cfg).
Local Abbreviation _detect_mask := (_detect_mask gray_std cfg).

(** Unfolding the definition at the head of a term. *)
Ltac head_of t := lazymatch t with ?f _ => head_of f | _ => t end.
Ltac unfold_head t := let h := head_of t in unfold h.
Ltac unfold_head_in t H := let h := head_of t in unfold h in H.

(** Projections of the state through the field updates, and nothing else. *)
Ltac fields :=
  cbn [reference_encodings matches report_data detection_path pause_event stop_event
       current_clip_writer clip_frames_remaining writers reports callbacks log
       set_reference_encodings set_matches set_report_data set_detection_path
       set_pause_event set_stop_event set_current_clip_writer set_clip_frames_remaining
       set_writers set_reports set_callbacks set_log logging
       cap_pos current_frame match_count annotations advance after_read fst snd] in *.

(** ** States met at the loop head *)

Lemma loop_S fuel v sched k (s : State) l :
  loop (S fuel) v sched k s l =
  match iteration v (sched k) s l with
  | Next s' l' => loop fuel v sched (S k) s' l'
  | r => Some r
  end.
Proof. reflexivity. Qed.

Lemma passes_invariant (P : State -> Locals -> Prop) v sched :
  (forall a s l s' l', P s l -> iteration v a s l = Next s' l' -> P s' l') ->
  forall n k s l s' l', P s l -> passes v sched k n s l = Some (s', l') -> P s' l'.
Proof.
  intros Hstep n. induction n as [|n IH]; intros k s l s' l' HP Hp; simpl in Hp.
  - congruence.
  - destruct (iteration v (sched k) s l) eqn:Hit; try discriminate.
    eapply IH; [eapply Hstep; eassumption | eassumption].
Qed.

Lemma loop_after_passes v sched n : forall k s l s' l' fuel,
  passes v sched k n s l = Some (s', l') ->
  loop (n + fuel) v sched k s l = loop fuel v sched (k + n) s' l'.
Proof.
  induction n as [|n IH]; intros k s l s' l' fuel Hp; simpl in Hp.
  - injection Hp as -> ->. simpl. by rewrite Nat.add_0_r.
  - simpl. destruct (iteration v (sched k) s l) eqn:Hit; try discriminate.
    rewrite (IH _ _ _ _ _ fuel Hp). f_equal. lia.
Qed.

(** A loop that ends did so after some passes back to the head and a last
    pass that left it. *)
Lemma loop_ends fuel v sched : forall k s l r,
  loop fuel v sched k s l = Some r ->
  exists n s1 l1, passes v sched k n s l = Some (s1, l1)
    /\ iteration v (sched (k + n)%nat) s1 l1 = r
    /\ (forall s2 l2, r <> Next s2 l2).
Proof.
  induction fuel as [|fuel IH]; intros k s l r Hl; simpl in Hl; [discriminate|].
  destruct (iteration v (sched k) s l) eqn:Hit.
  - destruct (IH _ _ _ _ Hl) as (n & s1 & l1 & Hp & Hlast & Hr).
    exists (S n), s1, l1. simpl. rewrite Hit. split; [done|].
    split; [|done]. by replace (k + S n)%nat with (S k + n)%nat by lia.
  - injection Hl as <-. exists 0%nat, s, l. rewrite Nat.add_0_r. by repeat split.
  - injection Hl as <-. exists 0%nat, s, l. rewrite Nat.add_0_r. by repeat split.
Qed.

(** ** What each phase leaves alone *)

Lemma deliver_flags sgs (s : State) :
  exists p q, deliver sgs s = set_stop_event q (set_pause_event p s)
    /\ (stop_event s = true -> q = true).
Proof.
  revert s. induction sgs as [|sg sgs IH]; intros s; simpl.
  - exists (pause_event s), (stop_event s). by destruct s.
  - destruct (IH (signal s sg)) as (p & q & -> & Hq).
    exists p, q. split; [by destruct sg | intros Hs; apply Hq; by destruct sg].
Qed.

Lemma clip_write_frame fo (s : State) :
  exists ws c r, clip_write fo s =
    set_current_clip_writer c (set_clip_frames_remaining r (set_writers ws s)).
Proof.
  unfold clip_write. destruct (current_clip_writer s) as [w|] eqn:Hc.
  - cbv zeta. destruct (_ <=? 0).
    + by exists (alter vw_release w (alter (vw_write fo) w (writers s))), None,
        (clip_frames_remaining s - 1).
    + by exists (alter (vw_write fo) w (writers s)), (current_clip_writer s),
        (clip_frames_remaining s - 1).
  - exists (writers s), None, (clip_frames_remaining s). destruct s; cbn in *; by subst.
Qed.

Lemma notify_frame v fo l (s : State) :
  exists cbs, notify cfg v fo l s = set_callbacks cbs s.
Proof.
  unfold notify.
  destruct (progress_callback cfg), (video_frame_callback cfg); try (eexists; reflexivity).
  exists (callbacks s). by destruct s.
Qed.

(** ** Shape of one pass *)

Lemma iteration_Next v a s l s' l' :
  iteration v a s l = Next s' l' ->
  let s1 := deliver (before_loop_test a) s in
  let s2 := deliver (before_pause_test a) s1 in
  stop_event s1 = false /\ current_frame l < total_frames v /\
  ((pause_event s2 = true /\ s' = s2 /\ l' = l) \/
   (pause_event s2 = false /\ exists frame, frames v !! cap_pos l = Some frame
      /\ on_frame v (cap_pos l, frame) s2 (after_read l) = Next s' l')).
Proof.
  unfold iteration. cbn zeta.
  destruct (stop_event (deliver (before_loop_test a) s)) eqn:Hstop; cbn; [discriminate|].
  destruct (current_frame l <? total_frames v) eqn:Hlt; [|discriminate].
  apply Z.ltb_lt in Hlt.
  destruct (pause_event _) eqn:Hp.
  - intros [= <- <-]. repeat split; try done. by left.
  - destruct (frames v !! cap_pos l) as [frame|] eqn:Hf; [|discriminate].
    intros Hon. repeat split; try done. right. eauto.
Qed.

Lemma on_frame_Next v fo s l s' l' :
  on_frame v fo s l = Next s' l' ->
  frame_skip cfg <> 0 /\
  ((current_frame l mod frame_skip cfg <> 0 /\ s' = clip_write fo s /\ l' = advance l) \/
   (current_frame l mod frame_skip cfg = 0 /\ exists faces s1 l1,
      face_analysis (snd fo) = Some faces
      /\ process_faces v fo faces (clip_write fo s) l = Ok s1 l1
      /\ s' = notify cfg v fo l1 s1 /\ l' = advance l1)).
Proof.
  unfold on_frame.
  destruct (frame_skip cfg =? 0) eqn:Hz; [discriminate|]. apply Z.eqb_neq in Hz.
  destruct (current_frame l mod frame_skip cfg =? 0) eqn:Hm; cbn.
  - apply Z.eqb_eq in Hm. destruct (face_analysis (snd fo)) as [faces|]; [|discriminate].
    destruct (process_faces _ _ _ _ _) as [s1 l1|] eqn:Hpf; [|discriminate].
    intros [= <- <-]. split; [done|]. right. split; [done|]. by exists faces, s1, l1.
  - apply Z.eqb_neq in Hm. intros [= <- <-]. auto.
Qed.

Lemma iteration_Done v a s l s' l' :
  iteration v a s l = Done s' l' ->
  l' = l /\ exists p q, s' = set_stop_event q (set_pause_event p s).
Proof.
  unfold iteration. cbv zeta.
  destruct (deliver_flags (before_loop_test a) s) as (p1 & q1 & E1 & _).
  destruct (deliver_flags (before_pause_test a) (deliver (before_loop_test a) s))
    as (p2 & q2 & E2 & _).
  destruct (negb _ && _).
  - destruct (pause_event _); [discriminate|].
    destruct (frames v !! cap_pos l) as [frame|].
    + unfold on_frame. destruct (frame_skip cfg =? 0); [discriminate|].
      destruct (negb _); [discriminate|].
      destruct (face_analysis _); [|discriminate].
      destruct (process_faces _ _ _ _ _); discriminate.
    + intros [= <- <-]. split; [done|]. exists p2, q2. rewrite E2, E1. reflexivity.
  - intros [= <- <-]. split; [done|]. exists p1, q1. by rewrite E1.
Qed.

(** ** Shape of one confirmed match *)

Lemma start_video_clip_eq shape f (s : State) :
  _start_video_clip shape f s =
  logging (InfoClipStarted (py_int (float_mul f (clip_duration cfg))))
    (set_clip_frames_remaining (py_int (float_mul f (clip_duration cfg)))
       (set_current_clip_writer (Some (length (writers s)))
          (set_writers (writers s ++ [new_writer shape f]) s))).
Proof. reflexivity. Qed.

Lemma detect_mask_eq frame drawn loc :
  _detect_mask frame drawn loc =
  match gray_std frame drawn loc with
  | Some std => Some (negb (Qle_bool (mask_std_threshold cfg) std))
  | None => None
  end.
Proof. reflexivity. Qed.

Lemma record_match_Ok v fo loc c (s s' : State) l l' :
  record_match v fo loc c s l = Ok s' l' ->
  exists has_mask,
    _detect_mask (snd fo) (annotations l) loc = Some has_mask /\
    Qeq_bool (fps v) 0 = false /\
    let info := {| di_frame := current_frame l;
                   di_seconds := (inject_Z (current_frame l) / fps v)%Q;
                   di_confidence := c; di_mask := has_mask |} in
    let s1 := set_report_data (report_data s ++ [info])
                (set_matches (matches s ++ [info])
                   (set_detection_path (detection_path s ++ [center loc]) s)) in
    s' = match current_clip_writer s with
         | None => _start_video_clip (frame_shape (snd fo)) (fps v) s1
         | Some _ => s1
         end /\
    l' = {| cap_pos := cap_pos l; current_frame := current_frame l;
            match_count := match_count l + 1;
            annotations := annotations l ++ [{| an_location := loc; an_mask := has_mask;
                                                an_confidence := c |}] |}.
Proof.
  unfold record_match.
  destruct (_detect_mask (snd fo) (annotations l) loc) as [has_mask|]; [|discriminate].
  destruct (Qeq_bool (fps v) 0); [discriminate|].
  cbv zeta. intros [= <- <-]. exists has_mask. by repeat split.
Qed.

Lemma process_face_Ok v fo face s l s' l' :
  process_face v fo face s l = Ok s' l' ->
  (fst (match_face (reference_encodings s) (snd face)) = false /\ s' = s /\ l' = l) \/
  (fst (match_face (reference_encodings s) (snd face)) = true /\
   record_match v fo (fst face) (snd (match_face (reference_encodings s) (snd face))) s l
     = Ok s' l').
Proof.
  unfold process_face. destruct (match_face _ _) as [[] c]; cbn [fst snd].
  - intros H. by right.
  - intros [= <- <-]. by left.
Qed.

Lemma process_faces_invariant (P : State -> Locals -> Prop) v fo :
  (forall face s l s' l', P s l -> process_face v fo face s l = Ok s' l' -> P s' l') ->
  forall faces s l s' l', P s l -> process_faces v fo faces s l = Ok s' l' -> P s' l'.
Proof.
  intros Hface faces. induction faces as [|face faces IH]; intros s l s' l' HP; simpl.
  - by intros [= <- <-].
  - destruct (process_face v fo face s l) as [s1 l1|] eqn:Hf; [|discriminate].
    apply IH. eapply Hface; eassumption.
Qed.

(** ** Properties of the state kept by every pass *)

Section Preserved.

Variable P : State -> Prop.
Variable v : Video.
Hypothesis P_signal : forall sg s, P s -> P (signal s sg).
Hypothesis P_clip : forall fo s, P s -> P (clip_write fo s).
Hypothesis P_path : forall x s, P s -> P (set_detection_path x s).
Hypothesis P_info : forall i s,
  P s -> P (set_report_data (report_data s ++ [i]) (set_matches (matches s ++ [i]) s)).
Hypothesis P_start : forall shape s,
  P s -> current_clip_writer s = None -> P (_start_video_clip shape (fps v) s).
Hypothesis P_callbacks : forall cbs s, P s -> P (set_callbacks cbs s).

Lemma deliver_preserves sgs : forall s, P s -> P (deliver sgs s).
Proof.
  induction sgs as [|sg sgs IH]; intros s H; [exact H|].
  apply IH, P_signal, H.
Qed.

Lemma record_match_preserves fo loc c s l :
  P s -> P (step_state (record_match v fo loc c s l)).
Proof.
  intros H. unfold record_match.
  destruct (_detect_mask (snd fo) (annotations l) loc) as [has_mask|]; [|exact H].
  destruct (Qeq_bool (fps v) 0); cbv zeta; cbn [step_state]; [by apply P_path|].
  set (info := Build_DetectionInfo _ _ _ _).
  assert (P (set_report_data (report_data s ++ [info])
               (set_matches (matches s ++ [info])
                  (set_detection_path (detection_path s ++ [center loc]) s)))) as H1.
  { apply (P_info info (set_detection_path (detection_path s ++ [center loc]) s)).
    by apply P_path. }
  destruct (current_clip_writer _) eqn:Hc; [exact H1|].
  apply P_start; [exact H1 | exact Hc].
Qed.

Lemma process_face_preserves fo face s l :
  P s -> P (step_state (process_face v fo face s l)).
Proof.
  intros H. unfold process_face. destruct (match_face _ _) as [[] c]; [|exact H].
  by apply record_match_preserves.
Qed.

Lemma process_faces_preserves fo faces : forall s l,
  P s -> P (step_state (process_faces v fo faces s l)).
Proof.
  induction faces as [|face faces IH]; intros s l H; simpl; [exact H|].
  pose proof (process_face_preserves fo face s l H) as H1.
  destruct (process_face v fo face s l) as [s1 l1|s1]; [by apply IH | exact H1].
Qed.

Lemma on_frame_preserves fo s l : P s -> P (flow_state (on_frame v fo s l)).
Proof.
  intros H. unfold on_frame.
  destruct (frame_skip cfg =? 0); [by apply P_clip|].
  destruct (negb _); [by apply P_clip|].
  destruct (face_analysis (snd fo)) as [faces|]; [|by apply P_clip].
  pose proof (process_faces_preserves fo faces (clip_write fo s) l (P_clip fo s H)) as H1.
  destruct (process_faces _ _ _ _ _) as [s1 l1|s1]; [|exact H1].
  cbn [flow_state]. destruct (notify_frame v fo l1 s1) as [cbs ->]. by apply P_callbacks.
Qed.

Lemma iteration_preserves a s l : P s -> P (flow_state (iteration v a s l)).
Proof.
  intros H. unfold iteration. cbv zeta.
  destruct (negb _ && _); [|by apply deliver_preserves].
  destruct (pause_event _); [by do 2 apply deliver_preserves|].
  destruct (frames v !! cap_pos l); [|by do 2 apply deliver_preserves].
  by apply on_frame_preserves, deliver_preserves, deliver_preserves.
Qed.

Lemma passes_preserves sched n : forall k s l s' l',
  P s -> passes v sched k n s l = Some (s', l') -> P s'.
Proof.
  induction n as [|n IH]; intros k s l s' l' H; simpl.
  - by intros [= <- <-].
  - pose proof (iteration_preserves (sched k) s l H) as H1.
    destruct (iteration v (sched k) s l); try discriminate. eapply IH, H1.
Qed.

Lemma loop_preserves fuel sched k s l r :
  P s -> loop fuel v sched k s l = Some r -> P (flow_state r).
Proof.
  intros H (n & s1 & l1 & Hp & <- & _)%loop_ends.
  apply iteration_preserves. eapply passes_preserves; eassumption.
Qed.

End Preserved.

Lemma clip_write_reports fo (s : State) : reports (clip_write fo s) = reports s.
Proof. by destruct (clip_write_frame fo s) as (ws & c & r & ->). Qed.

(** The loop writes no report. *)
Lemma loop_reports fuel v sched k s l r :
  loop fuel v sched k s l = Some r -> reports (flow_state r) = reports s.
Proof.
  apply (loop_preserves (fun s' => reports s' = reports s)); try done.
  - by intros [] s0.
  - intros fo s0. by rewrite clip_write_reports.
Qed.

(** ** The returned count and the detection history *)

Lemma process_face_counted base v fo face s l s' l' :
  counted base s l -> process_face v fo face s l = Ok s' l' -> counted base s' l'.
Proof.
  unfold counted. intros Hc [(_ & -> & ->)|[_ Hrec]]%process_face_Ok; [done|].
  apply record_match_Ok in Hrec as (m & _ & _ & -> & ->).
  destruct (current_clip_writer s); rewrite ?start_video_clip_eq; fields;
    rewrite length_app; simpl; lia.
Qed.

Lemma iteration_counted base v a s l s' l' :
  counted base s l -> iteration v a s l = Next s' l' -> counted base s' l'.
Proof.
  intros Hc Hit. apply iteration_Next in Hit as (_ & _ & Hcase). cbv zeta in Hcase.
  destruct (deliver_flags (before_loop_test a) s) as (p1 & q1 & E1 & _).
  destruct (deliver_flags (before_pause_test a) (deliver (before_loop_test a) s))
    as (p2 & q2 & E2 & _).
  rewrite E2, E1 in Hcase.
  destruct Hcase as [(_ & -> & ->)|(_ & frame & _ & Hon)]; [exact Hc|].
  apply on_frame_Next in Hon as [_ [(_ & -> & ->)|(_ & faces & s1 & l1 & _ & Hpf & -> & ->)]].
  - destruct (clip_write_frame (cap_pos l, frame) (set_stop_event q2
      (set_pause_event p2 (set_stop_event q1 (set_pause_event p1 s))))) as (ws & c & r & ->).
    exact Hc.
  - destruct (notify_frame v (cap_pos l, frame) l1 s1) as [cbs ->].
    assert (counted base s1 l1) as H1; [|exact H1].
    eapply process_faces_invariant; [apply process_face_counted| |exact Hpf].
    destruct (clip_write_frame (cap_pos l, frame) (set_stop_event q2
      (set_pause_event p2 (set_stop_event q1 (set_pause_event p1 s))))) as (ws & c & r & ->).
    exact Hc.
Qed.

(** [generate_report] touches the reports and the log only, and writes the
    history when the file can be written. *)
Lemma generate_report_frame (s : State) :
  exists lg, generate_report s
    = set_log lg (set_reports (if report_writable s then reports s ++ [report_data s]
                               else reports s) s).
Proof.
  unfold_head constr:(generate_report s). destruct (report_writable s).
  - by eexists.
  - exists (log s ++ [ErrGeneratingReport]). by destruct s.
Qed.

Ltac report_frame :=
  match goal with
  | |- context [generate_report ?x] =>
      let lg := fresh "lg" in destruct (generate_report_frame x) as [lg ->]
  end.

(** C1, as amended.  What a run that opens its video returns is the number
    of records the run appended to the detection history: the length of the
    history at the end of the run less its length at the start.  On an
    engine whose history is empty at the start it is the length of the
    history.  The report at the end of the run enumerates that history when
    its file can be written in the state the loop is left in; when it
    cannot, the failure is caught and no report is written. *)
Theorem process_video_returns_new_records fuel v sched s n s' :
  process_video fuel (Some v) sched s = Some (Returned n s') ->
  n = Z.of_nat (length (report_data s')) - Z.of_nat (length (report_data s))
  /\ (report_data s = [] -> n = Z.of_nat (length (report_data s')))
  /\ exists s1 l1, loop fuel v sched 0 s entry = Some (Done s1 l1)
       /\ reports s' = if report_writable s1 then reports s ++ [report_data s']
                       else reports s.
Proof.
  unfold process_video.
  destruct (loop fuel v sched 0 s entry) as [[s1 l1|s1 l1|s1]|] eqn:Hl; try discriminate.
  intros [= <- <-].
  pose proof (loop_reports _ _ _ _ _ _ _ Hl) as Hrep. cbn [flow_state] in Hrep.
  apply loop_ends in Hl as (k & s2 & l2 & Hp & Hlast & _).
  assert (counted (Z.of_nat (length (report_data s))) s2 l2) as Hc.
  { eapply (passes_invariant (counted _)); [|shelve|exact Hp].
    intros; eapply iteration_counted; eassumption.
    Unshelve. unfold counted. simpl. lia. }
  destruct (generate_report_frame s1) as [lg ->].
  apply iteration_Done in Hlast as (El & p & q & E).
  assert (report_data s1 = report_data s2) as Er by (by rewrite E).
  unfold counted in Hc. rewrite <-Er, <-El in Hc. fields.
  split; [lia|]. split.
  - intros E0. rewrite E0 in Hc. simpl in Hc. lia.
  - exists s1, l1. split; [done|]. by rewrite Hrep.
Qed.

(** ** A frame whose analysis raises *)

Lemma deliver_unpaused sgs (s : State) :
  SigPause ∉ sgs -> pause_event s = false -> pause_event (deliver sgs s) = false.
Proof.
  revert s. induction sgs as [|sg sgs IH]; intros s Hn Hp; simpl; [exact Hp|].
  apply not_elem_of_cons in Hn as [Hsg Hn]. apply IH; [exact Hn|]. by destruct sg.
Qed.

Lemma process_faces_answers v fo faces : forall s l,
  Qeq_bool (fps v) 0 = false ->
  (forall drawn face, face ∈ faces -> is_Some (gray_std (snd fo) drawn (fst face))) ->
  exists s' l', process_faces v fo faces s l = Ok s' l' /\ cap_pos l' = cap_pos l.
Proof.
  induction faces as [|face faces IH]; intros s l Hfps Hstd; simpl; [by eauto|].
  assert (exists s1 l1, process_face v fo face s l = Ok s1 l1 /\ cap_pos l1 = cap_pos l)
    as (s1 & l1 & -> & E1).
  { unfold process_face. destruct (match_face _ _) as [[] c]; [|by eauto].
    unfold record_match. rewrite detect_mask_eq.
    destruct (Hstd (annotations l) face) as [std ->]; [apply list_elem_of_here|].
    rewrite Hfps. cbv zeta. eauto. }
  destruct (IH s1 l1 Hfps) as (s' & l' & -> & E');
    [intros drawn face' Hin; by apply Hstd, list_elem_of_further|].
  exists s', l'. split; [done|congruence].
Qed.

Lemma on_frame_answers v i frame s l :
  analysable v -> frame ∈ frames v ->
  exists s' l', on_frame v (i, frame) s l = Next s' l'
    /\ cap_pos l' = cap_pos l /\ pause_event s' = pause_event s.
Proof.
  intros (Hskip & Hfps & Hall) Hin.
  assert (pause_event (flow_state (on_frame v (i, frame) s l)) = pause_event s) as Hpres.
  { apply (on_frame_preserves (fun s' => pause_event s' = pause_event s)); try done.
    intros fo s0. by destruct (clip_write_frame fo s0) as (ws & c & r & ->). }
  revert Hpres. unfold on_frame.
  apply Z.eqb_neq in Hskip. rewrite Hskip.
  destruct (negb _); [by eauto|].
  destruct (Hall frame Hin) as (faces & Hfa & Hstd). cbn [snd]. rewrite Hfa.
  destruct (process_faces_answers v (i, frame) faces (clip_write (i, frame) s) l Hfps Hstd)
    as (s1 & l1 & -> & E1).
  intros Hpres. do 2 eexists. split; [reflexivity|]. split; [exact E1 | exact Hpres].
Qed.

(** A run that nobody pauses and in which every call answers leaves the
    loop normally once the frames are read. *)
Lemma loop_leaves v sched n : forall k s l,
  analysable v -> unpaused sched -> pause_event s = false ->
  (length (frames v) - cap_pos l <= n)%nat ->
  exists s' l', loop (S n) v sched k s l = Some (Done s' l').
Proof.
  induction n as [|n IH]; intros k s l Han Hun Hp Hn.
  - change (loop 1 v sched k s l) with
      (match iteration v (sched k) s l with
       | Next s' l' => None | r => Some r end).
    unfold iteration. cbv zeta. destruct (negb _ && _); [|by eauto].
    destruct (Hun k) as [H1 H2].
    rewrite (deliver_unpaused _ _ H2 (deliver_unpaused _ _ H1 Hp)).
    rewrite (lookup_ge_None_2 (frames v) (cap_pos l)); [by eauto | lia].
  - change (loop (S (S n)) v sched k s l) with
      (match iteration v (sched k) s l with
       | Next s' l' => loop (S n) v sched (S k) s' l' | r => Some r end).
    unfold iteration. cbv zeta. destruct (negb _ && _); [|by eauto].
    destruct (Hun k) as [H1 H2].
    pose proof (deliver_unpaused _ _ H2 (deliver_unpaused _ _ H1 Hp)) as Hp2.
    rewrite Hp2.
    destruct (frames v !! cap_pos l) as [frame|] eqn:Hf; [|by eauto].
    destruct (on_frame_answers v (cap_pos l) frame
                (deliver (before_pause_test (sched k))
                   (deliver (before_loop_test (sched k)) s)) (after_read l) Han)
      as (s' & l' & -> & Ecap & Ep).
    { eapply list_elem_of_lookup_2, Hf. }
    apply IH; try done; [congruence|].
    rewrite Ecap. cbn [cap_pos after_read]. lia.
Qed.

(** C2, as amended.  [process_video] catches nothing.  When the face
    detection or encoding of a sampled frame raises, the pass ends there
    with the exception: the run is aborted in the state reached after the
    clip write of that frame, no later frame is read, no report is written
    and no count is returned.  A run that nobody pauses and in which every
    call answers leaves the loop and returns, having written the report of
    the history when the report file can be written in the state the loop
    is left in, and no report when it cannot. *)
Theorem frame_error_aborts_run v sched (s : State) :
  (forall k s1 l1 frame fuel,
     passes v sched 0 k s entry = Some (s1, l1) ->
     let s2 := deliver (before_loop_test (sched k)) s1 in
     let s3 := deliver (before_pause_test (sched k)) s2 in
     stop_event s2 = false -> current_frame l1 < total_frames v ->
     pause_event s3 = false ->
     frames v !! cap_pos l1 = Some frame ->
     frame_skip cfg <> 0 -> current_frame l1 mod frame_skip cfg = 0 ->
     face_analysis frame = None ->
     (k < fuel)%nat ->
     process_video fuel (Some v) sched s
       = Some (Aborted (clip_write (cap_pos l1, frame) s3))
     /\ reports (clip_write (cap_pos l1, frame) s3) = reports s)
  /\ (analysable v -> unpaused sched -> pause_event s = false ->
      exists n s' s1 l1,
        loop (S (length (frames v))) v sched 0 s entry = Some (Done s1 l1)
        /\ process_video (S (length (frames v))) (Some v) sched s = Some (Returned n s')
        /\ reports s' = if report_writable s1 then reports s ++ [report_data s']
                        else reports s).
Proof.
  split.
  - intros k s1 l1 frame fuel Hp s2 s3 Hstop Hlt Hpause Hframe Hskip Hsel Hraise Hfuel.
    assert (loop fuel v sched 0 s entry = Some (Raised (clip_write (cap_pos l1, frame) s3)))
      as Hl.
    { replace fuel with (k + S (fuel - S k))%nat by lia.
      rewrite (loop_after_passes _ _ _ _ _ _ _ _ _ Hp).
      change (loop (S ?f) v sched ?k ?s ?l) with
        (match iteration v (sched k) s l with
         | Next s' l' => loop f v sched (S k) s' l' | r => Some r end).
      unfold iteration. cbv zeta. change (0 + k)%nat with k.
      fold s2. rewrite Hstop. fold s3. rewrite Hpause.
      apply Z.ltb_lt in Hlt. rewrite Hlt. cbn [negb andb]. rewrite Hframe.
      unfold on_frame. apply Z.eqb_neq in Hskip. rewrite Hskip.
      cbn [current_frame after_read]. rewrite Hsel. cbn [Z.eqb negb snd].
      by rewrite Hraise. }
    unfold process_video. rewrite Hl. split; [done|].
    exact (loop_reports _ _ _ _ _ _ _ Hl).
  - intros Han Hun Hp.
    destruct (loop_leaves v sched (length (frames v)) 0 s entry Han Hun Hp)
      as (s' & l' & Hl); [lia|].
    unfold process_video. rewrite Hl. exists (match_count l'). eexists. exists s', l'.
    split; [reflexivity|]. split; [reflexivity|].
    destruct (generate_report_frame s') as [lg ->]. fields.
    pose proof (loop_reports _ _ _ _ _ _ _ Hl) as Hrep. cbn [flow_state] in Hrep.
    by rewrite Hrep.
Qed.

(** ** Callbacks *)

Lemma process_faces_quiet v fo faces s l s' l' :
  process_faces v fo faces s l = Ok s' l' ->
  callbacks s' = callbacks s /\ current_frame l' = current_frame l /\ cap_pos l' = cap_pos l.
Proof.
  apply (process_faces_invariant
    (fun s1 l1 => callbacks s1 = callbacks s /\ current_frame l1 = current_frame l
                  /\ cap_pos l1 = cap_pos l)); [|done].
  intros face s1 l1 s2 l2 (Hc & Hf & Hp) [(_ & -> & ->)|[_ Hrec]]%process_face_Ok; [done|].
  apply record_match_Ok in Hrec as (m & _ & _ & -> & ->).
  destruct (current_clip_writer s1); rewrite ?start_video_clip_eq; fields; done.
Qed.

Lemma deliver_callbacks sgs (s : State) : callbacks (deliver sgs s) = callbacks s.
Proof. by destruct (deliver_flags sgs s) as (p & q & -> & _). Qed.

Lemma clip_write_callbacks fo (s : State) : callbacks (clip_write fo s) = callbacks s.
Proof. by destruct (clip_write_frame fo s) as (ws & c & r & ->). Qed.

(** C3, as amended.  A pass that consumes a frame always advances the frame
    index, but it invokes the callbacks only when the frame is selected by
    the sampling gate: then the progress callback (when supplied) gets
    frameIndex/totalFrames and the frame callback (when supplied) gets the
    frame.  On a frame the gate skips, neither callback is invoked. *)
Theorem callbacks_only_on_sampled_frames v a (s : State) l s' l' :
  iteration v a s l = Next s' l' ->
  cap_pos l' = S (cap_pos l) ->
  exists frame, frames v !! cap_pos l = Some frame
    /\ current_frame l' = current_frame l + 1
    /\ callbacks s' = callbacks s ++
         if current_frame l mod frame_skip cfg =? 0
         then (if progress_callback cfg
               then [CbProgress (current_frame l) (total_frames v)] else [])
              ++ (if video_frame_callback cfg then [CbFrame (cap_pos l, frame)] else [])
         else [].
Proof.
  intros Hit Hread. apply iteration_Next in Hit as (_ & _ & Hcase). cbv zeta in Hcase.
  destruct Hcase as [(_ & _ & ->)|(_ & frame & Hf & Hon)]; [lia|].
  exists frame. split; [exact Hf|].
  apply on_frame_Next in Hon as [_ [(Hsel & -> & ->)|(Hsel & faces & s1 & l1 & _ & Hpf & -> & ->)]].
  - cbn [current_frame after_read advance] in *.
    apply Z.eqb_neq in Hsel. rewrite Hsel, app_nil_r.
    by rewrite clip_write_callbacks, !deliver_callbacks.
  - apply process_faces_quiet in Hpf as (Hcb & Hcf & _).
    rewrite clip_write_callbacks, !deliver_callbacks in Hcb.
    cbn [current_frame after_read advance] in *. rewrite Hsel. cbn [Z.eqb].
    split; [lia|]. unfold notify. rewrite Hcf.
    destruct (progress_callback cfg), (video_frame_callback cfg); fields;
      rewrite ?Hcb, ?app_nil_r, <- ?app_assoc; reflexivity.
Qed.

(** ** The frame count of a new clip *)

Lemma py_int_nonneg x : (0 <= x)%Q -> py_int x = Qfloor x.
Proof.
  destruct x as [n d]. unfold Qle, py_int, Qfloor. cbn [Qnum Qden]. intros H.
  apply Z.quot_div_nonneg; lia.
Qed.

Lemma py_int_nonpos x : (x <= 0)%Q -> py_int x = Qceiling x.
Proof.
  destruct x as [n d]. unfold Qle, py_int, Qceiling, Qfloor, Qopp. cbn [Qnum Qden]. intros H.
  rewrite <- (Z.opp_involutive n) at 1. rewrite Z.quot_opp_l by lia.
  f_equal. apply Z.quot_div_nonneg; lia.
Qed.

Lemma py_int_whole x z : (x == inject_Z z)%Q -> py_int x = z.
Proof.
  intros E. destruct (Z.le_gt_cases 0 z) as [Hz|Hz].
  - rewrite py_int_nonneg, E; [apply Qfloor_Z|]. rewrite E.
    change 0%Q with (inject_Z 0). by rewrite <- Zle_Qle.
  - rewrite py_int_nonpos, E; [apply Qceiling_Z|]. rewrite E.
    change 0%Q with (inject_Z 0). rewrite <- Zle_Qle. lia.
Qed.

(** *** The product in floating point *)

Lemma round_double_proper x y : (x == y)%Q -> round_double x = round_double y.
Proof. intros E. unfold round_double. by rewrite (Qred_complete x y E). Qed.

Lemma float_mul_proper x x' y y' :
  (x == x')%Q -> (y == y')%Q -> float_mul x y = float_mul x' y'.
Proof.
  intros Ex Ey. unfold float_mul.
  by rewrite (round_double_proper x x' Ex), (round_double_proper y y' Ey).
Qed.

Lemma Qred_inject_Z z : Qred (inject_Z z) = inject_Z z.
Proof.
  unfold Qred, inject_Z.
  pose proof (Z.ggcd_correct_divisors z 1) as H. pose proof (Z.ggcd_gcd z 1) as Hg.
  destruct (Z.ggcd z 1) as [g [aa bb]]. cbn [fst snd] in *. rewrite Z.gcd_1_r in Hg.
  subst g. destruct H as [-> H]. rewrite !Z.mul_1_l in *. by subst bb.
Qed.

Lemma round_half_even_1 n : round_half_even n 1 = n.
Proof. unfold round_half_even. by rewrite Z.mod_1_r, Z.div_1_r. Qed.

(** An integer of at most 53 bits is a double. *)
Lemma round_double_Z z : Z.abs z <= 2 ^ 53 -> (round_double (inject_Z z) == inject_Z z)%Q.
Proof.
  intros Hz. unfold round_double. rewrite Qred_inject_Z. cbn [Qnum Qden inject_Z].
  destruct (Z.abs z =? 0) eqn:E0.
  { apply Z.eqb_eq in E0. replace z with 0 by lia. reflexivity. }
  apply Z.eqb_neq in E0. assert (0 < Z.abs z) as Hpos by lia.
  assert (Z.sgn z * Z.abs z = z) as Hsgn by (rewrite Z.mul_comm; apply Z.abs_sgn).
  change (Z.log2 1) with 0. rewrite Z.sub_0_r.
  pose proof (Z.log2_nonneg (Z.abs z)) as Hl0.
  pose proof (Z.log2_spec _ Hpos) as [Hlo Hhi].
  assert (Z.log2 (Z.abs z) <= 53) as Hl53.
  { pose proof (Z.log2_le_mono _ _ Hz) as H. by rewrite Z.log2_pow2 in H by lia. }
  assert ((0 <=? Z.log2 (Z.abs z)) = true) as -> by (apply Z.leb_le; lia).
  assert ((1 * 2 ^ Z.log2 (Z.abs z) <=? Z.abs z) = true) as -> by (apply Z.leb_le; lia).
  rewrite Z.max_l by lia.
  destruct (0 <=? Z.log2 (Z.abs z) - 52) eqn:Eq.
  - apply Z.leb_le in Eq.
    assert (Z.log2 (Z.abs z) = 52 \/ Z.log2 (Z.abs z) = 53) as [El|El] by lia; rewrite El.
    + change (52 - 52) with 0. change (1 * 2 ^ 0) with 1. rewrite round_half_even_1.
      change (2 ^ 0) with 1. by rewrite Z.mul_1_r, Hsgn.
    + assert (Z.abs z = 2 ^ 53) as Ez by (rewrite El in Hlo; lia).
      change (53 - 52) with 1. change (1 * 2 ^ 1) with 2.
      assert (round_half_even (Z.abs z) 2 * 2 ^ 1 = Z.abs z) as Er
        by (rewrite Ez; vm_compute; reflexivity).
      by rewrite <-Z.mul_assoc, Er, Hsgn.
  - apply Z.leb_gt in Eq. rewrite round_half_even_1.
    assert (0 < 2 ^ (- (Z.log2 (Z.abs z) - 52))) as Hp by (apply Z.pow_pos_nonneg; lia).
    unfold Qeq. cbn [Qnum Qden inject_Z]. rewrite Z2Pos.id by done.
    rewrite Z.mul_assoc, Hsgn. lia.
Qed.

(** C4, as amended.  When a confirmed match finds the recorder idle, the
    new session's counter is [int(fps * clipDurationSeconds)], the product
    being the double that Python's multiplication gives: it is truncated
    toward zero, not rounded to the nearest integer.  For a frame rate and
    a duration that are doubles and whose exact product is a whole number
    of at most 53 bits, the counter is that number; 30 fps and 2 s give 60.
    At 30 fps and 0.7 s the double product is 21 and so is the counter,
    while the exact product of 30 and the double read for 0.7 is below
    21. *)
Theorem clip_start_truncates_frame_count v fo loc c (s s' : State) l l' :
  current_clip_writer s = None ->
  record_match v fo loc c s l = Ok s' l' ->
  let x := float_mul (fps v) (clip_duration cfg) in
  current_clip_writer s' = Some (length (writers s))
  /\ clip_frames_remaining s' = py_int x
  /\ ((0 <= x)%Q -> (inject_Z (py_int x) <= x)%Q /\ (x < inject_Z (py_int x + 1))%Q)
  /\ ((x <= 0)%Q -> (inject_Z (py_int x - 1) < x)%Q /\ (x <= inject_Z (py_int x))%Q)
  /\ (forall z, (round_double (fps v) == fps v)%Q ->
        (round_double (clip_duration cfg) == clip_duration cfg)%Q ->
        (fps v * clip_duration cfg == inject_Z z)%Q -> Z.abs z <= 2 ^ 53 ->
        clip_frames_remaining s' = z)
  /\ ((fps v == 30)%Q -> (clip_duration cfg == 2)%Q -> clip_frames_remaining s' = 60)
  /\ ((fps v == 30)%Q -> (clip_duration cfg == 7 # 10)%Q ->
      clip_frames_remaining s' = 21
      /\ (30 * round_double (7 # 10) < 21)%Q).
Proof.
  intros Hidle Hrec x.
  apply record_match_Ok in Hrec as (m & _ & _ & -> & ->). rewrite Hidle.
  rewrite start_video_clip_eq. fields. fold x.
  split; [done|]. split; [done|]. split; [|split; [|split; [|split]]].
  - intros Hx. rewrite (py_int_nonneg x Hx). split; [apply Qfloor_le | apply Qlt_floor].
  - intros Hx. rewrite (py_int_nonpos x Hx). split; [apply Qceiling_lt | apply Qle_ceiling].
  - intros z Hf Hd Hz Hbits. apply py_int_whole. unfold x, float_mul.
    rewrite (round_double_proper _ (inject_Z z)); [by apply round_double_Z|].
    by rewrite Hf, Hd.
  - intros Hf Hd. unfold x. rewrite (float_mul_proper _ 30 _ 2 Hf Hd).
    vm_compute. reflexivity.
  - intros Hf Hd. unfold x. rewrite (float_mul_proper _ 30 _ (7 # 10) Hf Hd).
    split; vm_compute; reflexivity.
Qed.

(** ** The matcher *)

Lemma match_ref_qualifies enc acc ref :
  qualifies enc ref ->
  match_ref compare_faces face_distance cfg enc acc ref
    = (true, py_max (snd acc) (1 - face_distance ref enc)%Q).
Proof.
  intros [Hc Hd]. unfold match_ref. rewrite Hc. apply Qle_bool_iff in Hd. by rewrite Hd.
Qed.

Lemma match_ref_rejects enc acc ref :
  ~ qualifies enc ref -> match_ref compare_faces face_distance cfg enc acc ref = acc.
Proof.
  intros Hn. unfold match_ref.
  destruct (compare_faces ref enc) eqn:Hc; [|done].
  destruct (Qle_bool _ _) eqn:Hd; [|done].
  exfalso. apply Hn. split; [done | by apply Qle_bool_iff].
Qed.

Lemma qualifies_dec enc ref : {qualifies enc ref} + {~ qualifies enc ref}.
Proof.
  destruct (compare_faces ref enc) eqn:Hc; [|right; intros [H _]; congruence].
  destruct (Qlt_le_dec (confidence_threshold cfg) (face_distance ref enc)) as [Hlt|Hle].
  - right. intros [_ Hle]. by apply Qlt_not_le in Hlt.
  - left. by split.
Qed.

Lemma py_max_cases a b :
  (a <= py_max a b)%Q /\ (b <= py_max a b)%Q /\ (py_max a b = a \/ py_max a b = b).
Proof.
  unfold py_max. destruct (Qle_bool b a) eqn:E.
  - apply Qle_bool_iff in E. repeat split; [apply Qle_refl | done | by left].
  - assert (~ (b <= a)%Q) as Hn by (intros H%Qle_bool_iff; congruence).
    apply Qnot_le_lt in Hn. repeat split; [by apply Qlt_le_weak | apply Qle_refl | by right].
Qed.

(** The loop over the references, from any starting pair. *)
Lemma match_fold enc refs : forall b c,
  let r := fold_left (match_ref compare_faces face_distance cfg enc) refs (b, c) in
  (fst r = true <-> b = true \/ exists ref, ref ∈ refs /\ qualifies enc ref)
  /\ (c <= snd r)%Q
  /\ (forall ref, ref ∈ refs -> qualifies enc ref -> (1 - face_distance ref enc <= snd r)%Q)
  /\ (snd r = c \/
      exists ref, ref ∈ refs /\ qualifies enc ref /\ snd r = (1 - face_distance ref enc)%Q).
Proof.
  induction refs as [|ref refs IH]; intros b c; cbn [fold_left fst snd].
  - repeat split; [by left | | apply Qle_refl | by intros ref Hin%elem_of_nil | by left].
    intros [?|(ref & Hin%elem_of_nil & _)]; done.
  - destruct (qualifies_dec enc ref) as [Hq|Hn].
    + rewrite (match_ref_qualifies _ _ _ Hq). cbn [snd].
      destruct (IH true (py_max c (1 - face_distance ref enc)%Q)) as (Hb & Hc & Hall & Hatt).
      destruct (py_max_cases c (1 - face_distance ref enc)%Q) as (Hm1 & Hm2 & Hm).
      repeat split.
      * intros _. right. exists ref. split; [apply list_elem_of_here | done].
      * intros _. apply Hb. by left.
      * eapply Qle_trans; eassumption.
      * intros ref' [->|Hin]%elem_of_cons Hq'; [eapply Qle_trans; eassumption | by apply Hall].
      * destruct Hatt as [E|(ref' & Hin & Hq' & E)].
        -- destruct Hm as [E'|E']; [left; congruence|].
           right. exists ref. repeat split; [apply list_elem_of_here | apply Hq.. | congruence].
        -- right. exists ref'.
           repeat split; [by apply list_elem_of_further | apply Hq'.. | done].
    + rewrite (match_ref_rejects _ _ _ Hn).
      destruct (IH b c) as (Hb & Hc & Hall & Hatt).
      repeat split.
      * intros [?|(ref' & Hin & Hq')]%Hb; [by left|]. right. exists ref'.
        split; [by apply list_elem_of_further | done].
      * intros [?|(ref' & [->|Hin]%elem_of_cons & Hq')]; apply Hb; [by left|done|].
        right. by exists ref'.
      * done.
      * intros ref' [->|Hin]%elem_of_cons Hq'; [done | by apply Hall].
      * destruct Hatt as [E|(ref' & Hin & Hq' & E)]; [by left|].
        right. exists ref'.
        repeat split; [by apply list_elem_of_further | apply Hq'.. | done].
Qed.

(** C5.  With the threshold in [0,1] as the data model has it, a face is a
    confirmed match exactly when some reference is a native match at a
    distance within the threshold; the confidence of a confirmed match is
    the largest [1 - distance] over those references, and it is the
    confidence of the record appended; a face whose distance to every
    reference exceeds the threshold is no match and leaves the state as it
    was, whatever the native verdicts. *)
Theorem confirmed_match_iff_qualifying_reference refs enc :
  (confidence_threshold cfg <= 1)%Q ->
  let verdict := match_face refs enc in
  (fst verdict = true <-> exists ref, ref ∈ refs /\ qualifies enc ref)
  /\ (fst verdict = true ->
      (exists ref, ref ∈ refs /\ qualifies enc ref
         /\ (snd verdict == 1 - face_distance ref enc)%Q)
      /\ (forall ref, ref ∈ refs -> qualifies enc ref ->
            (1 - face_distance ref enc <= snd verdict)%Q))
  /\ (forall v fo loc (s s' : State) l l',
        reference_encodings s = refs ->
        process_face v fo (loc, enc) s l = Ok s' l' ->
        if fst verdict
        then exists info, report_data s' = report_data s ++ [info]
                          /\ di_confidence info = snd verdict
        else s' = s /\ l' = l)
  /\ ((forall ref, ref ∈ refs -> (confidence_threshold cfg < face_distance ref enc)%Q) ->
      fst verdict = false
      /\ forall v fo loc (s : State) l,
           reference_encodings s = refs -> process_face v fo (loc, enc) s l = Ok s l).
Proof.
  intros Hthr verdict.
  pose proof (match_fold enc refs false 0%Q) as H. cbv zeta in H.
  change (fold_left _ refs (false, 0%Q)) with verdict in H.
  destruct H as (Hb & Hc & Hall & Hatt).
  assert (fst verdict = true <-> exists ref, ref ∈ refs /\ qualifies enc ref) as Hiff.
  { rewrite Hb. split; [by intros [?|?] | by right]. }
  split; [exact Hiff|]. split; [|split].
  - intros Hv. split; [|exact Hall].
    destruct Hatt as [E|(ref & Hin & Hq & E)].
    + apply Hiff in Hv as (ref & Hin & Hq). exists ref. split; [done|]. split; [done|].
      apply Qle_antisym.
      * rewrite E. destruct Hq as [_ Hd].
        apply (Qplus_le_l _ _ (face_distance ref enc)). ring_simplify.
        eapply Qle_trans; eassumption.
      * by apply Hall.
    + exists ref. split; [done|]. split; [done|]. by rewrite E.
  - intros v fo loc s s' l l' Hrefs Hpf.
    apply process_face_Ok in Hpf. cbn [fst snd] in Hpf. rewrite Hrefs in Hpf.
    fold verdict in Hpf. destruct Hpf as [(-> & -> & ->)|[-> Hrec]]; [done|].
    apply record_match_Ok in Hrec as (m & _ & _ & -> & _).
    eexists. split;
      [destruct (current_clip_writer s); rewrite ?start_video_clip_eq; reflexivity
      |reflexivity].
  - intros Hfar.
    assert (fst verdict = false) as Hv.
    { apply not_true_is_false. intros E.
      apply Hiff in E as (ref & Hin & _ & Hd). exact (Qle_not_lt _ _ Hd (Hfar ref Hin)). }
    split; [exact Hv|]. intros v fo loc s l Hrefs.
    unfold process_face. cbn [fst snd]. rewrite Hrefs. fold verdict.
    destruct verdict as [b c]. cbn [fst] in Hv. by rewrite Hv.
Qed.

(** ** The clip recorder *)

Lemma vw_write_releases (fo : FrameObj) (w : VideoWriter) : vw_releases (vw_write fo w) = vw_releases w.
Proof. unfold vw_write. by destruct (vw_releases w) eqn:E. Qed.

Lemma vw_write_active (fo : FrameObj) (w : VideoWriter) :
  vw_releases w = 0%nat -> vw_frames (vw_write fo w) = vw_frames w ++ [fo].
Proof. unfold vw_write. by intros ->. Qed.

(** The clip phase of a pass that finds a session open. *)
Lemma clip_write_recording fo (s : State) w :
  recorder_ok s -> current_clip_writer s = Some w ->
  let s' := clip_write fo s in
  clip_frames_remaining s' = clip_frames_remaining s - 1
  /\ current_clip_writer s' = (if clip_frames_remaining s' <=? 0 then None else Some w)
  /\ (exists wr wr', writers s !! w = Some wr /\ writers s' !! w = Some wr'
        /\ vw_frames wr' = vw_frames wr ++ [fo]
        /\ vw_releases wr' = if clip_frames_remaining s' <=? 0 then 1%nat else 0%nat)
  /\ (forall i, i <> w -> writers s' !! i = writers s !! i)
  /\ length (writers s') = length (writers s).
Proof.
  intros [HA HB] Hc. pose proof (HA w Hc) as Hlt.
  destruct (lookup_lt_is_Some_2 _ _ Hlt) as [wr Hwr].
  pose proof (HB w wr Hwr) as Hrel. rewrite decide_True in Hrel by done.
  unfold clip_write. rewrite Hc. cbv zeta. fields.
  destruct (clip_frames_remaining s - 1 <=? 0) eqn:Hz; fields; rewrite ?Hz.
  - split; [done|]. split; [done|]. split; [|split].
    + exists wr, (vw_release (vw_write fo wr)).
      rewrite !list_lookup_alter_eq, Hwr. cbn.
      by rewrite (vw_write_active fo wr Hrel), vw_write_releases, Hrel.
    + intros i Hi. by rewrite !list_lookup_alter_ne.
    + by rewrite !length_alter.
  - split; [done|]. split; [done|]. split; [|split].
    + exists wr, (vw_write fo wr). rewrite list_lookup_alter_eq, Hwr. cbn.
      by rewrite (vw_write_active fo wr Hrel), vw_write_releases, Hrel.
    + intros i Hi. by rewrite list_lookup_alter_ne.
    + by rewrite length_alter.
Qed.

Lemma clip_write_idle fo (s : State) : current_clip_writer s = None -> clip_write fo s = s.
Proof. unfold clip_write. by intros ->. Qed.

Lemma recorder_ok_clip_write fo (s : State) : recorder_ok s -> recorder_ok (clip_write fo s).
Proof.
  intros Hok. destruct (current_clip_writer s) as [w|] eqn:Hc;
    [|by rewrite clip_write_idle].
  destruct (clip_write_recording fo s w Hok Hc) as (_ & Hcur & Hw & Hother & Hlen).
  destruct Hok as [HA HB]. pose proof (HA w Hc) as Hlt.
  destruct Hw as (wr & wr' & Hwr & Hwr' & _ & Hrel').
  split.
  - intros i Hi. rewrite Hlen. rewrite Hcur in Hi.
    destruct (_ <=? 0); [discriminate|]. injection Hi as <-. exact Hlt.
  - intros i x Hx. destruct (decide (i = w)) as [->|Hne].
    + rewrite Hwr' in Hx. injection Hx as <-. rewrite Hrel', Hcur.
      destruct (_ <=? 0); [by rewrite decide_False | by rewrite decide_True].
    + rewrite (Hother i Hne) in Hx. rewrite (HB i x Hx), Hc, Hcur.
      rewrite decide_False by congruence.
      destruct (_ <=? 0); rewrite decide_False; congruence.
Qed.

Lemma recorder_ok_start shape f (s : State) :
  recorder_ok s -> current_clip_writer s = None ->
  recorder_ok (_start_video_clip shape f s).
Proof.
  intros [HA HB] Hc. rewrite start_video_clip_eq. split; fields.
  - intros i [= <-]. rewrite length_app. simpl. lia.
  - intros i x Hx. destruct (decide (i < length (writers s))%nat) as [Hlt|Hge].
    + rewrite lookup_app_l in Hx by done. rewrite (HB i x Hx), Hc.
      rewrite !decide_False; [done| |done]. intros [= E]. lia.
    + rewrite lookup_app_r in Hx by lia.
      destruct (i - length (writers s))%nat eqn:E; [|by destruct n]. injection Hx as <-.
      rewrite decide_True; [done|]. f_equal. lia.
Qed.

Lemma recorder_ok_deliver sgs (s : State) : recorder_ok s -> recorder_ok (deliver sgs s).
Proof. by destruct (deliver_flags sgs s) as (p & q & -> & _). Qed.

Lemma recorder_ok_at_most_one (s : State) : recorder_ok s -> at_most_one_session s.
Proof.
  intros [_ HB] i j wi wj Hi Hj Hai Haj. unfold active in *.
  rewrite (HB i wi Hi) in Hai. rewrite (HB j wj Hj) in Haj.
  destruct (decide (current_clip_writer s = Some i)) as [Ei|]; [|discriminate].
  destruct (decide (current_clip_writer s = Some j)) as [Ej|]; [|discriminate].
  congruence.
Qed.

Lemma load_one_frame (s : State) path :
  exists refs lg, load_one s path = set_log lg (set_reference_encodings refs s).
Proof.
  unfold_head constr:(load_one s path). destruct (negb (path_exists path)).
  - exists (reference_encodings s), (log s ++ [ErrNotFound path]). by destruct s.
  - destruct (load_encodings path) as [[|e es]|].
    + exists (reference_encodings s), (log s ++ [ErrNoFace path]). by destruct s.
    + exists (reference_encodings s ++ [e]), (log s). by destruct s.
    + exists (reference_encodings s), (log s ++ [ErrLoading path]). by destruct s.
Qed.

Lemma load_fold_frame paths : forall s : State,
  exists refs lg, fold_left load_one paths s = set_log lg (set_reference_encodings refs s).
Proof.
  induction paths as [|p paths IH]; intros s; cbn [fold_left].
  - exists (reference_encodings s), (log s). by destruct s.
  - destruct (load_one_frame s p) as (refs1 & lg1 & ->).
    destruct (IH (set_log lg1 (set_reference_encodings refs1 s))) as (refs & lg & ->).
    by exists refs, lg.
Qed.

(** Loading touches the reference set and the log only. *)
Lemma load_reference_images_frame paths (s : State) :
  exists refs lg,
    fst (load_reference_images paths s) = set_log lg (set_reference_encodings refs s).
Proof.
  unfold_head constr:(load_reference_images paths s). cbv zeta.
  set (start := match max_reference_images cfg with
                | Some max_images => _ | None => _ end).
  assert (exists lg ps, start = (set_log lg (set_reference_encodings [] s), ps))
    as (lg0 & ps & ->).
  { unfold start. destruct (max_reference_images cfg) as [mx|].
    - destruct (_ >? mx); [by eexists _, _|]. exists (log s), paths. by destruct s.
    - exists (log s), paths. by destruct s. }
  destruct (load_fold_frame ps (set_log lg0 (set_reference_encodings [] s)))
    as (refs & lg & ->).
  fields. destruct refs; cbn [fst]; by eexists _, _.
Qed.

Lemma usable_recorder_ok (s : State) : usable s -> recorder_ok s.
Proof.
  induction 1 as [|paths s _ IH|sg s _ IH|fuel video sched s o _ IH Hrun].
  - split; [intros i [=] | intros i w Hw%lookup_lt_Some; simpl in Hw; lia].
  - by destruct (load_reference_images_frame paths s) as (refs & lg & ->).
  - by destruct sg.
  - revert Hrun. unfold_head constr:(process_video fuel video sched s).
    destruct video as [v|]; [|by intros [= <-]].
    destruct (loop fuel v sched 0 s entry) as [r|] eqn:Hl; [|done].
    apply (loop_preserves recorder_ok v) in Hl; try done.
    + destruct r as [s1 l1|s1 l1|s1]; intros [= <-]; [|exact Hl].
      cbn [outcome_state]. destruct (generate_report_frame s1) as [lg ->]. exact Hl.
    + by intros [] s1.
    + intros fo s1. apply recorder_ok_clip_write.
    + intros shape s1. apply recorder_ok_start.
Qed.

(** C6.  Whatever the engine went through before the run (loading,
    control calls, earlier runs), at most one session is live at the head
    of every pass, after the clip write of the frame read, after each face
    of the frame, and when the loop is left, normally or not.  A match
    found while a session is live opens nothing; a match found while idle
    opens one writer. *)
Theorem at_most_one_clip_session v sched (s0 : State) :
  usable s0 ->
  (forall n s l, passes v sched 0 n s0 entry = Some (s, l) ->
     at_most_one_session s
     /\ forall a fo faces l1,
          let s1 := clip_write fo
                      (deliver (before_pause_test a) (deliver (before_loop_test a) s)) in
          at_most_one_session s1
          /\ at_most_one_session (step_state (process_faces v fo faces s1 l1)))
  /\ (forall fuel r, loop fuel v sched 0 s0 entry = Some r ->
        at_most_one_session (flow_state r))
  /\ (forall fo loc c (s s' : State) l l' w,
        current_clip_writer s = Some w -> record_match v fo loc c s l = Ok s' l' ->
        writers s' = writers s /\ current_clip_writer s' = Some w)
  /\ (forall fo loc c (s s' : State) l l',
        current_clip_writer s = None -> record_match v fo loc c s l = Ok s' l' ->
        writers s' = writers s ++ [new_writer (frame_shape (snd fo)) (fps v)]
        /\ current_clip_writer s' = Some (length (writers s))).
Proof.
  intros Hok%usable_recorder_ok.
  assert (forall fo s, recorder_ok s -> recorder_ok (clip_write fo s)) as Hclip
    by (intros; by apply recorder_ok_clip_write).
  assert (forall shape s, recorder_ok s -> current_clip_writer s = None ->
            recorder_ok (_start_video_clip shape (fps v) s)) as Hstart
    by (intros; by apply recorder_ok_start).
  split; [|split; [|split]].
  - intros n s l Hp.
    assert (recorder_ok s) as Hs.
    { apply (passes_preserves recorder_ok v) in Hp; try done. by intros [] s1. }
    split; [by apply recorder_ok_at_most_one|].
    intros a fo faces l1 s1.
    assert (recorder_ok s1) as Hs1.
    { apply Hclip. by do 2 apply recorder_ok_deliver. }
    split; apply recorder_ok_at_most_one; [exact Hs1|].
    by apply (process_faces_preserves recorder_ok v).
  - intros fuel r Hl. apply recorder_ok_at_most_one.
    apply (loop_preserves recorder_ok v) in Hl; try done. by intros [] s1.
  - intros fo loc c s s' l l' w Hc Hrec.
    apply record_match_Ok in Hrec as (m & _ & _ & -> & _). by rewrite Hc.
  - intros fo loc c s s' l l' Hc Hrec.
    apply record_match_Ok in Hrec as (m & _ & _ & -> & _). by rewrite Hc.
Qed.

(** ** The frame counter of a session *)

Lemma py_int_ge_1 x : (1 <= x)%Q -> 1 <= py_int x.
Proof.
  intros Hx. rewrite py_int_nonneg by (eapply Qle_trans; [|exact Hx]; done).
  change 1 with (Qfloor 1). by apply Qfloor_resp_le.
Qed.

Lemma counter_ok_clip_write fo (s : State) : counter_ok s -> counter_ok (clip_write fo s).
Proof.
  intros [H0 H1]. unfold clip_write. destruct (current_clip_writer s) as [w|] eqn:Hc;
    [|split; [done | rewrite Hc; by intros [? ?]]].
  assert (1 <= clip_frames_remaining s) as Hr by (by apply H1).
  cbv zeta. fields. destruct (clip_frames_remaining s - 1 <=? 0) eqn:Hz; split; fields.
  - lia.
  - by intros [? ?].
  - lia.
  - intros _. apply Z.leb_gt in Hz. lia.
Qed.

Lemma counter_ok_start shape f (s : State) :
  (1 <= float_mul f (clip_duration cfg))%Q -> counter_ok (_start_video_clip shape f s).
Proof.
  intros Hx%py_int_ge_1. rewrite start_video_clip_eq. split; fields; [lia | done].
Qed.

Lemma session_ok_iteration v a (s : State) l :
  (1 <= float_mul (fps v) (clip_duration cfg))%Q ->
  session_ok s -> session_ok (flow_state (iteration v a s l)).
Proof.
  intros Hx. apply (iteration_preserves session_ok v); try done.
  - by intros [] s1.
  - intros fo s1 [? ?]. split; [by apply recorder_ok_clip_write | by apply counter_ok_clip_write].
  - intros shape s1 [? ?] Hc. split; [by apply recorder_ok_start | by apply counter_ok_start].
Qed.

Lemma session_ok_passes v sched n k (s : State) l s' l' :
  (1 <= float_mul (fps v) (clip_duration cfg))%Q ->
  session_ok s -> passes v sched k n s l = Some (s', l') -> session_ok s'.
Proof.
  intros Hx. apply (passes_preserves session_ok v); try done.
  - by intros [] s1.
  - intros fo s1 [? ?]. split; [by apply recorder_ok_clip_write | by apply counter_ok_clip_write].
  - intros shape s1 [? ?] Hc. split; [by apply recorder_ok_start | by apply counter_ok_start].
Qed.

(** C7, as amended.  Take a run on a video for which
    [fps * clipDurationSeconds], as Python multiplies it, is at least 1, so
    that every session it opens starts with a counter of at least 1; and
    let the engine start the run with a counter that is not negative and
    is at least 1 if a session is live.  A new engine is in such a state,
    loading and the control calls keep it, and the engine is in such a
    state again when the run ends, however it ends.  Then the counter is
    never negative: not at the head of a pass, and not when a pass ends.
    A writer has been released once when it is no longer the engine's, and
    never while it is.  The clip write of a pass with a live session takes
    one off the counter; the session is closed in that pass when the
    counter has reached 0 and stays live otherwise. *)
Theorem clip_counter_never_negative v sched (s0 : State) :
  (1 <= float_mul (fps v) (clip_duration cfg))%Q ->
  usable s0 -> counter_ok s0 ->
  (forall n s l, passes v sched 0 n s0 entry = Some (s, l) ->
    0 <= clip_frames_remaining s
    /\ (forall a, 0 <= clip_frames_remaining (flow_state (iteration v a s l)))
    /\ (forall i wr, writers s !! i = Some wr ->
          vw_releases wr = if decide (current_clip_writer s = Some i) then 0%nat else 1%nat)
    /\ (forall w fo, current_clip_writer s = Some w ->
          let s' := clip_write fo s in
          clip_frames_remaining s' = clip_frames_remaining s - 1
          /\ 0 <= clip_frames_remaining s'
          /\ exists wr', writers s' !! w = Some wr' /\
               if clip_frames_remaining s' =? 0
               then current_clip_writer s' = None /\ vw_releases wr' = 1%nat
               else current_clip_writer s' = Some w /\ vw_releases wr' = 0%nat))
  /\ (forall fuel o,
        process_video fuel (Some v) sched s0 = Some o -> counter_ok (outcome_state o))
  /\ counter_ok (init : State)
  /\ (forall paths, counter_ok (fst (load_reference_images paths s0)))
  /\ (forall sg, counter_ok (signal s0 sg)).
Proof.
  intros Hx Hrec%usable_recorder_ok Hcnt. split; [|split; [|split; [|split]]].
  - intros n s l Hp.
    assert (session_ok s) as [Hrs Hcs]
      by (eapply session_ok_passes; [done| |exact Hp]; done).
    split; [apply Hcs|]. split; [|split].
    + intros a. by apply (session_ok_iteration v a s l Hx).
    + apply Hrs.
    + intros w fo Hc s'.
      destruct (clip_write_recording fo s w Hrs Hc)
        as (Hrem & Hcur & (wr & wr' & _ & Hwr' & _ & Hrel) & _).
      destruct (counter_ok_clip_write fo s Hcs) as [Hnn _].
      fold s' in Hrem, Hcur, Hwr', Hrel, Hnn.
      split; [done|]. split; [done|]. exists wr'. split; [done|].
      destruct (clip_frames_remaining s' =? 0) eqn:Hz.
      * apply Z.eqb_eq in Hz. rewrite Hz in Hcur, Hrel. by cbn in Hcur, Hrel.
      * apply Z.eqb_neq in Hz. assert ((clip_frames_remaining s' <=? 0) = false) as E
          by (apply Z.leb_gt; lia).
        by rewrite E in Hcur, Hrel.
  - intros fuel o. unfold_head constr:(process_video fuel (Some v) sched s0).
    destruct (loop fuel v sched 0 s0 entry) as [r|] eqn:Hl; [|done].
    apply loop_ends in Hl as (n & s1 & l1 & Hp & Hit & _).
    assert (session_ok (flow_state r)) as [_ Hc].
    { rewrite <-Hit. apply session_ok_iteration; [done|].
      eapply session_ok_passes; [done| |exact Hp]. done. }
    destruct r as [s2 l2|s2 l2|s2]; intros [= <-]; cbn [outcome_state flow_state] in *;
      [|exact Hc].
    report_frame. exact Hc.
  - split; [done | by intros [? [=]]].
  - intros paths. by destruct (load_reference_images_frame paths s0) as (refs & lg & ->).
  - intros sg. by destruct sg.
Qed.

(** ** Loading the reference images *)

Lemma first_encoding_None path :
  first_encoding path = None <->
  path_exists path = false \/ load_encodings path = None \/ load_encodings path = Some [].
Proof.
  unfold_head constr:(first_encoding).
  destruct (path_exists path); [|split; [by left | done]].
  destruct (load_encodings path) as [[|e es]|].
  - split; [by right; right | done].
  - split; [done | intros [?|[?|?]]; discriminate].
  - split; [by right; left | done].
Qed.

Lemma load_one_loads (s : State) path e :
  first_encoding path = Some e ->
  load_one s path = set_reference_encodings (reference_encodings s ++ [e]) s.
Proof.
  unfold_head constr:(first_encoding). unfold_head constr:(load_one s path).
  destruct (path_exists path); [|done]. cbn [negb].
  destruct (load_encodings path) as [[|e' es]|]; try done. by intros [= ->].
Qed.

Lemma load_one_skips (s : State) path :
  first_encoding path = None -> load_one s path = logging (load_error path) s.
Proof.
  unfold_head constr:(first_encoding). unfold_head constr:(load_one s path). unfold_head constr:(load_error).
  destruct (path_exists path); [|done]. cbn [negb].
  by destruct (load_encodings path) as [[|e' es]|].
Qed.

Lemma load_fold paths : forall (s : State),
  reference_encodings (fold_left load_one paths s)
    = reference_encodings s ++ omap first_encoding paths
  /\ forall path, path ∈ paths -> first_encoding path = None ->
       load_error path ∈ log (fold_left load_one paths s).
Proof.
  assert (forall ps (s : State) m, m ∈ log s -> m ∈ log (fold_left load_one ps s)) as Hkeep.
  { induction ps as [|p ps IH]; intros s m Hm; [done|]. cbn [fold_left]. apply IH.
    destruct (first_encoding p) as [e|] eqn:E.
    - by rewrite (load_one_loads s p e E).
    - rewrite (load_one_skips s p E). fields. apply elem_of_app. by left. }
  induction paths as [|p paths IH]; intros s; cbn [fold_left].
  - split; [by rewrite app_nil_r | by intros path Hin%elem_of_nil].
  - destruct (IH (load_one s p)) as [Hrefs Hlog]. split.
    + rewrite Hrefs. cbn [omap list_omap]. destruct (first_encoding p) as [e|] eqn:E.
      * rewrite (load_one_loads s p e E). fields. by rewrite <- app_assoc.
      * by rewrite (load_one_skips s p E).
    + intros path [->|Hin]%elem_of_cons Hnone; [|by apply Hlog].
      apply Hkeep. rewrite (load_one_skips s p Hnone). fields.
      apply elem_of_app. right. apply list_elem_of_here.
Qed.

Lemma omap_invalid_length paths :
  (length (omap first_encoding paths) + length (List.filter invalid paths))%nat
  = length paths.
Proof.
  induction paths as [|p paths IH]; [done|].
  cbn [omap list_omap List.filter].
  replace (invalid p) with (match first_encoding p with Some _ => false | None => true end)
    by reflexivity.
  destruct (first_encoding p); cbn [length]; lia.
Qed.

Lemma load_reference_images_eq paths m (s : State) :
  max_reference_images cfg = Some m -> 0 <= m ->
  exists s1, reference_encodings s1 = [] /\ log s1 = log s ++ 
      (if Z.of_nat (length paths) >? m then [WarnTruncated m] else []) /\
    load_reference_images paths s =
    let s2 := fold_left load_one (take (Z.to_nat m) paths) s1 in
    match reference_encodings s2 with
    | [] => (logging ErrNoValidEncodings s2, false)
    | _ :: _ => (logging (InfoLoaded (length (reference_encodings s2))) s2, true)
    end.
Proof.
  intros Hmax Hm. unfold_head constr:(load_reference_images paths s). rewrite Hmax. cbv zeta.
  destruct (Z.of_nat (length paths) >? m) eqn:Hgt.
  - eexists. split; [|split; [|unfold py_slice_to; apply Z.leb_le in Hm; rewrite Hm;
      reflexivity]]; done.
  - eexists. split; [|split; [|rewrite take_ge; [reflexivity|]]]; fields.
    + done.
    + by rewrite app_nil_r.
    + rewrite Z.gtb_ltb in Hgt. apply Z.ltb_ge in Hgt. lia.
Qed.

(** C8.  With [max_reference_images] a number that is not negative, only
    the first that many paths are attempted; the reference set is the
    first encoding of each attempted path that exists, loads and shows a
    face, in order; a path that does not exist or shows no face adds an
    error to the log and nothing to the set; the call returns (it never
    raises) true exactly when some attempted path gave an encoding, and on
    false the set is empty.  Of 6 paths with a maximum of 4, when 2 of the
    first 4 are invalid the result is true with 2 encodings. *)
Theorem load_reference_images_keeps_what_loads paths m (s : State) :
  max_reference_images cfg = Some m -> 0 <= m ->
  let attempted := take (Z.to_nat m) paths in
  let s' := fst (load_reference_images paths s) in
  let ok := snd (load_reference_images paths s) in
  reference_encodings s' = omap first_encoding attempted
  /\ (length (reference_encodings s') <= Z.to_nat m)%nat
  /\ (ok = true <-> exists path e, path ∈ attempted /\ first_encoding path = Some e)
  /\ (ok = false -> reference_encodings s' = [])
  /\ (forall path, path ∈ attempted -> path_exists path = false ->
        first_encoding path = None /\ ErrNotFound path ∈ log s')
  /\ (forall path, path ∈ attempted -> path_exists path = true ->
        load_encodings path = Some [] ->
        first_encoding path = None /\ ErrNoFace path ∈ log s')
  /\ (length paths = 6%nat -> m = 4 -> length (List.filter invalid attempted) = 2%nat ->
        ok = true /\ length (reference_encodings s') = 2%nat).
Proof.
  intros Hmax Hm attempted s' ok.
  destruct (load_reference_images_eq paths m s Hmax Hm) as (s1 & Hr1 & _ & Heq).
  cbv zeta in Heq. fold attempted in Heq.
  destruct (load_fold attempted s1) as [Hrefs Hlog]. rewrite Hr1 in Hrefs. cbn [app] in Hrefs.
  set (s2 := fold_left load_one attempted s1) in *.
  assert (reference_encodings s' = omap first_encoding attempted
          /\ ok = negb (bool_decide (reference_encodings s' = []))
          /\ forall msg, msg ∈ log s2 -> msg ∈ log s') as (Hset & Hok & Hkeep).
  { unfold s', ok. rewrite Heq. destruct (reference_encodings s2) eqn:E; cbn [fst snd]; fields.
    - rewrite E. repeat split; [done|]. intros msg Hin. apply elem_of_app. by left.
    - rewrite E. repeat split; [done|]. intros msg Hin. apply elem_of_app. by left. }
  assert (length (reference_encodings s') + length (List.filter invalid attempted)
          = length attempted)%nat as Hsum by (rewrite Hset; apply omap_invalid_length).
  split; [exact Hset|]. split; [|split; [|split; [|split; [|split]]]].
  - pose proof (length_take paths (Z.to_nat m)) as Hle. fold attempted in Hle. lia.
  - rewrite Hok, Hset. split.
    + intros Hne. destruct (omap first_encoding attempted) as [|e es] eqn:E; [done|].
      assert (e ∈ omap first_encoding attempted) as Hin by (rewrite E; apply list_elem_of_here).
      apply list_elem_of_omap in Hin as (path & Hin & Hfe). by exists path, e.
    + intros (path & e & Hin & Hfe).
      assert (e ∈ omap first_encoding attempted) as He
        by (apply list_elem_of_omap; by exists path).
      destruct (omap first_encoding attempted); [by apply elem_of_nil in He | done].
  - rewrite Hok. intros Hf. apply negb_false_iff in Hf. by apply bool_decide_eq_true in Hf.
  - intros path Hin Hex.
    assert (first_encoding path = None) as Hnone by (apply first_encoding_None; by left).
    split; [done|]. apply Hkeep. specialize (Hlog path Hin Hnone).
    unfold_head_in constr:(load_error) Hlog. by rewrite Hex in Hlog.
  - intros path Hin Hex Hnf.
    assert (first_encoding path = None) as Hnone by (apply first_encoding_None; auto).
    split; [done|]. apply Hkeep. specialize (Hlog path Hin Hnone).
    unfold_head_in constr:(load_error) Hlog. by rewrite Hex, Hnf in Hlog.
  - intros Hlen -> Hinv.
    assert (length attempted = 4%nat) as H4.
    { unfold attempted. rewrite length_take, Hlen. reflexivity. }
    assert (length (reference_encodings s') = 2%nat) as H2 by lia.
    split; [|exact H2]. rewrite Hok. by destruct (reference_encodings s').
Qed.

(** ** Stop *)

Lemma deliver_stop sgs (s : State) : SigStop ∈ sgs -> stop_event (deliver sgs s) = true.
Proof.
  revert s. induction sgs as [|sg sgs IH]; intros s Hin; [by apply elem_of_nil in Hin|].
  apply elem_of_cons in Hin as [<-|Hin]; [|by apply IH].
  cbn [deliver fold_left]. destruct (deliver_flags sgs (signal s SigStop)) as (p & q & E & Hq).
  unfold deliver in E. rewrite E. fields. by apply Hq.
Qed.

Lemma deliver_stopped sgs (s : State) :
  stop_event s = true -> stop_event (deliver sgs s) = true.
Proof. intros Hs. destruct (deliver_flags sgs s) as (p & q & -> & Hq). fields. auto. Qed.

(** A pass that finds the stop event set leaves the loop, paused or not,
    without reading a frame. *)
Lemma stopped_iteration v a (s : State) l :
  stop_event s = true -> iteration v a s l = Done (deliver (before_loop_test a) s) l.
Proof.
  intros Hs. unfold iteration. cbv zeta. by rewrite (deliver_stopped _ s Hs).
Qed.

Lemma iteration_stopped v a (s : State) l :
  stop_event s = true -> stop_event (flow_state (iteration v a s l)) = true.
Proof.
  apply (iteration_preserves (fun s' => stop_event s' = true) v); try done.
  - by intros [] s1.
  - intros fo s1. by destruct (clip_write_frame fo s1) as (ws & c & r & ->).
Qed.

Lemma stop_ends_loop v sched d : forall k0 (s : State) l,
  SigStop ∈ before_loop_test (sched (k0 + d)%nat)
  \/ SigStop ∈ before_pause_test (sched (k0 + d)%nat) ->
  exists r, loop (S (S d)) v sched k0 s l = Some r /\ forall s' l', r <> Next s' l'.
Proof.
  induction d as [|d IH]; intros k0 s l Hstop.
  - rewrite Nat.add_0_r in Hstop.
    change (loop 2 v sched k0 s l) with
      (match iteration v (sched k0) s l with
       | Next s' l' =>
           match iteration v (sched (S k0)) s' l' with
           | Next _ _ => None
           | r => Some r
           end
       | r => Some r
       end).
    destruct (iteration v (sched k0) s l) as [s1 l1|s1 l1|s1] eqn:Hit; [|by eauto..].
    assert (stop_event s1 = true) as Hs1.
    { pose proof (iteration_Next _ _ _ _ _ _ Hit) as (Hns & _ & Hcase). cbv zeta in Hcase.
      destruct Hstop as [Hin|Hin]; [by rewrite (deliver_stop _ s Hin) in Hns|].
      pose proof (deliver_stop _ (deliver (before_loop_test (sched k0)) s) Hin) as Hs2.
      destruct Hcase as [(_ & -> & _)|(_ & frame & _ & Hon)]; [exact Hs2|].
      assert (stop_event (flow_state (on_frame v (cap_pos l, frame)
                (deliver (before_pause_test (sched k0))
                   (deliver (before_loop_test (sched k0)) s)) (after_read l))) = true) as H.
      { apply (on_frame_preserves (fun s' => stop_event s' = true) v); try done.
        intros fo s0. by destruct (clip_write_frame fo s0) as (ws & c & r & ->). }
      by rewrite Hon in H. }
    rewrite (stopped_iteration v (sched (S k0)) s1 l1 Hs1). by eauto.
  - change (loop (S (S (S d))) v sched k0 s l) with
      (match iteration v (sched k0) s l with
       | Next s' l' => loop (S (S d)) v sched (S k0) s' l'
       | r => Some r
       end).
    destruct (iteration v (sched k0) s l) as [s1 l1|s1 l1|s1] eqn:Hit; [|by eauto..].
    apply IH. by replace (S k0 + d)%nat with (k0 + S d)%nat by lia.
Qed.

(** While the pause event stays set and nobody stops, the loop polls and
    never ends. *)
Lemma paused_loop_polls v sched fuel : forall k (s : State) l,
  (forall j, sched j = quiet) ->
  pause_event s = true -> stop_event s = false -> current_frame l < total_frames v ->
  loop fuel v sched k s l = None.
Proof.
  induction fuel as [|fuel IH]; intros k s l Hq Hp Hs Hlt; [done|].
  rewrite loop_S. unfold iteration. rewrite Hq.
  cbn [quiet before_loop_test before_pause_test deliver fold_left].
  rewrite Hs, Hp. pose proof Hlt as ->%Z.ltb_lt. cbn [negb andb]. by apply IH.
Qed.

(** C9.  No control call clears the stop event, [resume()] included, and
    no pass of the loop does.  A pass that finds it set leaves the loop
    without reading a frame, whether or not the pause event is set.  So
    when [stop()] arrives during pass [k], at either of the two reads, the
    loop has ended by pass [k + 1], also when it was polling in pause. *)
Theorem stop_is_terminal v sched k0 k (s : State) l :
  (k0 <= k)%nat ->
  SigStop ∈ before_loop_test (sched k) \/ SigStop ∈ before_pause_test (sched k) ->
  (forall sg (s1 : State), stop_event s1 = true -> stop_event (signal s1 sg) = true)
  /\ (forall s1 : State, stop_event (stop s1) = true /\ stop_event (resume (stop s1)) = true)
  /\ (forall a (s1 : State) l1, stop_event s1 = true ->
        stop_event (flow_state (iteration v a s1 l1)) = true
        /\ exists s2, iteration v a s1 l1 = Done s2 l1)
  /\ exists r, loop (S (S (k - k0))) v sched k0 s l = Some r
       /\ (forall s' l', r <> Next s' l').
Proof.
  intros Hk Hstop. split; [|split; [|split]].
  - intros sg s1 Hs. by destruct sg.
  - done.
  - intros a s1 l1 Hs. split; [by apply iteration_stopped|].
    rewrite (stopped_iteration v a s1 l1 Hs). by eauto.
  - apply stop_ends_loop. by replace (k0 + (k - k0))%nat with k by lia.
Qed.

(** ** What a clip holds *)

Lemma grows_refl p (ws : list VideoWriter) : grows p ws ws.
Proof. intros i wr Hi. exists wr, []. by rewrite app_nil_r. Qed.

Lemma grows_trans p p' (ws ws' ws'' : list VideoWriter) :
  (p <= p')%nat -> grows p ws ws' -> grows p' ws' ws'' -> grows p ws ws''.
Proof.
  intros Hp H1 H2 i wr Hi.
  destruct (H1 i wr Hi) as (wr' & e1 & Hi' & E1 & F1).
  destruct (H2 i wr' Hi') as (wr'' & e2 & Hi'' & E2 & F2).
  exists wr'', (e1 ++ e2). split; [done|]. split; [by rewrite E2, E1, app_assoc|].
  apply Forall_app. split; [done|]. eapply Forall_impl; [exact F2|].
  intros fo Hfo. cbn beta in Hfo |- *. lia.
Qed.

Lemma grows_app p (ws news : list VideoWriter) : grows p ws (ws ++ news).
Proof.
  intros i wr Hi. exists wr, []. rewrite app_nil_r.
  split; [by apply lookup_app_l_Some | done].
Qed.

Lemma grows_alter p (f : VideoWriter -> VideoWriter) w (ws : list VideoWriter) :
  (forall wr, exists extra, vw_frames (f wr) = vw_frames wr ++ extra
                /\ Forall (fun fo : FrameObj => (p <= fst fo)%nat) extra) ->
  grows p ws (alter f w ws).
Proof.
  intros Hf i wr Hi. destruct (decide (w = i)) as [->|Hne].
  - destruct (Hf wr) as (extra & E & F). exists (f wr), extra.
    by rewrite list_lookup_alter_eq, Hi.
  - exists wr, []. by rewrite list_lookup_alter_ne, app_nil_r.
Qed.

Lemma vw_write_grows (fo : FrameObj) (wr : VideoWriter) :
  exists extra, vw_frames (vw_write fo wr) = vw_frames wr ++ extra
    /\ Forall (fun fo' : FrameObj => (fst fo <= fst fo')%nat) extra.
Proof.
  unfold vw_write. destruct (vw_releases wr).
  - exists [fo]. split; [done|]. by apply Forall_singleton.
  - exists []. by rewrite app_nil_r.
Qed.

Lemma vw_release_grows p (wr : VideoWriter) :
  exists extra, vw_frames (vw_release wr) = vw_frames wr ++ extra
    /\ Forall (fun fo' : FrameObj => (p <= fst fo')%nat) extra.
Proof. exists []. by rewrite app_nil_r. Qed.

Lemma clip_write_grows (fo : FrameObj) (s : State) :
  grows (fst fo) (writers s) (writers (clip_write fo s))
  /\ length (writers (clip_write fo s)) = length (writers s).
Proof.
  unfold clip_write. destruct (current_clip_writer s) as [w|]; [|split; [apply grows_refl|done]].
  cbv zeta. destruct (_ <=? 0); fields.
  - split; [|by rewrite !length_alter].
    eapply grows_trans; [reflexivity| |];
      apply grows_alter; [apply vw_write_grows | apply vw_release_grows].
  - split; [|by rewrite length_alter]. apply grows_alter, vw_write_grows.
Qed.

(** The faces of a frame only add writers, and those are empty. *)
Lemma process_faces_writers v fo faces (s : State) l :
  exists news, writers (step_state (process_faces v fo faces s l)) = writers s ++ news
    /\ Forall (fun wr : VideoWriter => vw_frames wr = []) news.
Proof.
  apply (process_faces_preserves
    (fun s' => exists news, writers s' = writers s ++ news
                 /\ Forall (fun wr : VideoWriter => vw_frames wr = []) news) v).
  - done.
  - done.
  - intros shape s1 (news & E & F) _. exists (news ++ [new_writer shape (fps v)]).
    rewrite start_video_clip_eq. fields. rewrite E, app_assoc. split; [done|].
    apply Forall_app. split; [done|]. by apply Forall_singleton.
  - exists []. by rewrite app_nil_r.
Qed.

Lemma deliver_writers sgs (s : State) : writers (deliver sgs s) = writers s.
Proof. by destruct (deliver_flags sgs s) as (p & q & -> & _). Qed.

Lemma notify_writers v fo l (s : State) : writers (notify cfg v fo l s) = writers s.
Proof. by destruct (notify_frame v fo l s) as [cbs ->]. Qed.

Lemma on_frame_grows v fo (s : State) l :
  grows (fst fo) (writers s) (writers (flow_state (on_frame v fo s l))).
Proof.
  destruct (clip_write_grows fo s) as [Hclip _]. unfold on_frame.
  destruct (frame_skip cfg =? 0); [exact Hclip|].
  destruct (negb _); [exact Hclip|].
  destruct (face_analysis (snd fo)) as [faces|]; [|exact Hclip].
  destruct (process_faces_writers v fo faces (clip_write fo s) l) as (news & E & _).
  eapply grows_trans; [reflexivity|exact Hclip|].
  destruct (process_faces _ _ _ _ _) as [s1 l1|s1]; cbn [flow_state step_state] in *;
    rewrite ?notify_writers, E; apply grows_app.
Qed.

Lemma iteration_grows v a (s : State) l :
  grows (cap_pos l) (writers s) (writers (flow_state (iteration v a s l))).
Proof.
  unfold iteration. cbv zeta.
  destruct (negb _ && _); [|cbn [flow_state]; rewrite deliver_writers; apply grows_refl].
  destruct (pause_event _); [cbn [flow_state]; rewrite !deliver_writers; apply grows_refl|].
  destruct (frames v !! cap_pos l) as [frame|];
    [|cbn [flow_state]; rewrite !deliver_writers; apply grows_refl].
  rewrite <- (deliver_writers (before_loop_test a) s).
  rewrite <- (deliver_writers (before_pause_test a) (deliver (before_loop_test a) s)).
  apply (on_frame_grows v (cap_pos l, frame)).
Qed.

(** Only a pass that reads a frame opens a writer, and the writer is empty
    when the pass ends. *)
Lemma iteration_opens v a (s s1 : State) l l1 :
  iteration v a s l = Next s1 l1 ->
  (cap_pos l <= cap_pos l1)%nat
  /\ forall w wr, (length (writers s) <= w)%nat -> writers s1 !! w = Some wr ->
       vw_frames wr = []
       /\ cap_pos l1 = S (cap_pos l)
       /\ exists frame, frames v !! cap_pos l = Some frame.
Proof.
  intros Hit. apply iteration_Next in Hit as (_ & _ & Hcase). cbv zeta in Hcase.
  destruct Hcase as [(_ & -> & ->)|(_ & frame & Hf & Hon)].
  - split; [done|]. intros w wr Hw Hl. rewrite !deliver_writers in Hl.
    apply lookup_lt_Some in Hl. lia.
  - set (s2 := deliver (before_pause_test a) (deliver (before_loop_test a) s)) in *.
    assert (length (writers s2) = length (writers s)) as Hlen
      by (unfold s2; by rewrite !deliver_writers).
    destruct (clip_write_grows (cap_pos l, frame) s2) as [_ Hlen2].
    apply on_frame_Next in Hon
      as [_ [(_ & -> & ->)|(_ & faces & s3 & l3 & _ & Hpf & -> & ->)]].
    + split; [cbn; lia|]. intros w wr Hw Hl. apply lookup_lt_Some in Hl. lia.
    + pose proof (process_faces_quiet _ _ _ _ _ _ _ Hpf) as (_ & _ & Hcap).
      destruct (process_faces_writers v (cap_pos l, frame) faces
                  (clip_write (cap_pos l, frame) s2) (after_read l)) as (news & E & F).
      rewrite Hpf in E. cbn [step_state] in E.
      cbn [cap_pos advance after_read] in *. split; [lia|].
      intros w wr Hw Hl. rewrite notify_writers, E in Hl.
      rewrite lookup_app_r in Hl by lia.
      split; [|split; [done | by exists frame]].
      eapply Forall_forall in F; [exact F|]. by eapply list_elem_of_lookup_2.
Qed.

Lemma passes_grows v sched m : forall k (s1 s2 : State) l1 l2,
  passes v sched k m s1 l1 = Some (s2, l2) ->
  grows (cap_pos l1) (writers s1) (writers s2) /\ (cap_pos l1 <= cap_pos l2)%nat.
Proof.
  induction m as [|m IH]; intros k s1 s2 l1 l2 Hp; cbn in Hp.
  - injection Hp as <- <-. split; [apply grows_refl | done].
  - destruct (iteration v (sched k) s1 l1) as [s l| |] eqn:Hit; try discriminate.
    destruct (IH _ _ _ _ _ Hp) as [Hg Hc].
    pose proof (iteration_grows v (sched k) s1 l1) as Hg1. rewrite Hit in Hg1.
    destruct (iteration_opens _ _ _ _ _ _ Hit) as [Hc1 _].
    split; [|lia]. eapply grows_trans; [exact Hc1 | exact Hg1 | exact Hg].
Qed.

(** C10.  When a pass opens a writer, it is the pass that read the
    triggering frame; the writer is empty at the end of that pass, and at
    every later point of the run, ended or not, it holds only frames read
    after the triggering one.  The triggering frame is never in it. *)
Theorem triggering_frame_not_in_clip v sched k m a (s s1 s2 : State) l l1 l2 w :
  iteration v a s l = Next s1 l1 ->
  (length (writers s) <= w < length (writers s1))%nat ->
  passes v sched k m s1 l1 = Some (s2, l2) ->
  exists frame wr1 wr2,
    frames v !! cap_pos l = Some frame
    /\ writers s1 !! w = Some wr1 /\ vw_frames wr1 = []
    /\ writers s2 !! w = Some wr2
    /\ Forall (fun fo : FrameObj => (cap_pos l < fst fo)%nat) (vw_frames wr2)
    /\ ((cap_pos l, frame) ∉ vw_frames wr2)
    /\ forall a' wr3, writers (flow_state (iteration v a' s2 l2)) !! w = Some wr3 ->
         Forall (fun fo : FrameObj => (cap_pos l < fst fo)%nat) (vw_frames wr3).
Proof.
  intros Hit [Hnew Hlt] Hp.
  destruct (lookup_lt_is_Some_2 _ _ Hlt) as [wr1 Hwr1].
  destruct (iteration_opens _ _ _ _ _ _ Hit) as [_ Hopen].
  destruct (Hopen w wr1 Hnew Hwr1) as (Hempty & Hcap & frame & Hframe).
  destruct (passes_grows _ _ _ _ _ _ _ _ Hp) as [Hg Hmono].
  destruct (Hg w wr1 Hwr1) as (wr2 & extra & Hwr2 & E2 & F2).
  rewrite Hempty in E2. cbn [app] in E2.
  assert (Forall (fun fo : FrameObj => (cap_pos l < fst fo)%nat) (vw_frames wr2)) as Hlater.
  { rewrite E2. eapply Forall_impl; [exact F2|]. intros fo Hfo. cbn beta in Hfo |- *. lia. }
  exists frame, wr1, wr2. repeat split; try done.
  - intros Hin. eapply Forall_forall in Hlater; [|exact Hin]. cbn in Hlater. lia.
  - intros a' wr3 Hwr3.
    destruct (iteration_grows v a' s2 l2 w wr2 Hwr2) as (wr3' & extra3 & Hwr3' & E3 & F3).
    rewrite Hwr3 in Hwr3'. injection Hwr3' as <-. rewrite E3. apply Forall_app. split; [done|].
    eapply Forall_impl; [exact F3|]. intros fo Hfo. cbn beta in Hfo |- *. lia.
Qed.

(** * Further properties of the engine *)

(** ** The cases of one pass *)

Lemma iteration_cases v a (s : State) l :
  let s1 := deliver (before_loop_test a) s in
  let s2 := deliver (before_pause_test a) s1 in
  iteration v a s l = Done s1 l
  \/ (stop_event s1 = false /\ current_frame l < total_frames v /\
      ((pause_event s2 = true /\ iteration v a s l = Next s2 l)
       \/ (pause_event s2 = false /\ frames v !! cap_pos l = None
           /\ iteration v a s l = Done s2 l)
       \/ (pause_event s2 = false /\ exists frame, frames v !! cap_pos l = Some frame
           /\ iteration v a s l = on_frame v (cap_pos l, frame) s2 (after_read l)))).
Proof.
  unfold iteration. cbv zeta.
  destruct (stop_event (deliver (before_loop_test a) s)) eqn:Hs; cbn [negb andb]; [by left|].
  destruct (current_frame l <? total_frames v) eqn:Hlt; [|by left].
  apply Z.ltb_lt in Hlt. right. split; [done|]. split; [done|].
  destruct (pause_event _) eqn:Hp; [by left|]. right.
  destruct (frames v !! cap_pos l) as [frame|]; [right; by eauto | by left].
Qed.

Lemma process_faces_cons v fo face faces (s : State) l :
  process_faces v fo (face :: faces) s l =
  match process_face v fo face s l with
  | Ok s' l' => process_faces v fo faces s' l'
  | Exn s' => Exn s'
  end.
Proof. reflexivity. Qed.

(** What one face does: nothing, an exception before anything is
    recorded, or one record and one trajectory point. *)
Lemma process_face_cases v fo face (s : State) l :
  let verdict := match_face (reference_encodings s) (snd face) in
  (fst verdict = false /\ process_face v fo face s l = Ok s l)
  \/ (fst verdict = true /\
      ((exists s', process_face v fo face s l = Exn s'
          /\ report_data s' = report_data s /\ matches s' = matches s
          /\ reference_encodings s' = reference_encodings s
          /\ callbacks s' = callbacks s)
       \/ (exists s' l' info,
             process_face v fo face s l = Ok s' l'
             /\ report_data s' = report_data s ++ [info]
             /\ matches s' = matches s ++ [info]
             /\ detection_path s' = detection_path s ++ [center (fst face)]
             /\ reference_encodings s' = reference_encodings s
             /\ callbacks s' = callbacks s
             /\ di_frame info = current_frame l
             /\ di_seconds info = (inject_Z (current_frame l) / fps v)%Q
             /\ di_confidence info = snd verdict
             /\ exists drawn,
                  l' = {| cap_pos := cap_pos l; current_frame := current_frame l;
                          match_count := match_count l + 1; annotations := drawn |}))).
Proof.
  cbv zeta. unfold_head constr:(process_face v fo face s l).
  destruct (match_face (reference_encodings s) (snd face)) as [[] c]; cbn [fst snd];
    [right; split; [done|] | by left].
  unfold_head constr:(record_match v fo (fst face) c s l).
  destruct (_detect_mask (snd fo) (annotations l) (fst face)) as [has_mask|];
    [|left; by eexists].
  cbv zeta. destruct (Qeq_bool (fps v) 0); [left; by eexists|].
  right. do 3 eexists. split; [reflexivity|].
  destruct (current_clip_writer _); rewrite ?start_video_clip_eq;
    (repeat (split; [done|])); by eexists.
Qed.

(** ** Records *)

Lemma process_faces_appends v fo faces : forall (s : State) l,
  exists new,
    report_data (step_state (process_faces v fo faces s l)) = report_data s ++ new
    /\ reference_encodings (step_state (process_faces v fo faces s l)) = reference_encodings s
    /\ Forall (recorded_at v (reference_encodings s) (current_frame l)) new.
Proof.
  induction faces as [|face faces IH]; intros s l.
  - exists []. by rewrite app_nil_r.
  - rewrite process_faces_cons.
    destruct (process_face_cases v fo face s l)
      as [[_ ->]|[Hv [(s' & -> & Hr & _ & He & _)
                     |(s' & l' & info & -> & Hr & _ & _ & He & _ & Hf & Hs & Hc
                       & drawn & ->)]]].
    + apply IH.
    + exists []. by rewrite app_nil_r.
    + destruct (IH s' {| cap_pos := cap_pos l; current_frame := current_frame l;
                         match_count := match_count l + 1; annotations := drawn |})
        as (new & Hr' & He' & Hall).
      exists (info :: new). rewrite Hr', Hr, He', He, <- app_assoc. split; [done|].
      split; [done|]. rewrite He in Hall. apply Forall_cons. split; [|exact Hall].
      split; [done|]. split; [done|]. by exists (snd face).
Qed.

Lemma deliver_report_data sgs (s : State) : report_data (deliver sgs s) = report_data s.
Proof. by destruct (deliver_flags sgs s) as (p & q & -> & _). Qed.

Lemma deliver_reference_encodings sgs (s : State) :
  reference_encodings (deliver sgs s) = reference_encodings s.
Proof. by destruct (deliver_flags sgs s) as (p & q & -> & _). Qed.

Lemma on_frame_records v fo (s : State) l :
  exists new,
    report_data (flow_state (on_frame v fo s l)) = report_data s ++ new
    /\ reference_encodings (flow_state (on_frame v fo s l)) = reference_encodings s
    /\ Forall (recorded_at v (reference_encodings s) (current_frame l)) new
    /\ (new <> [] -> current_frame l mod frame_skip cfg = 0).
Proof.
  destruct (clip_write_frame fo s) as (ws & c & r & Hclip).
  assert (exists new, report_data (clip_write fo s) = report_data s ++ new
            /\ reference_encodings (clip_write fo s) = reference_encodings s
            /\ Forall (recorded_at v (reference_encodings s) (current_frame l)) new
            /\ (new <> [] -> current_frame l mod frame_skip cfg = 0)) as Hnone.
  { exists []. rewrite Hclip, app_nil_r. by repeat split. }
  unfold_head constr:(on_frame v fo s l).
  destruct (frame_skip cfg =? 0); [exact Hnone|].
  destruct (current_frame l mod frame_skip cfg =? 0) eqn:Hsel; cbn [negb]; [|exact Hnone].
  apply Z.eqb_eq in Hsel.
  destruct (face_analysis (snd fo)) as [faces|]; [|exact Hnone].
  destruct (process_faces_appends v fo faces (clip_write fo s) l) as (new & Hr & He & Hall).
  assert (report_data (clip_write fo s) = report_data s
          /\ reference_encodings (clip_write fo s) = reference_encodings s) as [Hrd Hre]
    by (by rewrite Hclip).
  exists new. rewrite Hrd in Hr. rewrite Hre in He, Hall.
  destruct (process_faces v fo faces (clip_write fo s) l) as [s1 l1|s1];
    cbn [step_state flow_state] in *.
  - destruct (notify_frame v fo l1 s1) as [cbs ->]. fields. by repeat split.
  - by repeat split.
Qed.

Lemma iteration_records v a (s : State) l :
  exists new,
    report_data (flow_state (iteration v a s l)) = report_data s ++ new
    /\ reference_encodings (flow_state (iteration v a s l)) = reference_encodings s
    /\ Forall (recorded_at v (reference_encodings s) (current_frame l)) new
    /\ (new <> [] ->
        current_frame l < total_frames v /\ current_frame l mod frame_skip cfg = 0).
Proof.
  destruct (deliver_flags (before_loop_test a) s) as (p1 & q1 & E1 & _).
  destruct (deliver_flags (before_pause_test a) (deliver (before_loop_test a) s))
    as (p2 & q2 & E2 & _).
  pose proof (iteration_cases v a s l) as Hcases. cbv zeta in Hcases.
  assert (forall s', (s' = deliver (before_loop_test a) s
                      \/ s' = deliver (before_pause_test a) (deliver (before_loop_test a) s)) ->
            exists new : list DetectionInfo, report_data s' = report_data s ++ new
              /\ reference_encodings s' = reference_encodings s
              /\ Forall (recorded_at v (reference_encodings s) (current_frame l)) new
              /\ (new <> [] -> current_frame l < total_frames v
                               /\ current_frame l mod frame_skip cfg = 0)) as Hnone.
  { intros s' Hs'. exists []. rewrite app_nil_r.
    destruct Hs' as [->| ->]; rewrite ?E2, E1; by repeat split. }
  destruct Hcases as [->|(_ & Hlt & [[_ ->]|[(_ & _ & ->)|(_ & frame & _ & ->)]])];
    cbn [flow_state]; try (apply Hnone; by auto).
  destruct (on_frame_records v (cap_pos l, frame)
              (deliver (before_pause_test a) (deliver (before_loop_test a) s)) (after_read l))
    as (new & Hr & He & Hall & Hsel).
  exists new. rewrite !deliver_report_data in Hr.
  rewrite !deliver_reference_encodings in He, Hall.
  split; [done|]. split; [done|]. split; [done|]. intros Hne. split; [done | by apply Hsel].
Qed.

Lemma iteration_advances v a (s s' : State) l l' :
  iteration v a s l = Next s' l' ->
  current_frame l <= current_frame l' <= current_frame l + 1
  /\ (cap_pos l <= cap_pos l' <= S (cap_pos l))%nat
  /\ Z.of_nat (cap_pos l') - current_frame l' = Z.of_nat (cap_pos l) - current_frame l.
Proof.
  intros Hit. apply iteration_Next in Hit as (_ & _ & Hcase). cbv zeta in Hcase.
  destruct Hcase as [(_ & _ & ->)|(_ & frame & _ & Hon)]; [lia|].
  apply on_frame_Next in Hon
    as [_ [(_ & _ & ->)|(_ & faces & s1 & l1 & _ & Hpf & _ & ->)]];
    [cbn; lia|].
  apply process_faces_quiet in Hpf as (_ & Hcf & Hcp). cbn in *. lia.
Qed.

Lemma sorted_app {A} (R : A -> A -> Prop) (l1 l2 : list A) :
  StronglySorted R l1 -> StronglySorted R l2 ->
  (forall x y, x ∈ l1 -> y ∈ l2 -> R x y) -> StronglySorted R (l1 ++ l2).
Proof.
  induction 1 as [|x l1 Hs IH Hx]; intros H2 Hcross; [exact H2|].
  cbn [app]. constructor.
  - apply IH; [exact H2|]. intros x' y Hx' Hy. apply Hcross; [by apply list_elem_of_further|done].
  - apply Forall_app. split; [exact Hx|]. apply Forall_forall. intros y Hy.
    apply Hcross; [apply list_elem_of_here | done].
Qed.

Lemma sorted_same_frame c (l : list DetectionInfo) :
  Forall (fun d => di_frame d = c) l ->
  StronglySorted (fun d1 d2 => di_frame d1 <= di_frame d2) l.
Proof.
  induction 1 as [|d l Hd Hl IH]; constructor; [exact IH|].
  eapply Forall_impl; [exact Hl|]. intros d' Hd'. cbn beta in *. lia.
Qed.

(** The records a loop appends, from any pass on. *)
Lemma loop_records fuel v sched : forall k (s : State) l r,
  loop fuel v sched k s l = Some r ->
  exists new,
    report_data (flow_state r) = report_data s ++ new
    /\ reference_encodings (flow_state r) = reference_encodings s
    /\ Forall (fun d => current_frame l <= di_frame d < total_frames v
                        /\ di_frame d mod frame_skip cfg = 0
                        /\ recorded_at v (reference_encodings s) (di_frame d) d) new
    /\ StronglySorted (fun d1 d2 => di_frame d1 <= di_frame d2) new.
Proof.
  induction fuel as [|fuel IH]; intros k s l r Hl; [discriminate|].
  rewrite loop_S in Hl.
  destruct (iteration_records v (sched k) s l) as (new1 & Hr1 & He1 & Hall1 & Hsel1).
  assert (Forall (fun d => current_frame l <= di_frame d < total_frames v
                           /\ di_frame d mod frame_skip cfg = 0
                           /\ recorded_at v (reference_encodings s) (di_frame d) d) new1
          /\ Forall (fun d => di_frame d = current_frame l) new1) as [Hgood1 Hsame1].
  { destruct new1 as [|d new1]; [by split|]. destruct Hsel1 as [Hlt Hmod]; [done|].
    split; (eapply Forall_impl; [exact Hall1|]); intros d' Hd'; cbn beta.
    - pose proof Hd' as (Hf & _). rewrite Hf. split; [lia|]. by split.
    - by destruct Hd'. }
  destruct (iteration v (sched k) s l) as [s1 l1|s1 l1|s1] eqn:Hit; cbn [flow_state] in *.
  - destruct (IH _ _ _ _ Hl) as (new2 & Hr2 & He2 & Hall2 & Hsort2).
    apply iteration_advances in Hit as ((Hcf & _) & _).
    exists (new1 ++ new2). rewrite Hr2, Hr1, He2, He1, <- app_assoc.
    split; [done|]. split; [done|]. split.
    + apply Forall_app. split; [exact Hgood1|]. rewrite He1 in Hall2.
      eapply Forall_impl; [exact Hall2|]. intros d Hd. cbn beta in *.
      destruct Hd as (? & ? & ?). split; [lia|]. by split.
    + apply sorted_app; [by eapply sorted_same_frame | exact Hsort2 |].
      intros x y Hx Hy. eapply Forall_forall in Hsame1; [|exact Hx].
      eapply Forall_forall in Hall2; [|exact Hy]. cbn beta in *. lia.
  - injection Hl as <-. exists new1. cbn [flow_state].
    split; [done|]. split; [done|]. split; [done|]. by eapply sorted_same_frame.
  - injection Hl as <-. exists new1. cbn [flow_state].
    split; [done|]. split; [done|]. split; [done|]. by eapply sorted_same_frame.
Qed.

Lemma process_video_records fuel v sched (s : State) o :
  process_video fuel (Some v) sched s = Some o ->
  exists r, loop fuel v sched 0 s entry = Some r
    /\ report_data (outcome_state o) = report_data (flow_state r)
    /\ reference_encodings (outcome_state o) = reference_encodings (flow_state r).
Proof.
  unfold_head constr:(process_video fuel (Some v) sched s).
  destruct (loop fuel v sched 0 s entry) as [[s1 l1|s1 l1|s1]|]; try discriminate;
    intros [= <-]; eexists; (split; [reflexivity|]); cbn [outcome_state flow_state];
    try destruct (generate_report_frame s1) as [lg ->]; by split.
Qed.

(** X1.  The records a run appends to the history, whether the run returns
    or is aborted, carry the indices of sampled frames only: each index is
    at least 0, below the frame count of the video and a multiple of the
    stride, the elapsed time is the index over the frame rate, and the
    indices never decrease along the history. *)
Theorem history_frames_sampled_and_sorted fuel v sched (s : State) o :
  process_video fuel (Some v) sched s = Some o ->
  exists new,
    report_data (outcome_state o) = report_data s ++ new
    /\ Forall (fun d => 0 <= di_frame d < total_frames v
                        /\ di_frame d mod frame_skip cfg = 0
                        /\ di_seconds d = (inject_Z (di_frame d) / fps v)%Q) new
    /\ StronglySorted (fun d1 d2 => di_frame d1 <= di_frame d2) new.
Proof.
  intros (r & Hl & Hr & _)%process_video_records.
  destruct (loop_records _ _ _ _ _ _ _ Hl) as (new & Hr' & _ & Hall & Hsort).
  exists new. rewrite Hr, Hr'. split; [done|]. split; [|done].
  eapply Forall_impl; [exact Hall|]. intros d (Hb & Hm & _ & Hs & _).
  unfold entry in Hb. cbn [current_frame] in Hb. split; [lia|]. by split.
Qed.

Lemma match_face_bounds refs enc :
  fst (match_face refs enc) = true ->
  (0 <= snd (match_face refs enc))%Q
  /\ (1 - confidence_threshold cfg <= snd (match_face refs enc))%Q
  /\ ((forall a b, 0 <= face_distance a b)%Q -> (snd (match_face refs enc) <= 1)%Q).
Proof.
  intros Hv. pose proof (match_fold enc refs false 0%Q) as H. cbv zeta in H.
  change (fold_left _ refs (false, 0%Q)) with (match_face refs enc) in H.
  destruct H as (Hb & Hc & Hall & Hatt).
  apply Hb in Hv as [?|(ref & Hin & Hq)]; [done|].
  split; [exact Hc|]. split.
  - eapply Qle_trans; [|by apply (Hall ref)]. pose proof Hq as [_ Hd].
    unfold Qminus. apply Qplus_le_r. by apply Qopp_le_compat.
  - intros Hpos. destruct Hatt as [->|(ref' & _ & _ & ->)]; [done|].
    unfold Qminus. rewrite <- (Qplus_0_r 1) at 2. apply Qplus_le_r.
    change 0%Q with (- 0)%Q. apply Qopp_le_compat, Hpos.
Qed.

(** X2.  The confidence of every record a run appends is at least 0 and at
    least 1 less the threshold; it is at most 1 when the face service
    gives no negative distance. *)
Theorem record_confidence_bounds fuel v sched (s : State) o :
  process_video fuel (Some v) sched s = Some o ->
  exists new,
    report_data (outcome_state o) = report_data s ++ new
    /\ Forall (fun d => (0 <= di_confidence d)%Q
                        /\ (1 - confidence_threshold cfg <= di_confidence d)%Q
                        /\ ((forall a b, 0 <= face_distance a b)%Q ->
                            (di_confidence d <= 1)%Q)) new.
Proof.
  intros (r & Hl & Hr & _)%process_video_records.
  destruct (loop_records _ _ _ _ _ _ _ Hl) as (new & Hr' & _ & Hall & _).
  exists new. rewrite Hr, Hr'. split; [done|].
  eapply Forall_impl; [exact Hall|].
  intros d (_ & _ & _ & _ & enc & Hv & ->). by apply match_face_bounds.
Qed.

(** ** Properties of every state the public methods produce *)

Lemma usable_preserved (P : State -> Prop) :
  P init ->
  (forall refs s, P s -> P (set_reference_encodings refs s)) ->
  (forall lg s, P s -> P (set_log lg s)) ->
  (forall sg s, P s -> P (signal s sg)) ->
  (forall fo s, P s -> P (clip_write fo s)) ->
  (forall x s, P s -> P (set_detection_path x s)) ->
  (forall i s,
     P s -> P (set_report_data (report_data s ++ [i]) (set_matches (matches s ++ [i]) s))) ->
  (forall f shape s,
     P s -> current_clip_writer s = None -> P (_start_video_clip shape f s)) ->
  (forall cbs s, P s -> P (set_callbacks cbs s)) ->
  (forall rp s, P s -> P (set_reports rp s)) ->
  forall s, usable s -> P s.
Proof.
  intros Hinit Hrefs Hlog Hsig Hclip Hpath Hinfo Hstart Hcb Hrep s.
  induction 1 as [|paths s _ IH|sg s _ IH|fuel video sched s o _ IH Hrun].
  - exact Hinit.
  - destruct (load_reference_images_frame paths s) as (refs & lg & ->). auto.
  - auto.
  - revert Hrun. unfold_head constr:(process_video fuel video sched s).
    destruct video as [v|]; [|intros [= <-]; by apply Hlog].
    destruct (loop fuel v sched 0 s entry) as [r|] eqn:Hl; [|done].
    apply (loop_preserves P v) in Hl; auto.
    destruct r as [s1 l1|s1 l1|s1]; intros [= <-]; cbn [flow_state outcome_state] in *;
      [|exact Hl].
    destruct (generate_report_frame s1) as [lg ->]. by apply Hlog, Hlog, Hrep.
Qed.

(** X3.  The two histories the engine keeps, [matches] and [report_data],
    are the same list in every state the public methods produce. *)
Theorem parallel_histories_agree (s : State) : usable s -> matches s = report_data s.
Proof.
  apply (usable_preserved (fun s => matches s = report_data s)); try done.
  - by intros [] s0.
  - intros fo s0. by destruct (clip_write_frame fo s0) as (ws & c & r & ->).
  - intros i s0 E. fields. by rewrite E.
Qed.

(** ** The trajectory *)

Lemma deliver_detection_path sgs (s : State) :
  detection_path (deliver sgs s) = detection_path s.
Proof. by destruct (deliver_flags sgs s) as (p & q & -> & _). Qed.

Lemma clip_write_detection_path fo (s : State) :
  detection_path (clip_write fo s) = detection_path s.
Proof. by destruct (clip_write_frame fo s) as (ws & c & r & ->). Qed.

Lemma iteration_trajectory (s0 : State) v a (s s' : State) l l' :
  (exists pts, detection_path s = detection_path s0 ++ pts
     /\ Z.of_nat (length pts) = match_count l) ->
  iteration v a s l = Next s' l' ->
  exists pts, detection_path s' = detection_path s0 ++ pts
    /\ Z.of_nat (length pts) = match_count l'.
Proof.
  intros Hinv Hit. apply iteration_Next in Hit as (_ & _ & Hcase). cbv zeta in Hcase.
  destruct Hcase as [(_ & -> & ->)|(_ & frame & _ & Hon)];
    [by rewrite !deliver_detection_path|].
  apply on_frame_Next in Hon
    as [_ [(_ & -> & ->)|(_ & faces & s1 & l1 & _ & Hpf & -> & ->)]].
  - by rewrite clip_write_detection_path, !deliver_detection_path.
  - destruct (notify_frame v (cap_pos l, frame) l1 s1) as [cbs ->].
    cbn [detection_path set_callbacks match_count advance].
    revert Hpf. apply (process_faces_invariant (fun s2 l2 =>
      exists pts, detection_path s2 = detection_path s0 ++ pts
        /\ Z.of_nat (length pts) = match_count l2)).
    + intros face s2 l2 s3 l3 (pts & Hp & Hn) Hf.
      destruct (process_face_cases v (cap_pos l, frame) face s2 l2)
        as [[_ E]|[_ [(s4 & E & _)
                     |(s4 & l4 & info & E & _ & _ & Hpath & _ & _ & _ & _ & _ & drawn & ->)]]];
        rewrite E in Hf; [injection Hf as <- <-; by exists pts | discriminate |].
      injection Hf as <- <-. exists (pts ++ [center (fst face)]).
      rewrite Hpath, Hp, <- app_assoc, length_app. split; [done|]. cbn. lia.
    + by rewrite clip_write_detection_path, !deliver_detection_path.
Qed.

(** X4.  A run that returns [n] has appended [n] points to the trajectory:
    one per confirmed match, none otherwise. *)
Theorem trajectory_grows_with_matches fuel v sched (s : State) n s' :
  process_video fuel (Some v) sched s = Some (Returned n s') ->
  exists pts, detection_path s' = detection_path s ++ pts /\ Z.of_nat (length pts) = n.
Proof.
  unfold_head constr:(process_video fuel (Some v) sched s).
  destruct (loop fuel v sched 0 s entry) as [[s1 l1|s1 l1|s1]|] eqn:Hl; try discriminate.
  intros [= <- <-].
  apply loop_ends in Hl as (k & s2 & l2 & Hp & Hlast & _).
  apply iteration_Done in Hlast as (-> & p & q & ->).
  report_frame. fields.
  revert Hp. apply (passes_invariant (fun s3 l3 =>
    exists pts, detection_path s3 = detection_path s ++ pts
      /\ Z.of_nat (length pts) = match_count l3)).
  - intros a s3 l3 s4 l4. apply iteration_trajectory.
  - exists []. by rewrite app_nil_r.
Qed.

(** ** After stop *)

(** X5.  Nothing clears the stop event: once it is set, loading, control
    calls and runs all leave it set, and every later run on an opened video
    returns 0 in its first pass, reading no frame and invoking no callback;
    it writes a report of the history as it was when the report file can
    be written, and none when it cannot. *)
Theorem stopped_engine_never_runs_again (s : State) :
  stop_event s = true ->
  (forall paths, stop_event (fst (load_reference_images paths s)) = true)
  /\ (forall sg, stop_event (signal s sg) = true)
  /\ (forall fuel video sched o,
        process_video fuel video sched s = Some o -> stop_event (outcome_state o) = true)
  /\ (forall fuel v sched,
        exists s', process_video (S fuel) (Some v) sched s = Some (Returned 0 s')
          /\ report_data s' = report_data s /\ callbacks s' = callbacks s
          /\ writers s' = writers s /\ detection_path s' = detection_path s
          /\ reports s' = if report_writable (deliver (before_loop_test (sched 0%nat)) s)
                          then reports s ++ [report_data s] else reports s).
Proof.
  intros Hs. split; [|split; [|split]].
  - intros paths. by destruct (load_reference_images_frame paths s) as (refs & lg & ->).
  - intros sg. by destruct sg.
  - intros fuel video sched o. unfold_head constr:(process_video fuel video sched s).
    destruct video as [v|]; [|by intros [= <-]].
    destruct (loop fuel v sched 0 s entry) as [r|] eqn:Hl; [|done].
    apply (loop_preserves (fun s' => stop_event s' = true) v) in Hl; try done.
    + destruct r as [s1 l1|s1 l1|s1]; intros [= <-]; [|exact Hl].
      cbn [outcome_state]. report_frame. exact Hl.
    + by intros [] s1.
    + intros fo s1. by destruct (clip_write_frame fo s1) as (ws & c & r' & ->).
  - intros fuel v sched. unfold_head constr:(process_video (S fuel) (Some v) sched s).
    rewrite loop_S, (stopped_iteration v (sched 0%nat) s entry Hs).
    eexists. split; [reflexivity|]. report_frame.
    destruct (report_writable (deliver (before_loop_test (sched 0%nat)) s));
      destruct (deliver_flags (before_loop_test (sched 0%nat)) s) as (p & q & -> & _);
      fields; by repeat split.
Qed.

(** ** While paused *)

Lemma passes_S v sched k n (s : State) l :
  passes v sched k (S n) s l =
  match iteration v (sched k) s l with
  | Next s' l' => passes v sched (S k) n s' l'
  | _ => None
  end.
Proof. reflexivity. Qed.

(** X6.  While the pause event is set, the stop event is not, frames are
    left and no control call arrives, a pass reads no frame and changes
    nothing, however many passes are made, and the loop does not end.  When
    [resume()] then arrives, the pass reads the frame at the position the
    capture was left at. *)
Theorem paused_engine_reads_nothing v sched k (s : State) l :
  pause_event s = true -> stop_event s = false -> current_frame l < total_frames v ->
  (forall j, sched j = quiet) ->
  (forall n, passes v sched k n s l = Some (s, l))
  /\ (forall fuel, loop fuel v sched k s l = None)
  /\ (forall frame, frames v !! cap_pos l = Some frame ->
        iteration v {| before_loop_test := [SigResume]; before_pause_test := [] |} s l
        = on_frame v (cap_pos l, frame) (resume s) (after_read l)).
Proof.
  intros Hp Hs Hlt Hq. split; [|split].
  - intros n. revert k. induction n as [|n IH]; intros k; [done|].
    rewrite passes_S.
    replace (iteration v (sched k) s l) with (Next s l); [apply IH|].
    unfold iteration. rewrite Hq. cbn [quiet before_loop_test before_pause_test deliver
      fold_left]. rewrite Hs, Hp. by pose proof Hlt as ->%Z.ltb_lt.
  - intros fuel. by apply paused_loop_polls.
  - intros frame Hf. unfold iteration.
    cbn [before_loop_test before_pause_test deliver fold_left signal].
    unfold resume at 1 2. fields. rewrite Hs. pose proof Hlt as ->%Z.ltb_lt.
    cbn [negb andb]. by rewrite Hf.
Qed.

(** ** What the callbacks are given *)

Lemma process_faces_callbacks v fo faces (s : State) l :
  callbacks (step_state (process_faces v fo faces s l)) = callbacks s.
Proof.
  apply (process_faces_preserves (fun s' => callbacks s' = callbacks s) v); try done.
Qed.

Lemma on_frame_callbacks v fo (s : State) l :
  exists new,
    callbacks (flow_state (on_frame v fo s l)) = callbacks s ++ new
    /\ Forall (fun cb => match cb with
                         | CbProgress c t =>
                             c = current_frame l /\ t = total_frames v
                             /\ c mod frame_skip cfg = 0
                         | CbFrame fo' => fo' = fo
                         end) new.
Proof.
  assert (exists new, callbacks (clip_write fo s) = callbacks s ++ new
            /\ Forall (fun cb => match cb with
                                 | CbProgress c t =>
                                     c = current_frame l /\ t = total_frames v
                                     /\ c mod frame_skip cfg = 0
                                 | CbFrame fo' => fo' = fo
                                 end) new) as Hnone.
  { exists []. by rewrite app_nil_r, clip_write_callbacks. }
  unfold_head constr:(on_frame v fo s l).
  destruct (frame_skip cfg =? 0); [exact Hnone|].
  destruct (current_frame l mod frame_skip cfg =? 0) eqn:Hsel; cbn [negb]; [|exact Hnone].
  apply Z.eqb_eq in Hsel.
  destruct (face_analysis (snd fo)) as [faces|]; [|exact Hnone].
  pose proof (process_faces_callbacks v fo faces (clip_write fo s) l) as Hcb.
  rewrite clip_write_callbacks in Hcb.
  destruct (process_faces v fo faces (clip_write fo s) l) as [s1 l1|s1] eqn:Hpf;
    cbn [step_state flow_state] in *; [|exists []; by rewrite app_nil_r].
  apply process_faces_quiet in Hpf as (_ & Hcf & _).
  unfold notify. rewrite Hcf.
  destruct (progress_callback cfg), (video_frame_callback cfg); fields; rewrite ?Hcb.
  - eexists [_; _]. rewrite <- app_assoc. split; [reflexivity|].
    repeat constructor; done.
  - eexists [_]. split; [reflexivity|]. repeat constructor; done.
  - eexists [_]. split; [reflexivity|]. repeat constructor; done.
  - exists []. by rewrite app_nil_r.
Qed.

(** The callbacks a loop invokes, from any pass on. *)
Lemma loop_callbacks fuel v sched : forall k (s : State) l r,
  0 <= current_frame l ->
  loop fuel v sched k s l = Some r ->
  exists new,
    callbacks (flow_state r) = callbacks s ++ new
    /\ Forall (fun cb => match cb with
                         | CbProgress c t =>
                             0 <= c < t /\ t = total_frames v /\ c mod frame_skip cfg = 0
                         | CbFrame fo => frames v !! fst fo = Some (snd fo)
                         end) new.
Proof.
  induction fuel as [|fuel IH]; intros k s l r Hpos Hl; [discriminate|].
  rewrite loop_S in Hl.
  assert (exists new,
            callbacks (flow_state (iteration v (sched k) s l)) = callbacks s ++ new
            /\ Forall (fun cb => match cb with
                                 | CbProgress c t =>
                                     0 <= c < t /\ t = total_frames v
                                     /\ c mod frame_skip cfg = 0
                                 | CbFrame fo => frames v !! fst fo = Some (snd fo)
                                 end) new) as (new1 & Hc1 & Hall1).
  { pose proof (iteration_cases v (sched k) s l) as Hcases. cbv zeta in Hcases.
    destruct Hcases as [->|(_ & Hlt & [[_ ->]|[(_ & _ & ->)|(_ & frame & Hf & ->)]])];
      cbn [flow_state]; try (exists []; by rewrite app_nil_r, !deliver_callbacks).
    destruct (on_frame_callbacks v (cap_pos l, frame)
                (deliver (before_pause_test (sched k))
                   (deliver (before_loop_test (sched k)) s)) (after_read l))
      as (new & Hc & Hall).
    exists new. rewrite !deliver_callbacks in Hc. split; [exact Hc|].
    eapply Forall_impl; [exact Hall|]. intros [c t|fo] Hcb; cbn in Hcb |- *.
    - destruct Hcb as (-> & -> & Hm). by repeat split.
    - by subst fo. }
  destruct (iteration v (sched k) s l) as [s1 l1|s1 l1|s1] eqn:Hit; cbn [flow_state] in *.
  - pose proof (iteration_advances _ _ _ _ _ _ Hit) as ((Hcf & _) & _).
    destruct (IH (S k) s1 l1 r ltac:(lia) Hl) as (new2 & Hc2 & Hall2).
    exists (new1 ++ new2). rewrite Hc2, Hc1, <- app_assoc. split; [done|].
    by apply Forall_app.
  - injection Hl as <-. by exists new1.
  - injection Hl as <-. by exists new1.
Qed.

(** X7.  Every progress a run reports is frameIndex over totalFrames with
    0 <= frameIndex < totalFrames and frameIndex a multiple of the stride:
    the progress never reaches 1.  Every frame handed to the frame
    callback is a frame of the video, with its read ordinal. *)
Theorem progress_stays_below_one fuel v sched (s : State) o :
  process_video fuel (Some v) sched s = Some o ->
  exists new,
    callbacks (outcome_state o) = callbacks s ++ new
    /\ Forall (fun cb => match cb with
                         | CbProgress c t =>
                             0 <= c < t /\ t = total_frames v /\ c mod frame_skip cfg = 0
                         | CbFrame fo => frames v !! fst fo = Some (snd fo)
                         end) new.
Proof.
  unfold_head constr:(process_video fuel (Some v) sched s).
  destruct (loop fuel v sched 0 s entry) as [r|] eqn:Hl; [|done].
  apply loop_callbacks in Hl as (new & Hc & Hall); [|done].
  destruct r as [s1 l1|s1 l1|s1]; intros [= <-]; exists new;
    cbn [outcome_state flow_state] in *; try report_frame; by split.
Qed.

(** ** What a clip holds, frame by frame *)

Lemma segment_snoc v a n (f : Frame) :
  frames v !! (a + n)%nat = Some f ->
  segment v a (S n) = segment v a n ++ [((a + n)%nat, f)].
Proof.
  intros Hf. unfold segment. rewrite seq_S.
  assert (drop a (frames v) !! n = Some f) as Hd by (by rewrite lookup_drop).
  rewrite (take_S_r _ _ _ Hd). rewrite zip_with_app; [done|].
  rewrite length_seq, length_take. apply lookup_lt_Some in Hd. lia.
Qed.

Lemma clips_filled_recorder_ok v N p (s : State) : clips_filled v N p s -> recorder_ok s.
Proof.
  intros (_ & HA & HB). split; [exact HA|]. intros i wr Hi.
  destruct (HB i wr Hi) as (o & _ & H). by destruct (decide _); destruct H.
Qed.

Lemma clips_filled_deliver v N p sgs (s : State) :
  clips_filled v N p s -> clips_filled v N p (deliver sgs s).
Proof. by destruct (deliver_flags sgs s) as (p' & q & -> & _). Qed.

Lemma clip_write_report_data fo (s : State) : report_data (clip_write fo s) = report_data s.
Proof. by destruct (clip_write_frame fo s) as (ws & c & r & ->). Qed.

Lemma clips_filled_clip_write v N p f (s : State) :
  frames v !! p = Some f ->
  clips_filled v N p s -> clips_filled v N (S p) (clip_write (p, f) s).
Proof.
  intros Hf Hfill. pose proof (clips_filled_recorder_ok _ _ _ _ Hfill) as Hrec.
  destruct Hfill as (Hp & HA & HB). pose proof (lookup_lt_Some _ _ _ Hf) as Hlt.
  destruct (current_clip_writer s) as [w|] eqn:Hc.
  - destruct (clip_write_recording (p, f) s w Hrec Hc)
      as (Hrem & Hcur & (wr & wr' & Hwr & Hwr' & Hfr & Hrel) & Hother & Hlen).
    set (s' := clip_write (p, f) s) in *.
    destruct (HB w wr Hwr) as (o & Hd & Hw). rewrite decide_True in Hw by done.
    destruct Hw as (_ & Ho & Hseg & Hsum & Hone).
    assert (segment v (S o) (S (p - S o)) = vw_frames wr') as Hseg'.
    { rewrite Hfr, Hseg. rewrite (segment_snoc v (S o) (p - S o) f).
      - do 3 f_equal. lia.
      - by replace (S o + (p - S o))%nat with p by lia. }
    split; [lia|]. split.
    + intros i Hi. rewrite Hlen. rewrite Hcur in Hi.
      destruct (_ <=? 0); [discriminate|]. injection Hi as <-. by apply HA.
    + intros i x Hx. destruct (decide (i = w)) as [->|Hne].
      * rewrite Hwr' in Hx. injection Hx as <-. exists o.
        split; [unfold s'; by rewrite clip_write_report_data|].
        rewrite Hcur, Hrel. destruct (clip_frames_remaining s' <=? 0) eqn:Hz.
        -- rewrite decide_False by done. apply Z.leb_le in Hz.
           assert (Z.to_nat N = S (p - S o)) as -> by lia.
           split; [done|]. split; [lia|]. by rewrite Hseg'.
        -- rewrite decide_True by done. apply Z.leb_gt in Hz.
           replace (S p - S o)%nat with (S (p - S o)) by lia.
           split; [done|]. split; [lia|]. split; [by rewrite Hseg'|]. split; lia.
      * rewrite (Hother i Hne) in Hx. destruct (HB i x Hx) as (o' & Hd' & Hi').
        exists o'. split; [unfold s'; by rewrite clip_write_report_data|].
        rewrite decide_False in Hi' by congruence.
        rewrite decide_False; [|rewrite Hcur; destruct (_ <=? 0); congruence].
        destruct Hi' as (? & ? & ?). split; [done|]. split; [lia|done].
  - rewrite (clip_write_idle _ _ Hc). split; [lia|]. split; [intros i Hi; congruence|].
    intros i x Hx. destruct (HB i x Hx) as (o' & Hd' & Hi'). exists o'. split; [done|].
    rewrite Hc. rewrite decide_False in Hi' |- * by done.
    destruct Hi' as (? & ? & ?). split; [done|]. split; [lia|done].
Qed.

Lemma clips_filled_start v p shape f (s : State) :
  1 <= py_int (float_mul f (clip_duration cfg)) ->
  (exists d, d ∈ report_data s /\ S (Z.to_nat (di_frame d)) = p /\ 0 <= di_frame d) ->
  current_clip_writer s = None ->
  clips_filled v (py_int (float_mul f (clip_duration cfg))) p s ->
  clips_filled v (py_int (float_mul f (clip_duration cfg))) p (_start_video_clip shape f s).
Proof.
  intros HN (d & Hd & Hdp & Hd0) Hc (Hp & HA & HB). rewrite start_video_clip_eq.
  split; [done|]. split; fields.
  - intros i [= <-]. rewrite length_app. cbn. lia.
  - intros i x Hx. destruct (decide (i < length (writers s))%nat) as [Hlt|Hge].
    + rewrite lookup_app_l in Hx by done. destruct (HB i x Hx) as (o & Ho & Hi).
      exists o. split; [done|]. rewrite Hc, decide_False in Hi by done.
      rewrite decide_False; [done|]. intros [= E]. lia.
    + rewrite lookup_app_r in Hx by lia.
      destruct (i - length (writers s))%nat eqn:E; [|by destruct n]. injection Hx as <-.
      exists (Z.to_nat (di_frame d)). split; [exists d; split; [done|lia]|].
      rewrite decide_True by (f_equal; lia). rewrite Hdp, Nat.sub_diag.
      cbn [new_writer vw_releases vw_frames]. by repeat split; try lia.
Qed.

Lemma clips_filled_faces v p fo faces (s s' : State) l l' :
  1 <= py_int (float_mul (fps v) (clip_duration cfg)) ->
  0 <= current_frame l -> S (Z.to_nat (current_frame l)) = p ->
  process_faces v fo faces s l = Ok s' l' ->
  clips_filled v (py_int (float_mul (fps v) (clip_duration cfg))) p s ->
  clips_filled v (py_int (float_mul (fps v) (clip_duration cfg))) p s'.
Proof.
  intros HN H0 Hp Hpf Hfill.
  assert (clips_filled v (py_int (float_mul (fps v) (clip_duration cfg))) p s'
          /\ current_frame l' = current_frame l) as [H _]; [|exact H].
  revert Hpf. apply (process_faces_invariant (fun s1 l1 =>
    clips_filled v (py_int (float_mul (fps v) (clip_duration cfg))) p s1
    /\ current_frame l1 = current_frame l)); [|by split].
  intros face s1 l1 s2 l2 [Hf1 Hc1] [(_ & -> & ->)|[_ Hrec]]%process_face_Ok; [by split|].
  apply record_match_Ok in Hrec as (m & _ & _ & -> & ->). cbv zeta. split; [|done].
  set (info := Build_DetectionInfo _ _ _ _).
  set (s3 := set_report_data _ _).
  assert (clips_filled v (py_int (float_mul (fps v) (clip_duration cfg))) p s3) as Hf3.
  { destruct Hf1 as (Hp1 & HA & HB). split; [done|]. split; [exact HA|].
    intros i x Hx. destruct (HB i x Hx) as (o & (d & Hd & Hdo) & Hi). exists o.
    split; [|exact Hi]. exists d. split; [|done]. unfold s3. fields.
    apply elem_of_app. by left. }
  destruct (current_clip_writer s1) eqn:Hc; [exact Hf3|].
  apply clips_filled_start; try done.
  exists info. split; [unfold s3; fields; apply elem_of_app; right; apply list_elem_of_here|].
  unfold info. cbn [di_frame]. rewrite Hc1. by split.
Qed.

Lemma clips_filled_iteration v a (s s' : State) l l' :
  1 <= py_int (float_mul (fps v) (clip_duration cfg)) ->
  current_frame l = Z.of_nat (cap_pos l) ->
  clips_filled v (py_int (float_mul (fps v) (clip_duration cfg))) (cap_pos l) s ->
  iteration v a s l = Next s' l' ->
  current_frame l' = Z.of_nat (cap_pos l')
  /\ clips_filled v (py_int (float_mul (fps v) (clip_duration cfg))) (cap_pos l') s'.
Proof.
  intros HN Hcf Hfill Hit.
  pose proof (iteration_advances _ _ _ _ _ _ Hit) as (_ & _ & Hdiff). split; [lia|].
  apply iteration_Next in Hit as (_ & _ & Hcase). cbv zeta in Hcase.
  destruct Hcase as [(_ & -> & ->)|(_ & frame & Hf & Hon)];
    [by do 2 apply clips_filled_deliver|].
  assert (clips_filled v (py_int (float_mul (fps v) (clip_duration cfg))) (S (cap_pos l))
            (clip_write (cap_pos l, frame)
               (deliver (before_pause_test a) (deliver (before_loop_test a) s)))) as Hclip
    by (by apply clips_filled_clip_write; [|do 2 apply clips_filled_deliver]).
  apply on_frame_Next in Hon
    as [_ [(_ & -> & ->)|(_ & faces & s1 & l1 & _ & Hpf & -> & ->)]]; [exact Hclip|].
  destruct (notify_frame v (cap_pos l, frame) l1 s1) as [cbs ->].
  pose proof (process_faces_quiet _ _ _ _ _ _ _ Hpf) as (_ & _ & Hcap).
  cbn [cap_pos advance after_read] in *. rewrite Hcap.
  assert (clips_filled v (py_int (float_mul (fps v) (clip_duration cfg))) (S (cap_pos l)) s1) as H1;
    [|exact H1].
  eapply clips_filled_faces; [exact HN| | |exact Hpf|exact Hclip];
    cbn [current_frame after_read]; lia.
Qed.

(** X8.  In a run on an engine that has no clip yet, with the product
    [fps * clipDurationSeconds], as Python multiplies the two floats, at
    least 1 and N its integer part: every
    clip was opened by a frame that has a record in the history; a closed
    clip holds exactly the N frames read after that frame, in order,
    sampled or not, and was released once; the live clip holds the frames
    read since that frame, and the counter says how many of the N are
    still to come. *)
Theorem clips_hold_the_frames_after_the_trigger v sched (s0 : State) n s l :
  (1 <= float_mul (fps v) (clip_duration cfg))%Q ->
  writers s0 = [] -> current_clip_writer s0 = None ->
  passes v sched 0 n s0 entry = Some (s, l) ->
  let N := py_int (float_mul (fps v) (clip_duration cfg)) in
  forall i wr, writers s !! i = Some wr ->
    exists o, (exists d, d ∈ report_data s /\ di_frame d = Z.of_nat o) /\
      if decide (current_clip_writer s = Some i)
      then vw_releases wr = 0%nat /\ (S o <= cap_pos l)%nat
           /\ vw_frames wr = segment v (S o) (cap_pos l - S o)
           /\ Z.of_nat (cap_pos l - S o) + clip_frames_remaining s = N
           /\ 1 <= clip_frames_remaining s
      else vw_releases wr = 1%nat /\ (S o + Z.to_nat N <= cap_pos l)%nat
           /\ vw_frames wr = segment v (S o) (Z.to_nat N).
Proof.
  intros HN%py_int_ge_1 Hw Hc Hp N.
  assert (current_frame l = Z.of_nat (cap_pos l)
          /\ clips_filled v N (cap_pos l) s) as (_ & _ & _ & H); [|exact H].
  revert Hp. apply (passes_invariant (fun s1 l1 =>
    current_frame l1 = Z.of_nat (cap_pos l1) /\ clips_filled v N (cap_pos l1) s1)).
  - intros a s1 l1 s2 l2 [Hcf Hfill]. by apply clips_filled_iteration.
  - split; [done|]. split; [cbn; lia|]. split; [by rewrite Hc|].
    intros i wr. by rewrite Hw.
Qed.

(** ** Loading again *)

Lemma load_reference_images_refs paths (s : State) :
  reference_encodings (fst (load_reference_images paths s))
    = omap first_encoding (attempted paths)
  /\ snd (load_reference_images paths s)
     = match omap first_encoding (attempted paths) with [] => false | _ :: _ => true end.
Proof.
  unfold_head constr:(load_reference_images paths s). unfold_head constr:(attempted paths).
  cbv zeta.
  assert (forall (s1 : State) ps, reference_encodings s1 = [] ->
            reference_encodings (fold_left load_one ps s1) = omap first_encoding ps) as Hfold.
  { intros s1 ps E. destruct (load_fold ps s1) as [-> _]. by rewrite E. }
  destruct (max_reference_images cfg) as [mx|]; [destruct (_ >? mx)|];
    (match goal with
     | |- context [fold_left load_one ?ps ?s1] =>
         specialize (Hfold s1 ps eq_refl);
         destruct (reference_encodings (fold_left load_one ps s1)) eqn:E;
         cbn [fst snd]; rewrite <- Hfold; fields; by rewrite ?E
     end).
Qed.

(** X9.  [load_reference_images] replaces the reference set rather than
    adding to it: the new set is the first encoding of each attempted path
    that loads, whatever the set was, the result says whether it is
    non-empty, and nothing but the set and the log changes; so loading the
    same paths again gives the same set.  Without a configured maximum
    every path is attempted; a negative maximum cuts that many paths off
    the end. *)
Theorem load_replaces_reference_set paths (s : State) :
  let s' := fst (load_reference_images paths s) in
  reference_encodings s' = omap first_encoding (attempted paths)
  /\ (snd (load_reference_images paths s) = true <-> reference_encodings s' <> [])
  /\ (exists lg, s' = set_log lg (set_reference_encodings (reference_encodings s') s))
  /\ reference_encodings (fst (load_reference_images paths s')) = reference_encodings s'
  /\ (max_reference_images cfg = None -> attempted paths = paths)
  /\ (forall m, max_reference_images cfg = Some m -> m < 0 ->
        attempted paths = take (Z.to_nat (Z.of_nat (length paths) + m)) paths).
Proof.
  intros s'. destruct (load_reference_images_refs paths s) as [Hrefs Hok]. fold s' in Hrefs.
  split; [exact Hrefs|]. split; [|split; [|split; [|split]]].
  - rewrite Hok, Hrefs. by destruct (omap first_encoding (attempted paths)).
  - destruct (load_reference_images_frame paths s) as (refs & lg & E). fold s' in E.
    exists lg. by rewrite E.
  - destruct (load_reference_images_refs paths s') as [-> _]. by rewrite Hrefs.
  - unfold_head constr:(attempted paths). by intros ->.
  - intros m Hm Hneg. unfold_head constr:(attempted paths). rewrite Hm.
    assert ((Z.of_nat (length paths) >? m) = true) as -> by (apply Z.gtb_lt; lia).
    unfold py_slice_to. by assert ((0 <=? m) = false) as -> by (apply Z.leb_gt; lia).
Qed.

(** ** The engine as the window drives it *)

Lemma process_video_counted fuel v sched (s : State) n s' :
  process_video fuel (Some v) sched s = Some (Returned n s') ->
  Z.of_nat (length (report_data s')) = Z.of_nat (length (report_data s)) + n
  /\ exists s1 l1, loop fuel v sched 0 s entry = Some (Done s1 l1)
       /\ reports s' = if report_writable s1 then reports s ++ [report_data s']
                       else reports s.
Proof.
  unfold_head constr:(process_video fuel (Some v) sched s).
  destruct (loop fuel v sched 0 s entry) as [[s1 l1|s1 l1|s1]|] eqn:Hl; try discriminate.
  intros [= <- <-].
  pose proof (loop_reports _ _ _ _ _ _ _ Hl) as Hrep. cbn [flow_state] in Hrep.
  apply loop_ends in Hl as (k & s2 & l2 & Hp & Hlast & _).
  assert (counted (Z.of_nat (length (report_data s))) s2 l2) as Hc.
  { eapply (passes_invariant (counted _)); [|shelve|exact Hp].
    intros; eapply iteration_counted; eassumption.
    Unshelve. unfold counted. simpl. lia. }
  report_frame.
  apply iteration_Done in Hlast as (El & p & q & E).
  assert (report_data s1 = report_data s2) as Er by (by rewrite E).
  unfold counted in Hc. rewrite <-Er, <-El in Hc. fields.
  split; [lia|]. exists s1, l1. split; [done|]. by rewrite Hrep.
Qed.

Lemma add_reference_images_take dialogs : forall w,
  (length (App.reference_image_paths w) <= 4)%nat ->
  App.reference_image_paths (foldl (fun w path => App.add_reference_image path w) w dialogs)
  = App.reference_image_paths w
    ++ take (4 - length (App.reference_image_paths w))
         (List.filter (fun path => negb (String.eqb path "")) dialogs).
Proof.
  induction dialogs as [|path dialogs IH]; intros w Hw; cbn [foldl List.filter].
  - by rewrite take_nil, app_nil_r.
  - unfold App.add_reference_image at 2.
    destruct (4 <=? length (App.reference_image_paths w))%nat eqn:E.
    + apply Nat.leb_le in E. rewrite IH by done.
      replace (4 - length (App.reference_image_paths w))%nat with 0%nat by lia.
      by rewrite !take_0.
    + apply Nat.leb_gt in E. destruct (String.eqb path ""); cbn [negb]; [by apply IH|].
      rewrite IH by (cbn; rewrite length_app; simpl; lia).
      cbn [App.reference_image_paths App.set_reference_image_paths].
      rewrite length_app, <-app_assoc. cbn [length app].
      destruct (4 - length (App.reference_image_paths w))%nat as [|k] eqn:Ek; [lia|].
      replace (4 - (length (App.reference_image_paths w) + 1))%nat with k by lia.
      done.
Qed.

(** X22.  The reference images of the window are the first four paths the
    file dialog gave that are not empty; further presses of the button add
    nothing.  With [max_reference_images] at least 4, as by default, the
    engine cuts nothing of them: it attempts them all. *)
Theorem window_references_all_attempted dialogs w m :
  App.reference_image_paths w = [] ->
  max_reference_images cfg = Some m -> 4 <= m ->
  let w' := foldl (fun w path => App.add_reference_image path w) w dialogs in
  App.reference_image_paths w'
  = take 4 (List.filter (fun path => negb (String.eqb path "")) dialogs)
  /\ attempted (App.reference_image_paths w') = App.reference_image_paths w'.
Proof.
  intros Hw Hmax Hm. cbv zeta.
  rewrite add_reference_images_take by (rewrite Hw; simpl; lia).
  rewrite Hw. cbn [app length]. split; [done|].
  unfold_head constr:(attempted
    (take (4 - 0) (List.filter (fun path => negb (String.eqb path "")) dialogs))).
  rewrite Hmax.
  assert ((Z.of_nat (length (take (4 - 0)
             (List.filter (fun path => negb (String.eqb path "")) dialogs))) >? m) = false)
    as ->; [|done].
  rewrite length_take, Z.gtb_ltb. apply Z.ltb_ge. lia.
Qed.

(** X23.  A press of Start makes a new engine: when the detection
    completes, the count shown is the length of the history of that engine,
    whose two histories agree; the engine has written one report, which
    lists that history, when the report file could be written in the state
    the loop was left in, and no report when it could not or when the
    video did not open; and the references of the engine are the first
    encodings of the images of the window, of which there is at least
    one. *)
Theorem session_count_is_the_history video_exists video fuel sched w n (s' : State) :
  App.start_detection path_exists load_encodings face_analysis compare_faces face_distance
    gray_std frame_shape report_writable cfg video_exists video fuel sched w
  = Some (App.Complete n s') ->
  n = Z.of_nat (length (report_data s'))
  /\ matches s' = report_data s'
  /\ match video with
     | Some v =>
         exists s1 l1,
           loop fuel v sched 0
             (fst (load_reference_images (App.reference_image_paths w) init)) entry
           = Some (Done s1 l1)
           /\ reports s' = if report_writable s1 then [report_data s'] else []
     | None => reports s' = []
     end
  /\ reference_encodings s'
     = omap first_encoding (attempted (App.reference_image_paths w))
  /\ reference_encodings s' <> [].
Proof.
  unfold App.start_detection.
  destruct video_exists; [|done]. cbn [negb].
  destruct (App.reference_image_paths w) as [|path paths] eqn:Hpaths; [done|].
  destruct (App.task_folder w) as [folder|]; [|done].
  destruct (String.eqb folder ""); [done|]. cbv zeta.
  destruct (load_reference_images_refs (path :: paths) init) as [Hrefs Hok].
  destruct (load_reference_images_frame (path :: paths) init) as (refs & lg & Hframe).
  assert (usable (fst (load_reference_images (path :: paths) init))) as Hus
    by apply usable_load, usable_init.
  destruct (load_reference_images (path :: paths) init) as [s ok].
  cbn [fst snd] in *. destruct ok; [|done]. cbn [negb].
  destruct (process_video fuel video sched s) as [[n' s1|s1]|] eqn:Hrun; try done.
  intros [= -> ->].
  assert (matches s' = report_data s') as Hm.
  { assert (usable (outcome_state (Returned n s'))) as Hus'
      by (eapply usable_run; [exact Hus | exact Hrun]).
    cbn [outcome_state] in Hus'.
    revert Hus'. apply (usable_preserved (fun s => matches s = report_data s)); try done.
    - by intros [] s0.
    - intros fo s0. by destruct (clip_write_frame fo s0) as (ws & c & r & ->).
    - intros i s0 E. fields. by rewrite E. }
  assert (reference_encodings s <> []) as Hne.
  { rewrite Hrefs. by destruct (omap first_encoding (attempted (path :: paths))). }
  assert (report_data s = [] /\ reports s = []) as [Hrd Hrp] by (by rewrite Hframe).
  destruct video as [v|].
  - destruct (process_video_counted _ _ _ _ _ _ Hrun) as (Hc & s1 & l1 & Hdone & Hrep).
    destruct (process_video_records _ _ _ _ _ Hrun) as (r & Hl & _ & Hr).
    destruct (loop_records _ _ _ _ _ _ _ Hl) as (new & _ & Hr' & _).
    cbn [outcome_state] in Hr. rewrite Hr' in Hr.
    rewrite Hrd in Hc. rewrite Hrp in Hrep. simpl in Hc, Hrep.
    split; [lia|]. split; [done|]. split; [by exists s1, l1|].
    rewrite Hr. split; [exact Hrefs | exact Hne].
  - unfold_head_in constr:(process_video fuel None sched s) Hrun.
    injection Hrun as <- <-. revert Hm. fields. intros Hm. rewrite Hm, Hrd, Hrp.
    split; [done|]. split; [done|]. split; [done|].
    split; [exact Hrefs | exact Hne].
Qed.

End Properties.

(** * Properties of the configuration *)

Section ConfigProperties.

Import Config.

(** ** Dictionaries *)

Lemma dict_get_set_eq k v d : dict_get k (dict_set k v d) = Some v.
Proof.
  induction d as [|[k' v'] d IH]; simpl.
  - by rewrite String.eqb_refl.
  - destruct (String.eqb k k') eqn:E; simpl; rewrite E; [done | exact IH].
Qed.

Lemma dict_get_set_ne k k' v d : k <> k' -> dict_get k (dict_set k' v d) = dict_get k d.
Proof.
  intros Hne. induction d as [|[k0 v0] d IH]; simpl.
  - by apply String.eqb_neq in Hne as ->.
  - destruct (String.eqb k' k0) eqn:E; simpl.
    + apply String.eqb_eq in E as <-. by apply String.eqb_neq in Hne as ->.
    + by rewrite IH.
Qed.

Lemma dict_get_None k d : dict_get k d = None <-> k ∉ keys d.
Proof.
  induction d as [|[k' v'] d IH]; simpl.
  - split; [intros _; apply not_elem_of_nil | done].
  - rewrite not_elem_of_cons. destruct (String.eqb k k') eqn:E.
    + apply String.eqb_eq in E. split; [done | by intros [? _]].
    + apply String.eqb_neq in E. rewrite IH. tauto.
Qed.

Lemma dict_get_Some k v d : dict_get k d = Some v -> k ∈ keys d.
Proof.
  induction d as [|[k' v'] d IH]; simpl; [done|].
  destruct (String.eqb k k') eqn:E.
  - apply String.eqb_eq in E as ->. intros _. apply list_elem_of_here.
  - intros H. apply list_elem_of_further, IH, H.
Qed.

(** An assignment keeps the keys and their order, and puts a new key last. *)
Lemma keys_dict_set k v d :
  keys (dict_set k v d) = if dict_get k d is Some _ then keys d else keys d ++ [k].
Proof.
  unfold keys. induction d as [|[k' v'] d IH]; simpl; [done|].
  destruct (String.eqb k k') eqn:E; simpl; [done|].
  rewrite IH. by destruct (dict_get k d).
Qed.

Lemma NoDup_dict_set k v d : NoDup (keys d) -> NoDup (keys (dict_set k v d)).
Proof.
  intros Hd. rewrite keys_dict_set. destruct (dict_get k d) eqn:E; [done|].
  apply NoDup_app. split; [done|]. split; [|apply NoDup_singleton].
  intros x Hx ->%list_elem_of_singleton. by apply dict_get_None in E.
Qed.

(** ** Keys in dot notation *)

Lemma split_nonempty sep s : split sep s <> [].
Proof.
  destruct s as [|c s]; simpl; [done|].
  destruct (Ascii.eqb c sep); [done|]. by destruct (split sep s).
Qed.

Lemma join_cons sep part parts :
  parts <> [] -> join sep (part :: parts) = (part ++ String sep (join sep parts))%string.
Proof. by destruct parts. Qed.

Lemma join_split sep s : join sep (split sep s) = s.
Proof.
  induction s as [|c s IH]; simpl; [done|].
  destruct (Ascii.eqb c sep) eqn:E.
  - apply Ascii.eqb_eq in E as ->.
    rewrite join_cons by apply split_nonempty. simpl. by rewrite IH.
  - destruct (split sep s) as [|part parts] eqn:Es; [by apply split_nonempty in Es|].
    rewrite <-IH. by destruct parts.
Qed.

Lemma split_parts_clean sep s : Forall (fun part => has_char sep part = false) (split sep s).
Proof.
  induction s as [|c s IH]; simpl; [by constructor|].
  destruct (Ascii.eqb c sep) eqn:E; [by constructor|].
  destruct (split sep s) as [|part parts]; [constructor; [|done]; simpl; by rewrite E|].
  inversion IH; subst. constructor; [|done]. simpl. by rewrite E.
Qed.

Lemma split_clean sep part : has_char sep part = false -> split sep part = [part].
Proof.
  induction part as [|c part IH]; simpl; [done|].
  intros [E H]%orb_false_iff. rewrite E, IH; done.
Qed.

Lemma split_app sep part rest :
  has_char sep part = false ->
  split sep (part ++ String sep rest) = part :: split sep rest.
Proof.
  induction part as [|c part IH]; simpl.
  - intros _. by rewrite Ascii.eqb_refl.
  - intros [E H]%orb_false_iff. rewrite E, IH; done.
Qed.

Lemma split_join sep parts :
  parts <> [] -> Forall (fun part => has_char sep part = false) parts ->
  split sep (join sep parts) = parts.
Proof.
  induction parts as [|part parts IH]; [done|]. intros _ Hall.
  inversion Hall as [|? ? Hpart Hparts]; subst.
  destruct parts as [|part' parts].
  - by apply split_clean.
  - rewrite join_cons by done. rewrite split_app by done. by rewrite IH.
Qed.

(** A key with the separator in it is none of the parts of a split key. *)
Lemma has_char_not_part sep k key : has_char sep k = true -> k ∉ split sep key.
Proof.
  intros Hk Hin. pose proof (split_parts_clean sep key) as Hall.
  rewrite Forall_forall in Hall. specialize (Hall k Hin). congruence.
Qed.

(** ** Induction on values, through the dictionaries in them *)

Section ValueInduction.

Variable P : Value -> Prop.
Variable Q : list (string * Value) -> Prop.
Hypothesis HNone : P VNone.
Hypothesis HBool : forall b, P (VBool b).
Hypothesis HInt : forall n, P (VInt n).
Hypothesis HFloat : forall x, P (VFloat x).
Hypothesis HStr : forall s, P (VStr s).
Hypothesis HList : forall items, P (VList items).
Hypothesis HDict : forall entries, Q entries -> P (VDict entries).
Hypothesis Hnil : Q [].
Hypothesis Hcons : forall k v entries, P v -> Q entries -> Q ((k, v) :: entries).

Fixpoint Value_dict_ind (v : Value) : P v :=
  match v with
  | VNone => HNone
  | VBool b => HBool b
  | VInt n => HInt n
  | VFloat x => HFloat x
  | VStr s => HStr s
  | VList items => HList items
  | VDict entries =>
      HDict entries
        ((fix go (entries : list (string * Value)) : Q entries :=
            match entries with
            | [] => Hnil
            | (k, v') :: rest => Hcons k v' rest (Value_dict_ind v') (go rest)
            end) entries)
  end.

End ValueInduction.

(** What holds of every dictionary, by induction on its items and on the
    dictionaries below them. *)
Lemma dict_ind (Q : list (string * Value) -> Prop) :
  Q [] ->
  (forall k v entries,
      (forall d, v = VDict d -> Q d) -> Q entries -> Q ((k, v) :: entries)) ->
  forall entries, Q entries.
Proof.
  intros Hnil Hcons entries.
  assert (forall d, VDict entries = VDict d -> Q d) as H; [|by apply H].
  apply (Value_dict_ind (fun v => forall d, v = VDict d -> Q d) Q); try done.
  intros d Hd d' [= <-]. exact Hd.
Qed.

(** ** Merging *)

Lemma deep_merge_nil base : _deep_merge base [] = base.
Proof. reflexivity. Qed.

Lemma deep_merge_cons base key value rest :
  _deep_merge base ((key, value) :: rest)
  = _deep_merge (merge_entry (deep_merge_value value) base key value) rest.
Proof. reflexivity. Qed.

Lemma deep_merge_value_dict base update :
  deep_merge_value (VDict update) base = _deep_merge base update.
Proof. reflexivity. Qed.

(** What one item of the update does to the base. *)
Lemma merge_entry_cases base key value :
  (exists u b, value = VDict u /\ dict_get key base = Some (VDict b)
     /\ merge_entry (deep_merge_value value) base key value
        = dict_set key (VDict (_deep_merge b u)) base)
  \/ ((forall u b, value = VDict u -> dict_get key base <> Some (VDict b))
      /\ merge_entry (deep_merge_value value) base key value = dict_set key value base).
Proof.
  unfold merge_entry.
  destruct value; try (right; split; [intros; discriminate | reflexivity]).
  destruct (dict_get key base) as [[| | | | | |b]|];
    try (right; split; [by intros u b' _ | reflexivity]).
  left. exists entries, b. by rewrite deep_merge_value_dict.
Qed.

Lemma merge_entry_other base key value k :
  k <> key ->
  dict_get k (merge_entry (deep_merge_value value) base key value) = dict_get k base.
Proof.
  intros Hne.
  destruct (merge_entry_cases base key value) as [(u & b & _ & _ & ->)|[_ ->]];
    by apply dict_get_set_ne.
Qed.

Lemma merge_entry_keys base key value :
  keys (merge_entry (deep_merge_value value) base key value)
  = if dict_get key base is Some _ then keys base else keys base ++ [key].
Proof.
  destruct (merge_entry_cases base key value) as [(u & b & _ & _ & ->)|[_ ->]];
    apply keys_dict_set.
Qed.

(** A key the update does not have keeps its value. *)
Lemma deep_merge_other update : forall base k,
  k ∉ keys update -> dict_get k (_deep_merge base update) = dict_get k base.
Proof.
  induction update as [|[key value] rest IH]; intros base k Hk; [done|].
  rewrite deep_merge_cons. cbn in Hk. apply not_elem_of_cons in Hk as [Hne Hk].
  rewrite IH by done. by apply merge_entry_other.
Qed.

Lemma walk_cons k path d :
  walk (k :: path) (VDict d)
  = match dict_get k d with Some v => walk path v | None => None end.
Proof. reflexivity. Qed.

Lemma walk_leaf path v : is_dict v = false -> path <> [] -> walk path v = None.
Proof. destruct path; [done|]. by destruct v. Qed.

Lemma well_formed_dict d :
  well_formed (VDict d) <-> NoDup (keys d) /\ Forall (fun kv => well_formed (snd kv)) d.
Proof.
  change (well_formed (VDict d))
    with (NoDup (map fst d) /\
          (fix all (entries : list (string * Value)) : Prop :=
             match entries with
             | [] => True
             | (_, v') :: rest => well_formed v' /\ all rest
             end) d).
  unfold keys. apply and_iff_compat_l.
  induction d as [|[k v] d IH]; [by split; [constructor|]|].
  rewrite Forall_cons, <-IH. done.
Qed.

Lemma well_formed_cons k v d :
  well_formed (VDict ((k, v) :: d))
  <-> (k ∉ keys d) /\ well_formed v /\ well_formed (VDict d).
Proof.
  rewrite !well_formed_dict. cbn [keys map fst]. rewrite NoDup_cons, Forall_cons.
  unfold keys. cbn [snd]. tauto.
Qed.

Lemma dict_get_cons k k' v d :
  dict_get k ((k', v) :: d) = if String.eqb k k' then Some v else dict_get k d.
Proof. reflexivity. Qed.

Lemma dict_get_Forall (P : Value -> Prop) k v d :
  Forall (fun kv => P (snd kv)) d -> dict_get k d = Some v -> P v.
Proof.
  induction 1 as [|[k' v'] d Hv Hd IH]; [done|]. rewrite dict_get_cons.
  destruct (String.eqb k k'); [by intros [= <-] | exact IH].
Qed.

Lemma Forall_dict_set (P : Value -> Prop) k v d :
  P v -> Forall (fun kv => P (snd kv)) d -> Forall (fun kv => P (snd kv)) (dict_set k v d).
Proof.
  intros Hv. induction 1 as [|[k' v'] d Hv' Hd IH]; simpl.
  - by repeat constructor.
  - destruct (String.eqb k k'); by constructor.
Qed.

(** A value of the update that is no dictionary is the value of the merge
    at the same place. *)
Lemma deep_merge_override update : forall base path v,
  well_formed (VDict update) -> walk path (VDict update) = Some v -> is_dict v = false ->
  walk path (VDict (_deep_merge base update)) = Some v.
Proof.
  induction update as [|k val rest IHval IHrest] using dict_ind;
    intros base path v Hwf Hwalk Hleaf.
  - destruct path; [by injection Hwalk as <- | done].
  - destruct path as [|k0 path]; [by injection Hwalk as <-|].
    apply well_formed_cons in Hwf as (Hk & Hval & Hrest).
    rewrite deep_merge_cons. rewrite walk_cons, dict_get_cons in Hwalk.
    destruct (String.eqb k0 k) eqn:E.
    + apply String.eqb_eq in E as ->.
      rewrite walk_cons, deep_merge_other by done.
      destruct (merge_entry_cases base k val) as [(u & b & -> & _ & ->)|[_ ->]];
        rewrite dict_get_set_eq; [|done].
      by apply IHval.
    + by apply IHrest.
Qed.

(** A place the update says nothing about holds no value in the update. *)
Lemma untouched_walk path : forall update,
  ~ touches path update -> path <> [] /\ walk path (VDict update) = None.
Proof.
  induction path as [|k path IH]; intros update H; [by destruct H|].
  split; [done|]. rewrite walk_cons. cbn [touches] in H.
  destruct (dict_get k update) as [[| | | | | |update']|]; try done; try by destruct H.
  by apply IH.
Qed.

(** A place the update says nothing about keeps what the base has there. *)
Lemma deep_merge_untouched update : forall base path,
  well_formed (VDict update) -> ~ touches path update ->
  walk path (VDict (_deep_merge base update)) = walk path (VDict base).
Proof.
  induction update as [|k val rest IHval IHrest] using dict_ind; intros base path Hwf Hun.
  - done.
  - destruct path as [|k0 path]; [by destruct Hun|].
    apply well_formed_cons in Hwf as (Hk & Hval & Hrest).
    rewrite deep_merge_cons. cbn [touches] in Hun. rewrite dict_get_cons in Hun.
    destruct (String.eqb k0 k) eqn:E.
    + apply String.eqb_eq in E as ->.
      rewrite !walk_cons, deep_merge_other by done.
      destruct val as [| | | | | |u]; try by destruct Hun.
      destruct (merge_entry_cases base k (VDict u)) as [(u' & b & [= <-] & -> & ->)|[Hno ->]];
        rewrite dict_get_set_eq.
      * by apply IHval.
      * apply untouched_walk in Hun as [Hpath ->].
        destruct (dict_get k base) as [x|]; [|done].
        symmetry. apply walk_leaf; [|done].
        destruct x; try done. by destruct (Hno u entries).
    + apply String.eqb_neq in E. rewrite IHrest.
      * rewrite !walk_cons. by rewrite merge_entry_other.
      * done.
      * cbn [touches]. exact Hun.
Qed.

(** The merge keeps the keys of the base in their order and puts the new
    keys of the update after them. *)
Lemma deep_merge_keys update : forall base,
  exists new, keys (_deep_merge base update) = keys base ++ new
    /\ Forall (fun k => (k ∈ keys update) /\ (k ∉ keys base)) new
    /\ (NoDup (keys base) -> NoDup (keys (_deep_merge base update))).
Proof.
  induction update as [|[key value] rest IH]; intros base.
  - exists []. rewrite deep_merge_nil, app_nil_r. by repeat split.
  - rewrite deep_merge_cons.
    destruct (IH (merge_entry (deep_merge_value value) base key value))
      as (new & Hkeys & Hnew & Hdup).
    rewrite merge_entry_keys in Hkeys, Hnew, Hdup.
    destruct (dict_get key base) as [x|] eqn:E.
    + exists new. split; [exact Hkeys|]. split; [|exact Hdup].
      eapply Forall_impl; [exact Hnew|]. intros k [Hk Hk']. split; [|done].
      by apply list_elem_of_further.
    + exists (key :: new). split; [by rewrite Hkeys, <-app_assoc|]. split.
      * constructor; [split; [apply list_elem_of_here | by apply dict_get_None]|].
        eapply Forall_impl; [exact Hnew|]. intros k [Hk Hk']. split.
        -- by apply list_elem_of_further.
        -- intros Hin. apply Hk'. apply elem_of_app. by left.
      * intros Hbase. apply Hdup.
        apply NoDup_app. split; [done|]. split; [|apply NoDup_singleton].
        intros x Hx ->%list_elem_of_singleton. by apply dict_get_None in E.
Qed.

(** Merging dictionaries with unique keys gives one with unique keys. *)
Lemma deep_merge_well_formed update : forall base,
  well_formed (VDict base) -> well_formed (VDict update) ->
  well_formed (VDict (_deep_merge base update)).
Proof.
  induction update as [|k val rest IHval IHrest] using dict_ind; intros base Hbase Hwf.
  - done.
  - apply well_formed_cons in Hwf as (Hk & Hval & Hrest).
    rewrite deep_merge_cons. apply IHrest; [|done].
    apply well_formed_dict in Hbase as [Hdup Hall]. apply well_formed_dict.
    destruct (merge_entry_cases base k val) as [(u & b & -> & Hb & ->)|[_ ->]].
    + split; [by apply NoDup_dict_set|]. apply Forall_dict_set; [|done].
      apply IHval; [done| |done].
      exact (dict_get_Forall well_formed k (VDict b) base Hall Hb).
    + split; [by apply NoDup_dict_set|]. by apply Forall_dict_set.
Qed.

(** ** Reading *)

(** X10.  A key written in dot notation is read part by part: for parts
    that are not empty as a list and hold no dot, [get] of the parts joined
    by dots follows them through the nested dictionaries, and gives the
    default as soon as a part is missing or the value reached is no
    dictionary. *)
Theorem get_follows_dotted_path data parts default :
  parts <> [] -> Forall (fun part => has_char "." part = false) parts ->
  get data (join "." parts) default
  = match walk parts (VDict data) with Some value => value | None => default end.
Proof. intros Hne Hclean. unfold get. by rewrite split_join. Qed.

(** X11.  A key of the configuration that has a dot in it cannot be read:
    setting it changes the result of no [get]. *)
Theorem dotted_key_is_unreachable data k v :
  has_char "." k = true ->
  forall key default, get (dict_set k v data) key default = get data key default.
Proof.
  intros Hk key default. unfold get.
  pose proof (has_char_not_part "." k key Hk) as Hnot.
  pose proof (split_nonempty "." key) as Hne.
  destruct (split "." key) as [|k0 path]; [done|].
  rewrite !walk_cons, dict_get_set_ne; [done|].
  intros ->. apply Hnot, list_elem_of_here.
Qed.

(** ** Loading *)

(** X12.  What the file says wins: a value of the document that is no
    mapping, [null] included, is what [get] returns for its key after
    loading, whatever the configuration held there. *)
Theorem external_value_wins data document key v default :
  well_formed (VDict document) ->
  walk (split "." key) (VDict document) = Some v -> is_dict v = false ->
  get (load_config data (Parsed (VDict document))) key default = v.
Proof.
  intros Hwf Hwalk Hleaf. unfold get, load_config.
  destruct document as [|entry document].
  - pose proof (split_nonempty "." key) as Hne.
    destruct (split "." key) as [|k0 path]; [done|]. done.
  - cbn [truthy]. by rewrite (deep_merge_override _ data _ v).
Qed.

(** X13.  Loading changes only what the file talks about: with no file, a
    file that cannot be read, a document that is empty or no mapping, or a
    mapping that says nothing about the place a key leads to, [get] of the
    key is what it was. *)
Theorem load_config_keeps_the_rest data file key default :
  (forall document, file = Parsed (VDict document) ->
     well_formed (VDict document) /\ ~ touches (split "." key) document) ->
  get (load_config data file) key default = get data key default.
Proof.
  intros H. unfold get, load_config.
  destruct file as [| |document]; [done..|].
  destruct (truthy document); [|by rewrite deep_merge_nil].
  destruct document; try done.
  destruct (H entries eq_refl) as [Hwf Hun]. by rewrite deep_merge_untouched.
Qed.

(** X14.  Loading removes no key and reorders none: the keys of the
    configuration stay where they are and the new keys of the file come
    after them; keys stay unique, at every level. *)
Theorem load_config_keeps_keys data file :
  well_formed (VDict data) ->
  (forall document, file = Parsed (VDict document) -> well_formed (VDict document)) ->
  well_formed (VDict (load_config data file))
  /\ exists new, keys (load_config data file) = keys data ++ new
       /\ Forall (fun k => k ∉ keys data) new.
Proof.
  intros Hdata H.
  assert (well_formed (VDict data) /\
          exists new, keys data = keys data ++ new /\ Forall (fun k => k ∉ keys data) new)
    as Hsame by (split; [done|]; exists []; by rewrite app_nil_r).
  unfold load_config. destruct file as [| |document]; [done..|].
  destruct (truthy document); [|by rewrite deep_merge_nil].
  destruct document; try done.
  split; [apply deep_merge_well_formed; [done | by apply H]|].
  destruct (deep_merge_keys entries data) as (new & Hkeys & Hnew & _).
  exists new. split; [done|].
  eapply Forall_impl; [exact Hnew|]. by intros k [_ Hk].
Qed.

(** ** Folders *)

Lemma dict_set_same k v d : dict_get k d = Some v -> dict_set k v d = d.
Proof.
  induction d as [|[k' v'] d IH]; simpl; [done|].
  destruct (String.eqb k k'); [by intros [= ->]|]. intros H. by rewrite IH.
Qed.

Lemma dict_set_set k v1 v2 d : dict_set k v2 (dict_set k v1 d) = dict_set k v2 d.
Proof.
  induction d as [|[k' v'] d IH]; simpl.
  - by rewrite String.eqb_refl.
  - destruct (String.eqb k k') eqn:E; simpl; rewrite E; [done | by rewrite IH].
Qed.

Lemma assign_path_dict name arg data paths :
  dict_get "paths" data = Some (VDict paths) ->
  assign_path name arg data
  = Some (dict_set "paths" (VDict (assigned name arg paths)) data).
Proof.
  intros H. unfold assign_path, assigned, given.
  destruct arg as [folder|]; [|by rewrite dict_set_same].
  destruct (String.eqb folder ""); [by rewrite dict_set_same|]. by rewrite H.
Qed.

Lemma assign_path_no_dict name arg data :
  (forall paths, dict_get "paths" data <> Some (VDict paths)) ->
  assign_path name arg data = if given arg is Some _ then None else Some data.
Proof.
  intros H. unfold assign_path, given. destruct arg as [folder|]; [|done].
  destruct (String.eqb folder ""); [done|].
  destruct (dict_get "paths" data) as [[]|] eqn:E; try done. by destruct (H entries).
Qed.

Lemma dict_get_assigned k name arg paths :
  dict_get k (assigned name arg paths)
  = if String.eqb k name
    then match given arg with
         | Some folder => Some (VStr folder)
         | None => dict_get k paths
         end
    else dict_get k paths.
Proof.
  unfold assigned. destruct (String.eqb k name) eqn:E.
  - apply String.eqb_eq in E as ->. destruct (given arg); [apply dict_get_set_eq | done].
  - apply String.eqb_neq in E. destruct (given arg); [by apply dict_get_set_ne | done].
Qed.

(** Decides the comparisons of two names that are both known. *)
Ltac compare_names :=
  repeat match goal with
         | |- context [String.eqb ?a ?b] =>
             let r := eval vm_compute in (String.eqb a b) in
             change (String.eqb a b) with r
         end;
  cbv iota.

Section Folders.

Variable abspath : string -> string.
Variable makedirs : string -> bool.

(** X15.  With a mapping under [paths], [update_paths] sets each folder
    that is given, which is a string that is not empty, leaves the folders
    that are not given and every other entry of [paths] as they were, and
    then makes the folders of the updated mapping as [_validate_paths]
    does. *)
Theorem update_paths_sets_the_given_folders
    output_folder reports temp reference_image cctv_footage data paths :
  dict_get "paths" data = Some (VDict paths) ->
  exists paths',
    update_paths abspath makedirs output_folder reports temp reference_image cctv_footage data
    = (dict_set "paths" (VDict paths') data, provision abspath makedirs paths' [])
    /\ (forall name arg,
          (name, arg) ∈ [("output_folder", output_folder); ("reports", reports);
                         ("temp", temp); ("reference_image", reference_image);
                         ("cctv_footage", cctv_footage)]%string ->
          dict_get name paths'
          = match given arg with
            | Some folder => Some (VStr folder)
            | None => dict_get name paths
            end)
    /\ (forall name,
          name ∉ ["output_folder"; "reports"; "temp"; "reference_image";
                  "cctv_footage"]%string ->
          dict_get name paths' = dict_get name paths).
Proof.
  intros Hpaths.
  exists (assigned "cctv_footage" cctv_footage
            (assigned "reference_image" reference_image
               (assigned "temp" temp
                  (assigned "reports" reports
                     (assigned "output_folder" output_folder paths))))).
  split; [|split].
  - unfold update_paths.
    rewrite (assign_path_dict _ _ _ paths) by done.
    rewrite (assign_path_dict _ _ _ _ (dict_get_set_eq _ _ _)), dict_set_set.
    rewrite (assign_path_dict _ _ _ _ (dict_get_set_eq _ _ _)), dict_set_set.
    rewrite (assign_path_dict _ _ _ _ (dict_get_set_eq _ _ _)), dict_set_set.
    rewrite (assign_path_dict _ _ _ _ (dict_get_set_eq _ _ _)), dict_set_set.
    unfold _validate_paths. by rewrite dict_get_set_eq.
  - intros name arg Hin. rewrite !dict_get_assigned.
    repeat (apply elem_of_cons in Hin as [[= -> ->]|Hin];
            [compare_names; reflexivity|]).
    by apply elem_of_nil in Hin.
  - intros name Hname. rewrite !dict_get_assigned.
    repeat (apply not_elem_of_cons in Hname as [?%String.eqb_neq Hname]).
    by repeat match goal with H : String.eqb _ _ = false |- _ => rewrite H; clear H end.
Qed.

(** X16.  Without a mapping under [paths], [update_paths] changes nothing
    and makes no folder, and it raises unless no folder is given and the
    key [paths] is missing altogether. *)
Theorem update_paths_without_paths_mapping
    output_folder reports temp reference_image cctv_footage data :
  (forall paths, dict_get "paths" data <> Some (VDict paths)) ->
  update_paths abspath makedirs output_folder reports temp reference_image cctv_footage data
  = (data,
     {| made := [];
        raised :=
          match given output_folder, given reports, given temp, given reference_image,
                given cctv_footage, dict_get "paths" data with
          | None, None, None, None, None, None => false
          | _, _, _, _, _, _ => true
          end |}).
Proof.
  intros H. unfold update_paths.
  rewrite (assign_path_no_dict _ output_folder) by done.
  destruct (given output_folder); [done|].
  rewrite (assign_path_no_dict _ reports) by done.
  destruct (given reports); [done|].
  rewrite (assign_path_no_dict _ temp) by done.
  destruct (given temp); [done|].
  rewrite (assign_path_no_dict _ reference_image) by done.
  destruct (given reference_image); [done|].
  rewrite (assign_path_no_dict _ cctv_footage) by done.
  destruct (given cctv_footage); [done|].
  unfold _validate_paths.
  destruct (dict_get "paths" data) as [[]|] eqn:E; try done. by destruct (H entries).
Qed.

Lemma try_makedirs_cases path acc :
  (exists dir, path = VStr dir /\ makedirs dir = true
     /\ try_makedirs makedirs path acc = acc ++ [dir])
  \/ ((forall dir, path = VStr dir -> makedirs dir = false)
      /\ try_makedirs makedirs path acc = acc).
Proof.
  destruct path as [| | | |dir| |]; try (right; split; [intros; discriminate | reflexivity]).
  simpl. destruct (makedirs dir) eqn:E.
  - left. by exists dir.
  - right. split; [by intros ? [= <-] | done].
Qed.

(** Each folder the loop makes is one it is allowed to make. *)
Lemma provision_made entries : forall acc,
  exists new, made (provision abspath makedirs entries acc) = acc ++ new
    /\ Forall (fun dir => exists key,
                 (key, VStr dir) ∈ entries /\ makedirs dir = true
                 /\ (restricted key = true -> contains "tasks" (abspath dir) = true)) new.
Proof.
  induction entries as [|[key path] rest IH]; intros acc.
  - exists []. by rewrite app_nil_r.
  - assert (forall acc', (exists new, made (provision abspath makedirs rest acc') = acc' ++ new
              /\ Forall (fun dir => exists key0,
                   (key0, VStr dir) ∈ (key, path) :: rest /\ makedirs dir = true
                   /\ (restricted key0 = true -> contains "tasks" (abspath dir) = true)) new))
      as Hrest.
    { intros acc'. destruct (IH acc') as (new & Hnew & Hall). exists new. split; [done|].
      eapply Forall_impl; [exact Hall|]. intros dir (key0 & Hin & H).
      exists key0. split; [by apply list_elem_of_further | done]. }
    assert (forall allowed : restricted key = true -> forall dir, path = VStr dir ->
                             contains "tasks" (abspath dir) = true,
              exists new, made (provision abspath makedirs rest (try_makedirs makedirs path acc))
                          = acc ++ new
              /\ Forall (fun dir => exists key0,
                   (key0, VStr dir) ∈ (key, path) :: rest /\ makedirs dir = true
                   /\ (restricted key0 = true -> contains "tasks" (abspath dir) = true)) new)
      as Htry.
    { intros allowed.
      destruct (try_makedirs_cases path acc) as [(dir & -> & Hdir & ->)|[_ ->]]; [|apply Hrest].
      destruct (Hrest (acc ++ [dir])) as (new & Hnew & Hall).
      exists (dir :: new). split; [by rewrite Hnew, <-app_assoc|].
      constructor; [|done]. exists key. split; [apply list_elem_of_here|]. split; [done|].
      intros Hkey. by apply allowed. }
    cbn [provision]. destruct (restricted key) eqn:Hkey.
    + destruct path as [| | | |dir| |]; try (exists []; by rewrite app_nil_r).
      destruct (contains "tasks" (abspath dir)) eqn:Htasks; [|apply Hrest].
      apply Htry. by intros _ ? [= <-].
    + apply Htry. done.
Qed.

(** The loop raises exactly when one of the three restricted keys has a
    value that is no string. *)
Lemma provision_raised entries : forall acc,
  raised (provision abspath makedirs entries acc) = true
  <-> exists key v, (key, v) ∈ entries /\ restricted key = true /\ forall dir, v <> VStr dir.
Proof.
  induction entries as [|[key path] rest IH]; intros acc.
  - split; [done|]. intros (key & v & Hin & _). by apply elem_of_nil in Hin.
  - assert ((exists key0 v, (key0, v) ∈ (key, path) :: rest /\ restricted key0 = true
                            /\ forall dir, v <> VStr dir)
            <-> (restricted key = true /\ forall dir, path <> VStr dir)
                \/ exists key0 v, (key0, v) ∈ rest /\ restricted key0 = true
                                  /\ forall dir, v <> VStr dir) as ->.
    { split.
      - intros (key0 & v & [[= -> ->]|Hin]%elem_of_cons & H); [by left|].
        right. by exists key0, v.
      - intros [H|(key0 & v & Hin & H)].
        + exists key, path. split; [apply list_elem_of_here | done].
        + exists key0, v. split; [by apply list_elem_of_further | done]. }
    cbn [provision]. destruct (restricted key) eqn:Hkey.
    + destruct path as [| | | |dir| |]; try (split; [intros _; by left | done]).
      assert (forall acc', raised (provision abspath makedirs rest acc') = true
                <-> (true = true /\ forall dir0, VStr dir <> VStr dir0)
                    \/ exists key0 v, (key0, v) ∈ rest /\ restricted key0 = true
                                      /\ forall dir0, v <> VStr dir0) as H.
      { intros acc'. rewrite IH. split; [by right|].
        intros [[_ H]|H]; [by destruct (H dir) | done]. }
      destruct (contains "tasks" (abspath dir)); apply H.
    + rewrite IH. split; [by right|]. by intros [[? _]|H].
Qed.

(** When the loop does not raise, it makes every folder it is allowed to
    make and can make. *)
Lemma provision_complete entries : forall acc,
  raised (provision abspath makedirs entries acc) = false ->
  forall key dir, (key, VStr dir) ∈ entries -> makedirs dir = true ->
    (restricted key = true -> contains "tasks" (abspath dir) = true) ->
    dir ∈ made (provision abspath makedirs entries acc).
Proof.
  induction entries as [|[key path] rest IH]; intros acc Hok key0 dir Hin Hdir Hallowed.
  - by apply elem_of_nil in Hin.
  - assert (forall acc', dir ∈ acc' -> dir ∈ made (provision abspath makedirs rest acc'))
      as Hkeep.
    { intros acc' Hacc. destruct (provision_made rest acc') as (new & -> & _).
      apply elem_of_app. by left. }
    cbn [provision] in *. apply elem_of_cons in Hin as [[= <- <-]|Hin].
    + destruct (restricted key0).
      * rewrite Hallowed in * by done. apply Hkeep. simpl. rewrite Hdir.
        apply elem_of_app. right. apply list_elem_of_here.
      * apply Hkeep. simpl. rewrite Hdir. apply elem_of_app. right. apply list_elem_of_here.
    + destruct (restricted key).
      * destruct path as [| | | |dir'| |]; try done.
        destruct (contains "tasks" (abspath dir')); by eapply IH.
      * by eapply IH.
Qed.

(** X17.  [_validate_paths] makes no folder and does not raise when the key
    [paths] is missing, and raises when its value is no mapping.
    Otherwise every folder it makes is the string value of a path whose
    key is none of [cctv_footage], [reference_image] and [reports], or
    whose absolute path contains [tasks]; it raises exactly when one of
    these three keys has a value that is no string; and when it does not
    raise, it makes every such folder that can be made. *)
Theorem validate_paths_makes_permitted_folders data :
  match dict_get "paths" data with
  | None => _validate_paths abspath makedirs data = {| made := []; raised := false |}
  | Some (VDict paths) =>
      Forall (fun dir => exists key,
                (key, VStr dir) ∈ paths /\ makedirs dir = true
                /\ (restricted key = true -> contains "tasks" (abspath dir) = true))
        (made (_validate_paths abspath makedirs data))
      /\ (raised (_validate_paths abspath makedirs data) = true
          <-> exists key v, (key, v) ∈ paths /\ restricted key = true
                            /\ forall dir, v <> VStr dir)
      /\ (raised (_validate_paths abspath makedirs data) = false ->
          forall key dir, (key, VStr dir) ∈ paths -> makedirs dir = true ->
            (restricted key = true -> contains "tasks" (abspath dir) = true) ->
            dir ∈ made (_validate_paths abspath makedirs data))
  | Some _ => _validate_paths abspath makedirs data = {| made := []; raised := true |}
  end.
Proof.
  unfold _validate_paths. destruct (dict_get "paths" data) as [[| | | | | |paths]|]; try done.
  split; [|split].
  - destruct (provision_made paths []) as (new & -> & Hall). exact Hall.
  - apply provision_raised.
  - apply provision_complete.
Qed.

(** X18.  A configuration built from the defaults and a file that says
    nothing about [paths], where none of the folders [reports],
    [reference_image] and [cctv_footage] lies under a path with [tasks] in
    it: the constructor does not raise, and the only folders it makes are
    [detected_faces] and [temp]; the folder the reports are written to is
    not made. *)
Theorem default_paths_make_two_folders file :
  (forall document, file = Parsed (VDict document) -> "paths"%string ∉ keys document) ->
  contains "tasks" (abspath "reports") = false ->
  contains "tasks" (abspath "reference_image") = false ->
  contains "tasks" (abspath "cctv_footage") = false ->
  snd (__init__ abspath makedirs file)
  = {| made := List.filter makedirs ["detected_faces"; "temp"]%string; raised := false |}.
Proof.
  intros Hfile H1 H2 H3. unfold __init__, _validate_paths. cbn [snd].
  assert (dict_get "paths" (load_config _get_default_config file)
          = dict_get "paths" _get_default_config) as ->.
  { unfold load_config. destruct file as [| |document]; [done..|].
    destruct (truthy document); [|by rewrite deep_merge_nil].
    destruct document; try done. apply deep_merge_other. by apply Hfile. }
  cbn. rewrite H1, H2, H3.
  destruct (makedirs "detected_faces"), (makedirs "temp"); reflexivity.
Qed.

End Folders.

End ConfigProperties.

(** * Properties of the window *)

Section WindowProperties.

Import App.

Lemma pop_snoc stack screen : pop (stack ++ [screen]) = Some (stack, screen).
Proof. induction stack as [|x stack IH]; simpl; [done|]. by rewrite IH. Qed.

Lemma pop_Some stack rest screen :
  pop stack = Some (rest, screen) -> stack = rest ++ [screen].
Proof.
  revert rest. induction stack as [|x stack IH]; intros rest; simpl; [done|].
  destruct (pop stack) as [[rest' top]|] eqn:E.
  - intros [= <- <-]. by rewrite (IH rest').
  - intros [= <- <-]. destruct stack as [|y stack]; [done|].
    simpl in E. by destruct (pop stack) as [[]|].
Qed.

Lemma go_back_navigate_to screen w :
  button_follows_stack w -> go_back (navigate_to screen w) = w.
Proof.
  unfold button_follows_stack. destruct w as [paths folder stack current button]. simpl.
  intros ->. unfold go_back, navigate_to.
  destruct screen; cbn; rewrite pop_snoc; destruct current; cbn; by destruct stack.
Qed.

Lemma navigate_to_follows screen w : button_follows_stack (navigate_to screen w).
Proof.
  unfold button_follows_stack, navigate_to. destruct screen; cbn;
    by destruct (screen_stack w ++ [current_screen_info w]).
Qed.

Lemma go_back_follows w : button_follows_stack w -> button_follows_stack (go_back w).
Proof.
  unfold button_follows_stack, go_back. intros H.
  destruct (pop (screen_stack w)) as [[rest screen]|]; [|done].
  destruct screen; cbn; by destruct rest.
Qed.

(** X19.  Back undoes a navigation: from a window whose Back button is
    enabled exactly when its stack is not empty, going to any screen and
    back gives the window as it was, with the same screen, stack, button,
    task folder and reference images; and the navigation has put the
    screen left on top of the stack. *)
Theorem go_back_undoes_navigate_to screen w :
  button_follows_stack w ->
  go_back (navigate_to screen w) = w
  /\ screen_stack (navigate_to screen w) = screen_stack w ++ [current_screen_info w]
  /\ back_button (navigate_to screen w) = true.
Proof.
  intros H. split; [by apply go_back_navigate_to|].
  unfold navigate_to. destruct screen; cbn;
    by destruct (screen_stack w ++ [current_screen_info w]) eqn:E;
      [apply app_eq_nil in E as [_ [=]]|].
Qed.

(** X20.  Deleting a file stacks the folder screen on itself: after [n]
    files were deleted from a folder screen, each of the next [n] presses
    of Back shows the same folder again, and the [n]th gives the window as
    it was before the first deletion. *)
Theorem delete_file_stacks_the_folder_screen folder_key n w :
  button_follows_stack w ->
  current_screen_info w = _display_folder_contents folder_key ->
  Nat.iter n go_back (Nat.iter n (delete_file folder_key) w) = w
  /\ forall m, (m <= n)%nat ->
       current_screen_info (Nat.iter m go_back (Nat.iter n (delete_file folder_key) w))
       = _display_folder_contents folder_key.
Proof.
  intros Hw Hcur.
  assert (forall k, button_follows_stack (Nat.iter k (delete_file folder_key) w)) as Hall.
  { intros [|k]; [done|]. apply navigate_to_follows. }
  assert (forall k, current_screen_info (Nat.iter k (delete_file folder_key) w)
                    = _display_folder_contents folder_key) as Hcurs.
  { intros [|k]; [done|]. reflexivity. }
  assert (forall m k, Nat.iter m go_back (Nat.iter (m + k) (delete_file folder_key) w)
                      = Nat.iter k (delete_file folder_key) w) as Hback.
  { induction m as [|m IH]; intros k; [done|].
    rewrite Nat.iter_succ_r. replace (S m + k)%nat with (S (m + k)) by lia.
    change (Nat.iter (S (m + k)) (delete_file folder_key) w)
      with (navigate_to (_display_folder_contents folder_key)
              (Nat.iter (m + k) (delete_file folder_key) w)).
    rewrite go_back_navigate_to by apply Hall. apply IH. }
  split.
  - specialize (Hback n 0%nat). by rewrite Nat.add_0_r in Hback.
  - intros m Hm.
    replace (Nat.iter n (delete_file folder_key) w)
      with (Nat.iter (m + (n - m)) (delete_file folder_key) w) by (f_equal; lia).
    by rewrite Hback.
Qed.

Lemma press_follows w a : button_follows_stack w -> button_follows_stack (press w a).
Proof.
  intros H. destruct a; cbn [press]; try apply navigate_to_follows; try done.
  - unfold add_reference_image.
    destruct (4 <=? length (reference_image_paths w))%nat; [done|].
    by destruct (String.eqb path "").
  - by apply go_back_follows.
Qed.

Lemma navigate_to_main_at_bottom screen w :
  screen <> setup_main_ui -> main_at_bottom w -> main_at_bottom (navigate_to screen w).
Proof.
  unfold main_at_bottom, navigate_to. intros Hscreen H.
  assert (current_screen_info
            (update_back_button_visibility
               (draw screen
                  (set_current_screen_info screen
                     (set_screen_stack (screen_stack w ++ [current_screen_info w]) w))))
          = screen) as -> by (by destruct screen).
  assert (screen_stack
            (update_back_button_visibility
               (draw screen
                  (set_current_screen_info screen
                     (set_screen_stack (screen_stack w ++ [current_screen_info w]) w))))
          = screen_stack w ++ [current_screen_info w]) as -> by (by destruct screen).
  destruct (screen_stack w) as [|bottom rest]; simpl.
  - by rewrite H.
  - destruct H as (-> & Hrest & Hcur). split; [done|]. split; [|done].
    apply Forall_app. split; [done|]. by constructor.
Qed.

Lemma go_back_main_at_bottom w : main_at_bottom w -> main_at_bottom (go_back w).
Proof.
  unfold main_at_bottom, go_back. intros H.
  destruct (pop (screen_stack w)) as [[rest screen]|] eqn:E; [|done].
  apply pop_Some in E. rewrite E in H.
  destruct rest as [|bottom rest]; simpl in H.
  - destruct H as (-> & _ & _). done.
  - destruct H as (-> & [Hrest Hscreen]%Forall_app & _).
    rewrite Forall_singleton in Hscreen.
    assert (screen_stack
              (update_back_button_visibility
                 (draw screen
                    (set_current_screen_info screen
                       (set_screen_stack (setup_main_ui :: rest) w))))
            = setup_main_ui :: rest) as -> by (by destruct screen).
    assert (current_screen_info
              (update_back_button_visibility
                 (draw screen
                    (set_current_screen_info screen
                       (set_screen_stack (setup_main_ui :: rest) w))))
            = screen) as -> by (by destruct screen).
    done.
Qed.

Lemma press_main_at_bottom w a : main_at_bottom w -> main_at_bottom (press w a).
Proof.
  intros H. destruct a; cbn [press]; try (by apply navigate_to_main_at_bottom); try done.
  - unfold add_reference_image.
    destruct (4 <=? length (reference_image_paths w))%nat; [done|].
    by destruct (String.eqb path "").
  - by apply go_back_main_at_bottom.
Qed.

Lemma press_four w a :
  (length (reference_image_paths w) <= 4)%nat ->
  (length (reference_image_paths (press w a)) <= 4)%nat.
Proof.
  assert (forall screen w', reference_image_paths (navigate_to screen w')
                            = reference_image_paths w') as Hnav
    by (intros screen w'; by destruct screen).
  intros H. destruct a; cbn [press];
    unfold open_results, open_tasks_screen, open_task_contents, display_folder_contents,
      delete_file, display_folder_contents; rewrite ?Hnav; try done.
  - cbn. lia.
  - unfold add_reference_image.
    destruct (4 <=? length (reference_image_paths w))%nat eqn:E; [done|].
    apply Nat.leb_gt in E. destruct (String.eqb path ""); [done|].
    cbn. rewrite length_app. simpl. lia.
  - unfold go_back. destruct (pop (screen_stack w)) as [[rest screen]|]; [|done].
    by destruct screen.
Qed.

(** X21.  Whatever buttons are pressed after the window opens: the Back
    button is enabled exactly when the current screen is not the main
    screen, which is exactly when the stack is not empty; the main screen
    is the bottom of the stack and occurs nowhere else in it; and there are
    at most 4 reference images. *)
Theorem window_invariants actions :
  let w := foldl press __init__ actions in
  (back_button w = true <-> current_screen_info w <> setup_main_ui)
  /\ (screen_stack w = [] <-> current_screen_info w = setup_main_ui)
  /\ (forall bottom rest, screen_stack w = bottom :: rest ->
        bottom = setup_main_ui /\ Forall (fun screen => screen <> setup_main_ui) rest)
  /\ (length (reference_image_paths w) <= 4)%nat.
Proof.
  cbv zeta.
  assert (button_follows_stack (foldl press __init__ actions)
          /\ main_at_bottom (foldl press __init__ actions)
          /\ (length (reference_image_paths (foldl press __init__ actions)) <= 4)%nat)
    as (Hb & Hm & Hfour).
  { assert (button_follows_stack __init__ /\ main_at_bottom __init__
            /\ (length (reference_image_paths __init__) <= 4)%nat) as H
      by (repeat split; cbn; lia).
    revert H. generalize __init__. induction actions as [|a actions IH]; intros w H; [done|].
    cbn [foldl]. apply IH. destruct H as (H1 & H2 & H3).
    split; [by apply press_follows|]. split; [by apply press_main_at_bottom|].
    by apply press_four. }
  unfold button_follows_stack in Hb. unfold main_at_bottom in Hm.
  destruct (screen_stack (foldl press __init__ actions)) as [|bottom rest].
  - rewrite Hb, Hm. split; [split; [done | by intros H]|].
    split; [done|]. split; [by intros ? ? [=] | exact Hfour].
  - destruct Hm as (-> & Hrest & Hcur). rewrite Hb.
    split; [done|]. split; [split; [done | by intros E]|].
    split; [|exact Hfour]. by intros ? ? [= <- <-].
Qed.

End WindowProperties.

(** * The engine run on the concrete world *)

Import Scenario.

(** The loaded engine is one the public methods produce. *)
Lemma loaded_usable cfg :
  max_reference_images cfg = Some 4 ->
  usable path_exists load_encodings face_analysis compare_faces face_distance gray_std
    frame_shape report_writable cfg loaded.
Proof.
  intros Hmax.
  assert (loaded = fst (load_reference_images path_exists load_encodings cfg
                          ["ref.jpg"%string] init)) as ->.
  { unfold load_reference_images. rewrite Hmax. reflexivity. }
  apply usable_load, usable_init.
Qed.

Lemma loaded_counter_ok : counter_ok loaded.
Proof. split; [done | by intros [? ?]]. Qed.

Lemma video_one_analysable :
  analysable face_analysis gray_std (settings 5 5) video_one.
Proof.
  split; [done|]. split; [reflexivity|].
  intros frame ->%list_elem_of_singleton. eexists. split; [reflexivity|].
  intros drawn face _. by eexists.
Qed.

Lemma nobody_unpaused : unpaused nobody.
Proof. intros k. split; apply not_elem_of_nil. Qed.

(** C1, counterexample.  A second call on the same engine returns 1 while
    the history, which still holds the record of the first call, has
    length 2. *)
Lemma second_call_returns_less_than_history :
  run (settings 5 5) 3 (Some video_one) nobody loaded = Some (Returned 1 after_first_run)
  /\ run (settings 5 5) 3 (Some video_one) nobody after_first_run
     = Some (Returned 1 after_second_run)
  /\ 1 <> Z.of_nat (length (report_data after_second_run)).
Proof.
  split; [vm_compute; reflexivity|]. split; [vm_compute; reflexivity|].
  vm_compute. discriminate.
Qed.

(** The second call returns the one record it appended. *)
Lemma process_video_returns_new_records_witness :
  1 = Z.of_nat (length (report_data after_second_run))
      - Z.of_nat (length (report_data after_first_run)).
Proof.
  refine (proj1 (process_video_returns_new_records face_analysis compare_faces face_distance
                   gray_std frame_shape report_writable (settings 5 5) 3 video_one nobody
                   after_first_run 1 after_second_run _)).
  vm_compute. reflexivity.
Defined.

(** C2, counterexample.  The face service raises on the first frame: the
    run is aborted, and with no amount of fuel does it return. *)
Lemma frame_error_is_not_caught :
  run (settings 5 5) 3 (Some video_bad) nobody loaded = Some (Aborted loaded)
  /\ ~ exists fuel n s',
         run (settings 5 5) fuel (Some video_bad) nobody loaded = Some (Returned n s').
Proof.
  split; [vm_compute; reflexivity|].
  intros (fuel & n & s' & H). destruct fuel; vm_compute in H; discriminate.
Qed.

(** The run on the raising frame is aborted; the run on the good video
    returns and, the reports folder being there, writes its report. *)
Lemma frame_error_aborts_run_witness :
  run (settings 5 5) 3 (Some video_bad) nobody loaded = Some (Aborted loaded)
  /\ exists n s', run (settings 5 5) 2 (Some video_one) nobody loaded = Some (Returned n s')
       /\ reports s' = reports loaded ++ [report_data s'].
Proof.
  split.
  - refine (proj1 (proj1 (frame_error_aborts_run face_analysis compare_faces face_distance
                            gray_std frame_shape report_writable (settings 5 5) video_bad
                            nobody loaded)
                     0%nat loaded entry broken 3%nat _ _ _ _ _ _ _ _ _)).
    + reflexivity.
    + reflexivity.
    + reflexivity.
    + reflexivity.
    + reflexivity.
    + simpl. lia.
    + reflexivity.
    + reflexivity.
    + lia.
  - destruct (proj2 (frame_error_aborts_run face_analysis compare_faces face_distance
                       gray_std frame_shape report_writable (settings 5 5) video_one nobody
                       loaded) video_one_analysable nobody_unpaused eq_refl)
      as (n & s' & s1 & l1 & _ & Hrun & Hrep).
    exists n, s'. split; [exact Hrun | exact Hrep].
Defined.

(** Without the reports folder the same run returns its count and writes
    no report: the failure is logged. *)
Lemma missing_reports_folder_writes_no_report :
  exists s',
    process_video face_analysis compare_faces face_distance gray_std frame_shape
      (fun _ => false) (settings 5 5) 3 (Some video_one) nobody loaded
    = Some (Returned 1 s')
    /\ reports s' = [] /\ report_data s' = report_data after_first_run
    /\ ErrGeneratingReport ∈ log s'.
Proof.
  eexists. split; [vm_compute; reflexivity|]. split; [reflexivity|]. split; [reflexivity|].
  cbn. repeat (apply elem_of_cons; first [by left | right]).
Qed.

(** C3, counterexample.  Over fifteen frames with a stride of 5 the
    callbacks are invoked for frames 0, 5 and 10 only. *)
Lemma skipped_frames_invoke_no_callback :
  run (settings 5 5) 20 (Some video_15) nobody loaded = Some (Returned 0 after_15)
  /\ callbacks after_15
     = [CbProgress 0 15; CbFrame (0%nat, blank); CbProgress 5 15; CbFrame (5%nat, blank);
        CbProgress 10 15; CbFrame (10%nat, blank)]
  /\ ~ In (CbProgress 1 15) (callbacks after_15).
Proof.
  split; [vm_compute; reflexivity|]. split; [reflexivity|].
  cbn. intros H. repeat (destruct H as [H|H]; [discriminate|]). exact H.
Qed.

(** The first pass over the fifteen frames: frame 0 is sampled and both
    callbacks are invoked. *)
Lemma callbacks_only_on_sampled_frames_witness :
  exists frame, frames video_15 !! 0%nat = Some frame
    /\ current_frame (snd first_pass_15) = 0 + 1
    /\ callbacks (fst first_pass_15)
       = callbacks loaded ++ [CbProgress 0 15; CbFrame (0%nat, frame)].
Proof.
  refine (callbacks_only_on_sampled_frames face_analysis compare_faces face_distance
            gray_std frame_shape (settings 5 5) video_15 quiet loaded entry
            (fst first_pass_15) (snd first_pass_15) _ _).
  - vm_compute. reflexivity.
  - reflexivity.
Defined.

(** C4, counterexample.  At 23.75 fps a 5 s clip gets 118 frames, which is
    not 118.75 rounded; the product is exact in floating point. *)
Lemma clip_frame_count_is_not_rounded :
  record_match gray_std frame_shape (settings 5 5) video_2375 (0%nat, hit) box (3 # 5)
    loaded entry = Ok (fst start_2375) (snd start_2375)
  /\ current_clip_writer loaded = None
  /\ clip_frames_remaining (fst start_2375) = 118
  /\ ~ nearest_integer (fps video_2375 * clip_duration (settings 5 5))
         (clip_frames_remaining (fst start_2375))
  /\ (float_mul (fps video_2375) (clip_duration (settings 5 5))
      == fps video_2375 * clip_duration (settings 5 5))%Q.
Proof.
  split; [vm_compute; reflexivity|]. split; [reflexivity|]. split; [reflexivity|].
  split; [|reflexivity]. apply Qlt_not_le. reflexivity.
Qed.

(** 30 fps and 2 s: 60 frames. *)
Lemma clip_start_truncates_frame_count_witness : clip_frames_remaining (fst start_30) = 60.
Proof.
  refine (proj1 (proj2 (proj2 (proj2 (proj2 (proj2
            (clip_start_truncates_frame_count gray_std frame_shape (settings 5 2) video_one
               (0%nat, hit) box (3 # 5) loaded (fst start_30) entry (snd start_30) _ _))))))
            _ _).
  - reflexivity.
  - vm_compute. reflexivity.
  - reflexivity.
  - reflexivity.
Defined.

(** With the threshold at 0.5: the face at 0.4 is judged by whether a
    reference qualifies, and the face at 0.6 is no match and leaves the
    engine as it was. *)
Lemma confirmed_match_iff_qualifying_reference_witness :
  (fst (match_face compare_faces face_distance (settings 5 5) (reference_encodings loaded)
          face_04) = true
   <-> exists ref, ref ∈ reference_encodings loaded
         /\ qualifies compare_faces face_distance (settings 5 5) face_04 ref)
  /\ fst (match_face compare_faces face_distance (settings 5 5) (reference_encodings loaded)
            face_06) = false
  /\ process_face compare_faces face_distance gray_std frame_shape (settings 5 5) video_one
       (0%nat, far) (box, face_06) loaded entry = Ok loaded entry.
Proof.
  assert (confidence_threshold (settings 5 5) <= 1)%Q as Hthr by (unfold Qle; simpl; lia).
  split.
  - exact (proj1 (confirmed_match_iff_qualifying_reference (Frame:=Frame) compare_faces
                    face_distance gray_std frame_shape (settings 5 5)
                    (reference_encodings loaded) face_04 Hthr)).
  - destruct (proj2 (proj2 (proj2
                (confirmed_match_iff_qualifying_reference (Frame:=Frame) compare_faces
                   face_distance gray_std frame_shape (settings 5 5)
                   (reference_encodings loaded) face_06 Hthr))))
      as [Hno Hsame].
    + intros ref _. reflexivity.
    + split; [exact Hno|]. apply Hsame. reflexivity.
Defined.

(** After the pass that opened the clip. *)
Lemma at_most_one_clip_session_witness : at_most_one_session (fst clip_1).
Proof.
  refine (proj1 (proj1 (at_most_one_clip_session path_exists load_encodings face_analysis
                          compare_faces face_distance
                          gray_std frame_shape report_writable (settings 1 5) video_clip nobody loaded
                          (loaded_usable (settings 1 5) eq_refl))
                   1%nat (fst clip_1) (snd clip_1) _)).
  vm_compute. reflexivity.
Defined.

(** C7, counterexample.  At half a frame per second with a 1 s clip the
    counter starts at 0 and is -1 after the next frame. *)
Lemma counter_negative_below_one_frame :
  (fps video_slow * clip_duration (settings 1 1) < 1)%Q
  /\ run_passes (settings 1 1) video_slow nobody 0 2 loaded entry = Some slow_2
  /\ clip_frames_remaining (fst slow_2) = -1
  /\ (float_mul (fps video_slow) (clip_duration (settings 1 1))
      == fps video_slow * clip_duration (settings 1 1))%Q.
Proof.
  split; [reflexivity|]. split; [vm_compute; reflexivity|]. split; reflexivity.
Qed.

(** At 30 fps with a 5 s clip, after the pass that opened it. *)
Lemma clip_counter_never_negative_witness : 0 <= clip_frames_remaining (fst clip_1).
Proof.
  refine (proj1 (proj1 (clip_counter_never_negative path_exists load_encodings face_analysis
                          compare_faces face_distance gray_std frame_shape report_writable
                          (settings 1 5) video_clip nobody loaded _
                          (loaded_usable (settings 1 5) eq_refl) loaded_counter_ok)
                   1%nat (fst clip_1) (snd clip_1) _)).
  - vm_compute. discriminate.
  - vm_compute. reflexivity.
Defined.

(** Why the state at the start matters.  A run at half a frame per second
    that matches on its last frame ends with a live session whose counter
    is 0; the next run of the same engine, at 30 fps, takes the counter to
    -1 on its first frame. *)
Lemma live_session_carried_into_next_run :
  run (settings 1 1) 3 (Some video_slow_one) nobody loaded = Some (Returned 1 after_slow_run)
  /\ current_clip_writer after_slow_run = Some 0%nat
  /\ clip_frames_remaining after_slow_run = 0
  /\ (1 <= float_mul (fps video_blank_30) (clip_duration (settings 1 1)))%Q
  /\ passes face_analysis compare_faces face_distance gray_std frame_shape (settings 1 1)
       video_blank_30 nobody 0 1 after_slow_run entry = Some carried
  /\ clip_frames_remaining (fst carried) = -1.
Proof.
  split; [vm_compute; reflexivity|]. split; [reflexivity|]. split; [reflexivity|].
  split; [vm_compute; discriminate|]. split; [vm_compute; reflexivity | reflexivity].
Qed.

(** Six paths, a maximum of 4, the second missing and the third without a
    face. *)
Lemma load_reference_images_keeps_what_loads_witness :
  snd (load (settings 5 5) six_paths loaded) = true
  /\ length (reference_encodings (fst (load (settings 5 5) six_paths loaded))) = 2%nat.
Proof.
  refine (proj2 (proj2 (proj2 (proj2 (proj2 (proj2
            (load_reference_images_keeps_what_loads path_exists load_encodings
               (settings 5 5) six_paths 4 loaded _ _)))))) _ _ _).
  - reflexivity.
  - lia.
  - reflexivity.
  - reflexivity.
  - reflexivity.
Defined.

(** Paused before the first pass and stopped during the fourth, the loop
    has ended within five passes. *)
Lemma stop_is_terminal_witness :
  exists r, run_loop (settings 5 5) 5 video_15 pause_then_stop 0 loaded entry = Some r
    /\ forall s' l', r <> Next s' l'.
Proof.
  refine (proj2 (proj2 (proj2
            (stop_is_terminal face_analysis compare_faces face_distance gray_std frame_shape
               (settings 5 5) video_15 pause_then_stop 0%nat 3%nat loaded entry _ _)))).
  - lia.
  - right. simpl. apply list_elem_of_here.
Defined.

(** The clip opened on frame 0, two frames later. *)
Lemma triggering_frame_not_in_clip_witness :
  exists wr, writers (fst clip_3) !! 0%nat = Some wr /\ ((0%nat, hit) ∉ vw_frames wr).
Proof.
  destruct (triggering_frame_not_in_clip face_analysis compare_faces face_distance gray_std
              frame_shape (settings 1 5) video_clip nobody 1%nat 2%nat quiet loaded
              (fst clip_1) (fst clip_3) entry (snd clip_1) (snd clip_3) 0%nat)
    as (frame & wr1 & wr2 & Hframe & _ & _ & Hwr2 & _ & Hnot & _).
  - vm_compute. reflexivity.
  - simpl. lia.
  - vm_compute. reflexivity.
  - exists wr2. split; [exact Hwr2|]. injection Hframe as <-. exact Hnot.
Defined.

(** ** The further properties, on the concrete world *)

Lemma after_first_run_usable :
  usable path_exists load_encodings face_analysis compare_faces face_distance gray_std
    frame_shape report_writable (settings 5 5) after_first_run.
Proof.
  apply (usable_run _ _ _ _ _ _ _ _ _ 3 (Some video_one) nobody loaded
           (Returned 1 after_first_run)).
  - by apply loaded_usable.
  - vm_compute. reflexivity.
Qed.

(** The first run appends one record. *)
Lemma history_frames_sampled_and_sorted_witness :
  exists new, report_data after_first_run = report_data loaded ++ new
    /\ Forall (fun d => di_frame d mod 5 = 0) new.
Proof.
  destruct (history_frames_sampled_and_sorted face_analysis compare_faces face_distance
              gray_std frame_shape report_writable (settings 5 5) 3 video_one nobody loaded
              (Returned 1 after_first_run))
    as (new & Hnew & Hall & _).
  - vm_compute. reflexivity.
  - exists new. split; [exact Hnew|].
    eapply Forall_impl; [exact Hall|]. intros d (_ & Hd & _). exact Hd.
Defined.

(** The record of the second run has a confidence of at least one half. *)
Lemma record_confidence_bounds_witness :
  exists new, report_data after_second_run = report_data after_first_run ++ new
    /\ Forall (fun d => (1 - (1 # 2) <= di_confidence d)%Q) new.
Proof.
  destruct (record_confidence_bounds face_analysis compare_faces face_distance
              gray_std frame_shape report_writable (settings 5 5) 3 video_one nobody after_first_run
              (Returned 1 after_second_run))
    as (new & Hnew & Hall).
  - vm_compute. reflexivity.
  - exists new. split; [exact Hnew|].
    eapply Forall_impl; [exact Hall|]. intros d (_ & Hd & _). exact Hd.
Defined.

Lemma parallel_histories_agree_witness : matches after_first_run = report_data after_first_run.
Proof.
  exact (parallel_histories_agree path_exists load_encodings face_analysis compare_faces
           face_distance gray_std frame_shape report_writable (settings 5 5) after_first_run
           after_first_run_usable).
Defined.

Lemma trajectory_grows_with_matches_witness :
  exists pts, detection_path after_first_run = detection_path loaded ++ pts
    /\ Z.of_nat (length pts) = 1.
Proof.
  refine (trajectory_grows_with_matches face_analysis compare_faces face_distance
            gray_std frame_shape report_writable (settings 5 5) 3 video_one nobody loaded 1
            after_first_run _).
  vm_compute. reflexivity.
Defined.

(** After [stop()], a run on the video with a match returns 0. *)
Lemma stopped_engine_never_runs_again_witness :
  exists s', run (settings 5 5) 1 (Some video_one) nobody (stop loaded) = Some (Returned 0 s')
    /\ report_data s' = report_data (stop loaded).
Proof.
  destruct (proj2 (proj2 (proj2
              (stopped_engine_never_runs_again path_exists load_encodings face_analysis
                 compare_faces face_distance gray_std frame_shape report_writable (settings 5 5)
                 (stop loaded) eq_refl))) 0%nat video_one nobody)
    as (s' & Hrun & Hrep & _).
  exists s'. split; [exact Hrun | exact Hrep].
Defined.

(** After [pause()], ten passes over the video leave the engine where it
    was. *)
Lemma paused_engine_reads_nothing_witness :
  run_passes (settings 5 5) video_15 nobody 0 10 (pause loaded) entry
  = Some (pause loaded, entry).
Proof.
  refine (proj1 (paused_engine_reads_nothing face_analysis compare_faces face_distance
                   gray_std frame_shape (settings 5 5) video_15 nobody 0 (pause loaded)
                   entry eq_refl eq_refl _ _) 10%nat).
  - reflexivity.
  - intros j. reflexivity.
Defined.

(** Fifteen frames at stride 5: the progress reported stays below 1. *)
Lemma progress_stays_below_one_witness :
  exists new, callbacks after_15 = callbacks loaded ++ new
    /\ Forall (fun cb => match cb with
                         | CbProgress c t => 0 <= c < t
                         | CbFrame _ => True
                         end) new.
Proof.
  destruct (progress_stays_below_one face_analysis compare_faces face_distance
              gray_std frame_shape report_writable (settings 5 5) 20 video_15 nobody loaded
              (Returned 0 after_15))
    as (new & Hnew & Hall).
  - vm_compute. reflexivity.
  - exists new. split; [exact Hnew|].
    eapply Forall_impl; [exact Hall|]. intros [c t|fo]; [|done]. intros (Hc & _). exact Hc.
Defined.

(** At 30 fps with a clip duration of 0.7 s the product is 21 in floating
    point: the clip opened by the match on frame 0 holds the 21 frames
    1 to 21 once 22 frames were read. *)
Lemma clips_hold_the_frames_after_the_trigger_witness :
  exists wr o, writers (fst after_22) !! 0%nat = Some wr
    /\ vw_releases wr = 1%nat /\ vw_frames wr = segment video_07 (S o) 21.
Proof.
  pose proof (clips_hold_the_frames_after_the_trigger face_analysis compare_faces
                face_distance gray_std frame_shape (settings 1 (7 # 10)) video_07 nobody
                loaded 22 (fst after_22) (snd after_22)) as H.
  assert (1 <= float_mul (fps video_07) (clip_duration (settings 1 (7 # 10))))%Q as Hq
    by (vm_compute; discriminate).
  assert (passes face_analysis compare_faces face_distance gray_std frame_shape
            (settings 1 (7 # 10)) video_07 nobody 0 22 loaded entry
          = Some (fst after_22, snd after_22)) as Hp by (vm_compute; reflexivity).
  assert (py_int (float_mul (fps video_07) (clip_duration (settings 1 (7 # 10)))) = 21)
    as HN by (vm_compute; reflexivity).
  specialize (H Hq eq_refl eq_refl Hp). cbv zeta in H. rewrite HN in H.
  assert (exists wr, writers (fst after_22) !! 0%nat = Some wr) as [wr Hwr]
    by (eexists; vm_compute; reflexivity).
  destruct (H 0%nat wr Hwr) as (o & _ & Ho).
  destruct (decide (current_clip_writer (fst after_22) = Some 0%nat)) as [Hc|_].
  - exfalso. clear -Hc. vm_compute in Hc. discriminate.
  - exists wr, o. split; [exact Hwr|]. destruct Ho as (Hr & _ & Hf).
    split; [exact Hr | exact Hf].
Defined.

(** ** The configuration and the window, on the concrete world *)

(** Decides that a name is none of the names listed. *)
Ltac name_is_new :=
  repeat (apply not_elem_of_cons; split; [apply String.eqb_neq; reflexivity|]);
  apply not_elem_of_nil.

(** Checks a dictionary that is written out for unique keys. *)
Ltac check_well_formed :=
  lazymatch goal with
  | |- Config.well_formed (Config.VDict []) => split; [apply NoDup_nil_2 | exact I]
  | |- Config.well_formed (Config.VDict (_ :: _)) =>
      apply well_formed_cons; split; [name_is_new | split; check_well_formed]
  | |- Config.well_formed _ => exact I
  end.

Lemma document_well_formed : Config.well_formed (Config.VDict document).
Proof. unfold document. check_well_formed. Qed.

Lemma defaults_well_formed : Config.well_formed (Config.VDict Config._get_default_config).
Proof. unfold Config._get_default_config. check_well_formed. Qed.

(** The folder of the clips, read from the defaults. *)
Lemma get_follows_dotted_path_witness :
  Config.get Config._get_default_config "paths.temp" Config.VNone = Config.VStr "temp".
Proof.
  refine (get_follows_dotted_path Config._get_default_config ["paths"; "temp"]%string
            Config.VNone _ _).
  - discriminate.
  - repeat constructor.
Defined.

(** A top-level key [paths.temp] does not change what [paths.temp] reads. *)
Lemma dotted_key_is_unreachable_witness :
  Config.get (Config.dict_set "paths.temp" (Config.VStr "clips") Config._get_default_config)
    "paths.temp" Config.VNone
  = Config.get Config._get_default_config "paths.temp" Config.VNone.
Proof.
  refine (dotted_key_is_unreachable Config._get_default_config "paths.temp"
            (Config.VStr "clips") _ "paths.temp"%string Config.VNone).
  reflexivity.
Defined.

(** The [null] of the file is what the threshold reads as, not the
    default. *)
Lemma external_value_wins_witness :
  Config.get (Config.load_config Config._get_default_config
                (Config.Parsed (Config.VDict document)))
    "detection_threshold" (Config.VFloat (1 # 2))
  = Config.VNone.
Proof.
  refine (external_value_wins Config._get_default_config document "detection_threshold"
            Config.VNone (Config.VFloat (1 # 2)) document_well_formed _ _).
  - reflexivity.
  - reflexivity.
Defined.

(** The file does not mention the folder of the reports. *)
Lemma load_config_keeps_the_rest_witness :
  Config.get (Config.load_config Config._get_default_config
                (Config.Parsed (Config.VDict document)))
    "paths.reports" Config.VNone
  = Config.get Config._get_default_config "paths.reports" Config.VNone.
Proof.
  refine (load_config_keeps_the_rest Config._get_default_config
            (Config.Parsed (Config.VDict document)) "paths.reports" Config.VNone _).
  intros d H. injection H as <-. split; [exact document_well_formed|].
  intros Htouch. vm_compute in Htouch. exact Htouch.
Defined.

Lemma load_config_keeps_keys_witness :
  Config.well_formed
    (Config.VDict (Config.load_config Config._get_default_config
                     (Config.Parsed (Config.VDict document)))).
Proof.
  refine (proj1 (load_config_keeps_keys Config._get_default_config
                   (Config.Parsed (Config.VDict document)) defaults_well_formed _)).
  intros d H. injection H as <-. exact document_well_formed.
Defined.

(** One folder is given, one argument is the empty string. *)
Lemma update_paths_sets_the_given_folders_witness :
  exists paths',
    fst (Config.update_paths abspath makedirs (Some "out"%string) None (Some ""%string)
           None None Config._get_default_config)
    = Config.dict_set "paths" (Config.VDict paths') Config._get_default_config
    /\ Config.dict_get "output_folder" paths' = Some (Config.VStr "out")
    /\ Config.dict_get "temp" paths' = Some (Config.VStr "temp").
Proof.
  destruct (update_paths_sets_the_given_folders abspath makedirs (Some "out"%string) None
              (Some ""%string) None None Config._get_default_config _ eq_refl)
    as (paths' & Hup & Hin & _).
  exists paths'. split; [by rewrite Hup|]. split.
  - apply (Hin "output_folder"%string (Some "out"%string)). apply list_elem_of_here.
  - apply (Hin "temp"%string (Some ""%string)). do 2 apply list_elem_of_further.
    apply list_elem_of_here.
Defined.

Lemma update_paths_without_paths_mapping_witness :
  Config.update_paths abspath makedirs (Some "out"%string) None None None None no_paths
  = (no_paths, {| Config.made := []; Config.raised := true |}).
Proof.
  refine (update_paths_without_paths_mapping abspath makedirs (Some "out"%string) None None
            None None no_paths _).
  intros paths H. exfalso. vm_compute in H. discriminate H.
Defined.

(** Run from [/srv/app] without a file, the constructor makes
    [detected_faces] and [temp] only. *)
Lemma default_paths_make_two_folders_witness :
  snd (Config.__init__ abspath makedirs Config.Absent)
  = {| Config.made := ["detected_faces"; "temp"]%string; Config.raised := false |}.
Proof.
  refine (default_paths_make_two_folders abspath makedirs Config.Absent _ _ _ _).
  - intros d H. discriminate H.
  - reflexivity.
  - reflexivity.
  - reflexivity.
Defined.

Lemma go_back_undoes_navigate_to_witness :
  App.go_back (App.navigate_to App._open_results App.__init__) = App.__init__.
Proof.
  refine (proj1 (go_back_undoes_navigate_to App._open_results App.__init__ _)).
  reflexivity.
Defined.

(** Two files deleted from the screen of the reports: two presses of Back
    to be where one was. *)
Lemma delete_file_stacks_the_folder_screen_witness :
  Nat.iter 2 App.go_back (Nat.iter 2 (App.delete_file "reports") on_folder) = on_folder.
Proof.
  refine (proj1 (delete_file_stacks_the_folder_screen "reports" 2 on_folder _ _)).
  - reflexivity.
  - reflexivity.
Defined.

(** Six presses of the button, one cancelled: four images. *)
Lemma window_references_all_attempted_witness :
  App.reference_image_paths
    (foldl (fun w path => App.add_reference_image path w) App.__init__ dialogs)
  = ["a.jpg"; "b.jpg"; "c.jpg"; "d.jpg"]%string.
Proof.
  refine (proj1 (window_references_all_attempted (settings 5 5) dialogs App.__init__ 4
                   _ _ _)).
  - reflexivity.
  - reflexivity.
  - discriminate.
Defined.

(** Start pressed on the video with one match. *)
Lemma session_count_is_the_history_witness :
  1 = Z.of_nat (length (report_data after_first_run)).
Proof.
  refine (proj1 (session_count_is_the_history path_exists load_encodings face_analysis
                   compare_faces face_distance gray_std frame_shape report_writable (settings 5 5) true
                   (Some video_one) 3 nobody ready 1 after_first_run _)).
  vm_compute. reflexivity.
Defined.
